(** * Zircon Raman spectral preprocessing: a shallow embedding

    The definitions below follow [batch_raman_backup_v7.0.py].  Numeric
    conventions used throughout:

    - a finite float64 is read as the rational (or real) number it denotes,
      and arithmetic is exact; decimal literals of the source ([14.5],
      [0.07683], ...) are the decimal fractions they spell;
    - a NumPy array is a [list]; a pandas DataFrame is a list of labelled
      rows, the label being the pandas index;
    - a Python [dict] that is shared and mutated lives in an explicit store
      addressed by references. *)

From Stdlib Require Import QArith Qminmax Qround Qabs Lqa Lia List Bool.
From Stdlib Require Import Reals Lra.
From Stdlib Require Import Ascii.
From stdpp Require Import gmap strings list fin_maps.

Import ListNotations.

(** ** Boolean comparisons on rationals *)

Definition Qleb (a b : Q) : bool := Qle_bool a b.
Definition Qltb (a b : Q) : bool := negb (Qle_bool b a).

(** ** Region classifier *)

Module Regions.

(** One entry of the dictionary returned by [get_zircon_spectral_regions]:
    [(min_wave, max_wave, is_inclusive)]. *)
Record region := mkRegion {
  min_wave : Q;
  max_wave : Q;
  is_inclusive : bool
}.

(** [get_zircon_spectral_regions]: the dictionary in insertion order. *)
Definition get_zircon_spectral_regions : list (string * region) :=
  [ ("ν₃(SiO₄)",      mkRegion 990 1020 true);
    ("ν₁(SiO₄)",      mkRegion 965 985 true);
    ("ν₂(SiO₄)",      mkRegion 430 450 true);
    ("External mode 1", mkRegion 195 210 false);
    ("External mode 2", mkRegion 210 220 false);
    ("External mode 3", mkRegion 220 230 false);
    ("External mode 4", mkRegion 350 365 true) ]%string.

(** [is_peak_in_region(center_value, min_wave, max_wave, is_inclusive)]. *)
Definition is_peak_in_region (center_value lo hi : Q) (incl : bool) : bool :=
  if incl
  then Qleb lo center_value && Qleb center_value hi
  else Qleb lo center_value && Qltb center_value hi.

Definition in_region (center_value : Q) (r : region) : bool :=
  is_peak_in_region center_value (min_wave r) (max_wave r) (is_inclusive r).

(** The names of the regions whose membership test accepts a centre. *)
Definition matching_regions (center_value : Q) : list string :=
  map fst (List.filter (fun e => in_region center_value (snd e))
                  get_zircon_spectral_regions).

(** A centre is unclassified when no region accepts it (the complement of
    [all_regions_mask] in [detect_and_remove_outliers]). *)
Definition unclassified (center_value : Q) : bool :=
  negb (existsb (fun e => in_region center_value (snd e))
                get_zircon_spectral_regions).

Definition region_count (centers : list Q) (r : region) : nat :=
  length (List.filter (fun c => in_region c r) centers).

Definition unclassified_count (centers : list Q) : nat :=
  length (List.filter unclassified centers).

Definition total_region_count (centers : list Q) : nat :=
  list_sum (map (fun e => region_count centers (snd e))
                get_zircon_spectral_regions).

End Regions.

(** ** Radiation-damage classifier *)

Module Damage.

(** [categorize_radiation_damage(fwhm)]: the category and the estimated
    dose [Ded = -0.1402 + 0.07683 * FWHM]. *)
Definition categorize_radiation_damage (fwhm : Q) : string * Q :=
  let dose := (-0.1402 + 0.07683 * fwhm)%Q in
  if Qleb fwhm 8 then ("Baixo dano"%string, dose)
  else if Qleb fwhm 14.5 then ("Dano moderado"%string, dose)
  else if Qleb fwhm 25 then ("Alto dano"%string, dose)
  else ("Quase amorfo"%string, dose).

End Damage.

(** ** Outlier detector *)

Module Outliers.
Import Regions.

(** The columns of a result row that the cleaning pass computes with.
    The table also has the column [Pico], which the verbose listing
    prints. *)
Record peak_row := mkRow {
  Centro : Q;
  FWHM_Gauss : Q;
  R2 : Q
}.

(** A DataFrame: rows in order, each with its index label. *)
Definition dataframe : Type := list (nat * peak_row).

Definition index (df : dataframe) : list nat := map fst df.

(** [DataFrame.drop(labels)]: [KeyError] ([None]) when a label is not in the
    index, otherwise every row carrying one of the labels is removed. *)
Definition drop (labels : gset nat) (df : dataframe) : option dataframe :=
  if decide (labels ⊆ list_to_set (index df))
  then Some (List.filter (fun e => bool_decide (e.1 ∉ labels)) df)
  else None.

(** [data[mask].index] for a row-wise boolean mask. *)
Definition index_where (p : peak_row -> bool) (data : dataframe) : list nat :=
  index (List.filter (fun e => p e.2) data).

(** *** Series statistics *)

Fixpoint insert_sorted (v : Q) (l : list Q) : list Q :=
  match l with
  | [] => [v]
  | h :: t => if Qleb v h then v :: l else h :: insert_sorted v t
  end.

Definition sort_values (l : list Q) : list Q := fold_right insert_sorted [] l.

Definition Qsum (l : list Q) : Q := fold_right Qplus 0%Q l.

Definition Qlen (l : list Q) : Q := inject_Z (Z.of_nat (length l)).

(** [Series.quantile(q)], linear interpolation between order statistics. *)
Definition quantile (values : list Q) (q : Q) : Q :=
  let s := sort_values values in
  let pos := ((Qlen s - 1) * q)%Q in
  let lo := Z.to_nat (Qfloor pos) in
  let frac := (pos - inject_Z (Qfloor pos))%Q in
  let a := nth lo s 0%Q in
  let b := nth (lo + 1) s a in
  (a + frac * (b - a))%Q.

Definition mean (l : list Q) : Q := (Qsum l / Qlen l)%Q.

(** The square of [Series.std()] (sample variance, [ddof = 1]). *)
Definition var (l : list Q) : Q :=
  (Qsum (map (fun v => (v - mean l) * (v - mean l)) l) / (Qlen l - 1))%Q.

(** *** The four criteria applied to the rows of one region *)

Definition fwhm_values (region_data : dataframe) : list Q :=
  map (fun e => FWHM_Gauss e.2) region_data.

(** Criterion 1: [R2 < 0.3]. *)
Definition poor_fit_indices (region_data : dataframe) : list nat :=
  index_where (fun r => Qltb (R2 r) 0.3) region_data.

(** Criterion 2: interquartile range, with at least 4 points. *)
Definition iqr_outliers_indices (region_data : dataframe) : list nat :=
  let fw := fwhm_values region_data in
  if (4 <=? length fw)%nat then
    let Q1 := quantile fw 0.25 in
    let Q3 := quantile fw 0.75 in
    let IQR := (Q3 - Q1)%Q in
    let lower_bound := (Q1 - 1.5 * IQR)%Q in
    let upper_bound := (Q3 + 1.5 * IQR)%Q in
    index_where (fun r => Qltb (FWHM_Gauss r) lower_bound
                          || Qltb upper_bound (FWHM_Gauss r)) region_data
  else [].

(** Criterion 3: [|v - mean| / std > 3], with at least 3 points and
    [std > 0].  [std] is the square root of [var]; for [std > 0] the test
    is the same as [(v - mean)^2 > 9 * var], which is how it is computed
    here. *)
Definition z_outliers_indices (region_data : dataframe) : list nat :=
  let fw := fwhm_values region_data in
  if (3 <=? length fw)%nat && Qltb 0 (var fw) then
    index_where (fun r =>
      Qltb (9 * var fw)
           ((FWHM_Gauss r - mean fw) * (FWHM_Gauss r - mean fw))) region_data
  else [].

(** Criterion 4: [FWHM > 60]. *)
Definition extreme_fwhm_indices (region_data : dataframe) : list nat :=
  index_where (fun r => Qltb 60 (FWHM_Gauss r)) region_data.

(** The Python [set] [outliers_indices] after its four [update] calls. *)
Definition region_outliers (region_data : dataframe) : gset nat :=
  ((((∅ ∪ list_to_set (poor_fit_indices region_data))
        ∪ list_to_set (iqr_outliers_indices region_data))
        ∪ list_to_set (z_outliers_indices region_data))
        ∪ list_to_set (extreme_fwhm_indices region_data)).

(** One entry of [outlier_report] (counts and indices; the descriptive
    statistics stored next to them are not read by anything below). *)
Record region_report := mkReport {
  initial_count : nat;
  outliers_removed : nat;
  remaining_count : nat;
  outlier_indices : list nat
}.

Definition region_data_of (results_df : dataframe) (r : region) : dataframe :=
  List.filter (fun e => in_region (Centro e.2) r) results_df.

Definition clean_state : Type := dataframe * list (string * region_report).

(** Whether the verbose listing of the flagged peaks can be printed:
    [region_data.loc[idx, 'R2']] is a number when the label [idx] names
    one row of the region; with a repeated label it is a Series, and the
    format [:.3f] applied to it raises [TypeError]. *)
Definition printable (region_data : dataframe) (outliers_indices : gset nat)
    : bool :=
  forallb (fun idx =>
             (count_occ Nat.eq_dec (index region_data) idx =? 1)%nat)
          (elements outliers_indices).

(** The state of the loop over the regions: [cleaned_df], [outlier_report]
    and whether the local variable [stats_before] has been assigned. *)
Definition loop_state : Type := clean_state * bool.

(** The body of the loop over [spectral_regions.items()].  [stats_before]
    is assigned when the region has no outlier and when rows of the region
    are left after the removal, but not when the region loses all its rows;
    the report entry reads it in every case, which raises
    [UnboundLocalError] ([None]) if no earlier region assigned it. *)
Definition region_pass (verbose : bool) (results_df : dataframe)
    (st : option loop_state) (e : string * region) : option loop_state :=
  '(cleaned_df, outlier_report, stats_before_bound) ← st;
  let region_data := region_data_of results_df e.2 in
  if (length region_data =? 0)%nat
  then Some (cleaned_df, outlier_report, stats_before_bound)
  else
    let initial_count := length region_data in
    let outliers_indices := region_outliers region_data in
    if verbose && negb (printable region_data outliers_indices) then None
    else
      let region_outliers_count := size outliers_indices in
      cleaned_df' ← drop outliers_indices cleaned_df;
      stats_before_bound' ←
        (if (0 <? region_outliers_count)%nat then
           remaining_data ← drop outliers_indices region_data;
           if (0 <? length remaining_data)%nat then Some true
           else if (stats_before_bound : bool) then Some true else None
         else Some true);
      Some (cleaned_df',
            outlier_report ++
              [(e.1, mkReport initial_count region_outliers_count
                              (initial_count - region_outliers_count)
                              (elements outliers_indices))],
            stats_before_bound').

(** Rows outside every region and the stricter rule applied to them. *)
Definition unclassified_data (results_df : dataframe) : dataframe :=
  List.filter (fun e => unclassified (Centro e.2)) results_df.

Definition unclassified_outliers_indices (results_df : dataframe) : list nat :=
  index_where (fun r => Qltb (R2 r) 0.5 || Qltb 50 (FWHM_Gauss r))
              (unclassified_data results_df).

(** [detect_and_remove_outliers(results_df, verbose)]: the cleaned table
    and the per-region report, or [None] when the call raises: a [drop] of
    a label that is gone ([KeyError]), the listing of a repeated label
    ([TypeError]), [stats_before] read before any assignment
    ([UnboundLocalError]), or, with [verbose], the percentage of removed
    rows of an empty table ([ZeroDivisionError]: both operands are Python
    integers).  The other figures printed with [verbose] are NumPy floats,
    whose divisions do not raise.  Both callers pass [verbose=True]. *)
Definition detect_and_remove_outliers (results_df : dataframe)
    (verbose : bool) : option clean_state :=
  '(cleaned_df, outlier_report, _) ←
     fold_left (region_pass verbose results_df) get_zircon_spectral_regions
               (Some (results_df, [], false));
  cleaned_df ←
    (if (0 <? length (unclassified_data results_df))%nat then
       let idx := unclassified_outliers_indices results_df in
       if (0 <? length idx)%nat then drop (list_to_set idx) cleaned_df
       else Some cleaned_df
     else Some cleaned_df);
  if verbose && (length results_df =? 0)%nat then None
  else Some (cleaned_df, outlier_report).

(** *** Notions used to state what the cleaning pass does *)

(** The labels flagged in the regions [regs]: the union of the per-region
    sets. *)
Definition flagged_in_regions (results_df : dataframe)
    (regs : list (string * region)) : gset nat :=
  ⋃ (map (fun e => region_outliers (region_data_of results_df e.2)) regs).

(** All labels the pass removes: those flagged in some region, and the
    unclassified rows caught by the stricter rule. *)
Definition removed_labels (results_df : dataframe) : gset nat :=
  flagged_in_regions results_df get_zircon_spectral_regions
  ∪ list_to_set (unclassified_outliers_indices results_df).

(** The rows whose label is not in [S]. *)
Definition kept (S : gset nat) (df : dataframe) : dataframe :=
  List.filter (fun e => bool_decide (e.1 ∉ S)) df.

(** The report entry of a region, if the region has rows. *)
Definition report_entry (results_df : dataframe) (e : string * region)
    : option (string * region_report) :=
  let region_data := region_data_of results_df e.2 in
  if (length region_data =? 0)%nat then None
  else
    let out := region_outliers region_data in
    Some (e.1, mkReport (length region_data) (size out)
                        (length region_data - size out) (elements out)).

(** Whether the criteria flag rows of the region and leave none of it. *)
Definition loses_all_rows (results_df : dataframe) (r : region) : bool :=
  let region_data := region_data_of results_df r in
  let outliers_indices := region_outliers region_data in
  (0 <? size outliers_indices)%nat
  && (length (kept outliers_indices region_data) =? 0)%nat.

(** The first region, in the order of the dictionary, that has rows. *)
Definition first_region_with_rows (results_df : dataframe)
    (regs : list (string * region)) : option (string * region) :=
  List.find (fun e => negb (length (region_data_of results_df e.2) =? 0)%nat)
            regs.

(** Whether the loop over [regs], entered with [stats_before] not yet
    assigned, reads it before assigning it: the first region that has rows
    loses them all. *)
Definition loop_raises (results_df : dataframe)
    (regs : list (string * region)) : bool :=
  match first_region_with_rows results_df regs with
  | Some e => loses_all_rows results_df e.2
  | None => false
  end.

(** Whether the pass raises on a table with unique labels: in the loop
    over the regions, or at the summary when the table is empty and
    [verbose] is set. *)
Definition raises (results_df : dataframe) (verbose : bool) : bool :=
  loop_raises results_df get_zircon_spectral_regions
  || verbose && (length results_df =? 0)%nat.

(** [total_outliers_removed]: the counts of the regions and of the
    unclassified rows, added up. *)
Definition total_outliers_removed (results_df : dataframe)
    (outlier_report : list (string * region_report)) : nat :=
  (list_sum (map (fun e => outliers_removed e.2) outlier_report)
   + length (unclassified_outliers_indices results_df))%nat.

(** *** Example tables *)

Definition nu3_row (fwhm r2 : Q) : peak_row := mkRow 1008 fwhm r2.

(** Three well-behaved peaks of the nu3 region, one with [R2 = 0.1] and
    [FWHM = 70], and two unclassified peaks at 600 cm-1. *)
Definition scenario_table : dataframe :=
  [ (0, nu3_row 9 0.95); (1, nu3_row 9.5 0.93); (2, nu3_row 70 0.1);
    (3, nu3_row 10 0.9);
    (4, mkRow 600 12 0.4); (5, mkRow 600 12 0.8) ]%nat.

(** Nine good fits of the nu3 region whose widths spread out. *)
Definition spread_table : dataframe :=
  [ (0, nu3_row 10 0.9); (1, nu3_row 10 0.9); (2, nu3_row 10 0.9);
    (3, nu3_row 10 0.9); (4, nu3_row 10 0.9); (5, nu3_row 11 0.9);
    (6, nu3_row 14 0.9); (7, nu3_row 16 0.9); (8, nu3_row 40 0.9) ]%nat.

End Outliers.

(** ** Spectrum pre-conditioning in [process_file] *)

Module Precondition.

(** Array elements as read from the CSV column: a finite value, NaN, or an
    infinity. *)
Inductive float64 :=
  | Fin (q : Q)
  | NaN
  | PosInf
  | NegInf.

Definition isnan (v : float64) : bool :=
  match v with NaN => true | _ => false end.

(** Truth value used by [np.count_nonzero]: everything but a zero. *)
Definition nonzero (v : float64) : bool :=
  match v with Fin q => negb (Qeq_bool q 0) | _ => true end.

(** Largest finite float64, [(2 - 2^-52) * 2^1023]. *)
Definition float_max : Q := inject_Z (2 ^ 1024 - 2 ^ 971).

(** [np.nan_to_num(v, nan=0.0)]: NaN becomes 0, the infinities become the
    extreme finite values. *)
Definition nan_to_num (v : float64) : float64 :=
  match v with
  | Fin q => Fin q
  | NaN => Fin 0
  | PosInf => Fin float_max
  | NegInf => Fin (- float_max)
  end.

(** [a < b]; every comparison with NaN is false. *)
Definition flt (a b : float64) : bool :=
  match a, b with
  | NaN, _ | _, NaN => false
  | Fin x, Fin y => Qltb x y
  | NegInf, NegInf => false
  | NegInf, _ => true
  | _, NegInf => false
  | PosInf, _ => false
  | Fin _, PosInf => true
  end.

(** [a - b]. *)
Definition fsub (a b : float64) : float64 :=
  match a, b with
  | NaN, _ | _, NaN => NaN
  | Fin x, Fin y => Fin (x - y)
  | PosInf, PosInf | NegInf, NegInf => NaN
  | PosInf, _ => PosInf
  | NegInf, _ => NegInf
  | Fin _, PosInf => NegInf
  | Fin _, NegInf => PosInf
  end.

(** One step of [np.min]: NaN propagates. *)
Definition fmin (a b : float64) : float64 :=
  if isnan a then a else if isnan b then b else if flt b a then b else a.

(** [np.min(y)]; [None] is the [ValueError] on an empty array. *)
Definition np_min (y : list float64) : option float64 :=
  match y with
  | [] => None
  | v :: rest => Some (fold_left fmin rest v)
  end.

Definition count (p : float64 -> bool) (y : list float64) : nat :=
  length (List.filter p y).

(** The data-quality test: more than half NaN, or fewer than half non-zero
    ([> 0.5 * len(y)] and [< 0.5 * len(y)], doubled to stay in integers). *)
Definition invalid_data (y : list float64) : bool :=
  (length y <? 2 * count isnan y)%nat || (2 * count nonzero y <? length y)%nat.

(** The statements of [process_file] between reading a column and calling
    [correct_baseline]: [None] when the column is skipped, otherwise the
    array handed to the baseline estimator. *)
Definition precondition (y : list float64) : option (list float64) :=
  if invalid_data y then None
  else
    let y := map nan_to_num y in
    if existsb (fun v => flt v (Fin 0)) y then
      m ← np_min y; Some (map (fun v => fsub v m) y)
    else Some y.

(** What the baseline estimator expects of an element: finite (so not
    NaN), and finite and non-negative. *)
Definition finite (v : float64) : Prop := exists q : Q, v = Fin q.

Definition finite_nonneg (v : float64) : Prop :=
  exists q : Q, v = Fin q /\ (0 <= q)%Q.

End Precondition.

(** ** Gaussian fitter *)

Module Fitter.

(** The parameter vector [amplitude, center, sigma, offset]. *)
Record params := mkParams {
  amplitude : Q;
  center : Q;
  sigma : Q;
  offset : Q
}.

Record fit_result := mkFit {
  fit_params : params;
  fwhm_gaussian : Q;
  area_gaussian : Q;
  area_numerical : Q;
  r_squared : Q;
  chi_squared_reduced : Q;
  fit_range : Q * Q
}.

Definition Qsum (l : list Q) : Q := fold_right Qplus 0%Q l.
Definition Qlen (l : list Q) : Q := inject_Z (Z.of_nat (length l)).
Definition Qsq (v : Q) : Q := (v * v)%Q.

(** Python's [min(x)] and [max(x)] on a non-empty sequence. *)
Definition seq_min (d : Q) (x : list Q) : Q :=
  match x with [] => d | v :: rest => fold_left Qmin rest v end.
Definition seq_max (d : Q) (x : list Q) : Q :=
  match x with [] => d | v :: rest => fold_left Qmax rest v end.

Section Fit.

(** Library routines used by the fitter: [np.exp], the constant
    [sqrt(2*pi)], [scipy.integrate.simpson] and [scipy.optimize.curve_fit]
    (already given the method, iteration cap and tolerances).  [curve_fit]
    takes the window, the initial guess and the two bound vectors, and
    yields [None] when it raises. *)
Variable np_exp : Q -> Q.
Variable sqrt_2pi : Q.
Variable simpson : list Q -> list Q -> Q.
Variable curve_fit :
  list Q -> list Q -> params -> params -> params -> option params.

(** [single_gaussian(x, amplitude, center, sigma, offset)]. *)
Definition single_gaussian (x : Q) (p : params) : Q :=
  (amplitude p
   * np_exp (- (Qsq (x - center p)) / (2 * Qsq (sigma p)))
   + offset p)%Q.

(** [calculate_gaussian_area(amplitude, sigma)]. *)
Definition calculate_gaussian_area (a s : Q) : Q := (a * s * sqrt_2pi)%Q.

(** The fit window of a peak with half-maximum positions [left_pos] and
    [right_pos]. *)
Definition window (x : list Q) (left_pos right_pos : Q) : Q * Q :=
  let width := (right_pos - left_pos)%Q in
  let margin := (0.2 * width)%Q in
  let left_with_margin := Qmax (seq_min 0 x) (left_pos - margin) in
  let right_with_margin := Qmin (seq_max 0 x) (right_pos + margin) in
  (left_with_margin, right_with_margin).

Definition fit_mask (w : Q * Q) (xv : Q) : bool :=
  Qleb w.1 xv && Qleb xv w.2.

(** The statements of the [try] block once [curve_fit] has returned. *)
Definition make_result (x_fit y_fit : list Q) (w : Q * Q) (popt : params)
    : fit_result :=
  let residuals :=
    map (fun xy : Q * Q => (xy.2 - single_gaussian xy.1 popt)%Q)
        (combine x_fit y_fit) in
  let ss_residuals := Qsum (map Qsq residuals) in
  let y_mean := (Qsum y_fit / Qlen y_fit)%Q in
  let ss_total := Qsum (map (fun v => Qsq (v - y_mean)) y_fit) in
  let r_squared := (1 - ss_residuals / ss_total)%Q in
  let degrees_of_freedom := Z.max 1 (Z.of_nat (length y_fit) - 4) in
  let y_var := (ss_total / Qlen y_fit)%Q in
  let chi_squared := Qsum (map (fun r => (Qsq r / y_var)%Q) residuals) in
  let chi_squared_reduced := (chi_squared / inject_Z degrees_of_freedom)%Q in
  let gaussian_area := calculate_gaussian_area (amplitude popt) (sigma popt) in
  let y_fitted_range :=
    map (fun xv => (single_gaussian xv popt - offset popt)%Q) x_fit in
  let numerical_area := simpson y_fitted_range x_fit in
  mkFit popt (2.355 * sigma popt) gaussian_area numerical_area
        r_squared chi_squared_reduced w.

(** The body of the loop of [fit_gaussian_profiles] for peak number [i]
    at sample [peak_idx].  The outer [None] is an [IndexError] raised
    outside the [try] block; [Some None] is a peak left out ([continue],
    either for too few samples or from the [except] branch); [Some (Some r)]
    is the row appended to [fitted_params]. *)
Definition fit_peak (x y : list Q) (fwhm_left_ips fwhm_right_ips : list Q)
    (i peak_idx : nat) : option (option fit_result) :=
  x_peak ← x !! peak_idx;
  y_peak ← y !! peak_idx;
  left_pos ← fwhm_left_ips !! i;
  right_pos ← fwhm_right_ips !! i;
  let width := (right_pos - left_pos)%Q in
  let w := window x left_pos right_pos in
  let x_fit := List.filter (fit_mask w) x in
  let y_fit :=
    map snd (List.filter (fun xy : Q * Q => fit_mask w xy.1) (combine x y)) in
  if (length x_fit <? 5)%nat then Some None
  else
    let initial_params := mkParams y_peak x_peak (width / 2.355) 0 in
    let lower := mkParams 0 (seq_min 0 x_fit) 0 (-0.1) in
    let upper := mkParams (Qmin 1 (2 * y_peak)) (seq_max 0 x_fit) width 0.1 in
    match curve_fit x_fit y_fit initial_params lower upper with
    | Some popt => Some (Some (make_result x_fit y_fit w popt))
    | None => Some None
    end.

(** The loop of [fit_gaussian_profiles] from peak number [i] on. *)
Fixpoint fit_loop (x y : list Q) (fwhm_left_ips fwhm_right_ips : list Q)
    (i : nat) (peaks_indices : list nat) (fitted_params : list fit_result)
    : option (list fit_result) :=
  match peaks_indices with
  | [] => Some fitted_params
  | peak_idx :: rest =>
    o ← fit_peak x y fwhm_left_ips fwhm_right_ips i peak_idx;
    fit_loop x y fwhm_left_ips fwhm_right_ips (S i) rest
             (match o with
              | Some fit_result => fitted_params ++ [fit_result]
              | None => fitted_params
              end)
  end.

(** [fit_gaussian_profiles(x, y, peaks_indices, fwhm_left_ips,
    fwhm_right_ips)]. *)
Definition fit_gaussian_profiles (x y : list Q) (peaks_indices : list nat)
    (fwhm_left_ips fwhm_right_ips : list Q) : option (list fit_result) :=
  fit_loop x y fwhm_left_ips fwhm_right_ips 0 peaks_indices [].

End Fit.

End Fitter.

(** ** Configuration dictionaries and the combinatorial sweep *)

Module Sweep.

(** Python values held in the configuration: strings, numbers, booleans
    and references to other dictionaries. *)
Inductive pyval :=
  | VStr (s : string)
  | VNum (q : Q)
  | VBool (b : bool)
  | VRef (l : nat).

(** The store: every [dict] object lives at a location; a nested [dict] is
    held by reference, so two dictionaries can share it. *)
Abbreviation dict := (gmap string pyval).
Abbreviation store := (gmap nat dict).

(** [d[k]] on the dictionary at location [c]; [None] is a [KeyError]. *)
Definition getitem (h : store) (c : nat) (k : string) : option pyval :=
  d ← h !! c; d !! k.

(** [d[k] = v] on the dictionary at location [c]. *)
Definition setitem (h : store) (c : nat) (k : string) (v : pyval)
    : option store :=
  d ← h !! c; Some (<[c := <[k := v]> d]> h).

(** [d[k1][k2] = v]: the inner dictionary is found through the reference
    stored under [k1] and updated in place. *)
Definition setitem2 (h : store) (c : nat) (k1 k2 : string) (v : pyval)
    : option store :=
  r ← getitem h c k1;
  match r with
  | VRef l => setitem h l k2 v
  | _ => None
  end.

(** [d.copy()]: a new dictionary object with the same entries; values that
    are references keep pointing to the same objects. *)
Definition dict_copy (h : store) (c : nat) : option (store * nat) :=
  d ← h !! c;
  let c' := fresh (dom h) in
  Some (<[c' := d]> h, c').

(** The dictionary built by [load_config] when no file exists, at location
    0, its groups at locations 1 to 7. *)
Definition default_config : store :=
  list_to_map
    [ (0, list_to_map
            [ ("normalization", VRef 1); ("baseline_correction", VRef 2);
              ("smoothing", VRef 3); ("peak_detection", VRef 4);
              ("fitting", VRef 5); ("data_format", VRef 6);
              ("output_dir", VStr "batch_reports");
              ("input_dir", VStr "csv_unificados");
              ("peak_analysis", VRef 7) ]%string);
      (1, list_to_map [ ("method", VStr "min_max") ]%string);
      (2, list_to_map
            [ ("method", VStr "spline"); ("airpls_lambda", VNum 10000);
              ("polynomial_degree", VNum 4);
              ("spline_smoothing", VNum 0.1) ]%string);
      (3, list_to_map
            [ ("window_length", VNum 11); ("polyorder", VNum 3) ]%string);
      (4, list_to_map
            [ ("height_percent", VNum 8); ("prominence_percent", VNum 4);
              ("distance", VNum 2); ("width", VNum 2) ]%string);
      (5, list_to_map
            [ ("method", VStr "trf"); ("max_iterations", VNum 1000);
              ("tolerance", VNum 0.00000001) ]%string);
      (6, list_to_map
            [ ("grain_only_columns", VBool false);
              ("default_location", VStr "1") ]%string);
      (7, list_to_map
            [ ("height_threshold", VNum 0.05);
              ("prominence_threshold", VNum 0.02) ]%string) ].

(** [str.capitalize] on ASCII text. *)
Definition upper_ascii (c : ascii) : ascii :=
  let n := nat_of_ascii c in
  if (97 <=? n)%nat && (n <=? 122)%nat then ascii_of_nat (n - 32) else c.

Definition lower_ascii (c : ascii) : ascii :=
  let n := nat_of_ascii c in
  if (65 <=? n)%nat && (n <=? 90)%nat then ascii_of_nat (n + 32) else c.

Fixpoint lower (s : string) : string :=
  match s with
  | String.EmptyString => String.EmptyString
  | String.String c r => String.String (lower_ascii c) (lower r)
  end.

Definition capitalize (s : string) : string :=
  match s with
  | String.EmptyString => String.EmptyString
  | String.String c r => String.String (upper_ascii c) (lower r)
  end.

Definition baseline_methods : list string :=
  ["airpls"; "polynomial"; "spline"]%string.
Definition normalization_methods : list string :=
  ["min_max"; "area"; "peak"; "vector"]%string.

Definition combination_name (baseline_method norm_method : string) : string :=
  (capitalize baseline_method ++ "_" ++ capitalize norm_method)%string.

(** What [process_file] hands back to the sweep. *)
Inductive file_result :=
  | Raises
  | ReturnsNone
  | Returns (results : list Outliers.peak_row).

(** Records written to the scientific log that the properties below read. *)
Inductive log_record :=
  | CombinationStart (count : nat) (name : string)
  | FileSuccess (file : string) (peaks : nat)
  | FileWarning (file : string)
  | FileError (file : string)
  | ResultSkipped (name : string)
  | ResultFailedNoPeaks (name : string)
  | ResultFailedError (name : string).

(** One dictionary appended to [combination_summary]. *)
Record summary_entry := mkEntry {
  Combination : string;
  Baseline_Method : string;
  Normalization_Method : string;
  Total_Peaks : nat;
  Excellent_Fits : nat;
  Poor_Fits : nat;
  Nu3_Count : nat
}.

(** The combinations the log reports as skipped or failed. *)
Definition failure_name (r : log_record) : option string :=
  match r with
  | ResultSkipped name | ResultFailedNoPeaks name | ResultFailedError name =>
    Some name
  | _ => None
  end.

Definition failed_combinations (log : list log_record) : list string :=
  omap failure_name log.

(** A configuration as [load_config] produces it: the dictionary at
    [config] holds its two method groups by reference, in two distinct
    dictionaries other than itself. *)
Definition well_formed_config (h : store) (config lb ln : nat) : Prop :=
  getitem h config "baseline_correction" = Some (VRef lb) /\
  getitem h config "normalization" = Some (VRef ln) /\
  is_Some (h !! lb) /\ is_Some (h !! ln) /\
  lb <> ln /\ lb <> config /\ ln <> config.

(** What every entry of the summary satisfies: it stands for a
    combination that produced peaks, under the name built from its two
    methods. *)
Definition entry_ok (e : summary_entry) : Prop :=
  (0 < Total_Peaks e)%nat /\
  Combination e
  = combination_name (Baseline_Method e) (Normalization_Method e).

Definition combination_names (cs : list (string * string)) : list string :=
  map (fun bn => combination_name bn.1 bn.2) cs.

Record sweep_state := mkState {
  st_store : store;
  combination_summary : list summary_entry;
  st_log : list log_record;
  combination_count : nat
}.

(** What the statements after the loop do when some combination
    succeeded: they write the comparative summary, the regional comparison
    read back from the files of the combinations, and the conclusions.
    They may raise (nothing catches an error of the regional part),
    return [None] from the search of the best combinations, or reach
    [return combination_summary]. *)
Inductive report_outcome :=
  | ReportRaises
  | ReportReturnsNone
  | ReportWritten.

(** How a call ends: an exception leaves it, or it returns a value. *)
Inductive call_result :=
  | Raised
  | Returned (value : option (list summary_entry)).

Section Run.

(** The surroundings of one run: the CSV files found by the [glob] made
    for combination number [k] ([k = 0] is the check before the loop); the
    outcome of [process_file] on a file under the configuration at a given
    location of the store; whether the block that saves the results and
    writes the reports of a combination completes ([false]: it raised);
    and the outcome of the report stage that follows the loop. *)
Variable glob_csv : nat -> list string.
Variable process_file : string -> store -> nat -> file_result.
Variable write_outputs : string -> list Outliers.peak_row -> bool.
Variable write_comparative_reports : list summary_entry -> report_outcome.

(** The loop over [csv_files]: the concatenated results and the log. *)
Definition file_pass (h : store) (test_config : nat)
    (acc : list Outliers.peak_row * list log_record) (file_path : string)
    : list Outliers.peak_row * list log_record :=
  let '(all_results, log) := acc in
  match process_file file_path h test_config with
  | Returns results =>
    match results with
    | [] => (all_results, log ++ [FileWarning file_path])
    | _ :: _ =>
      (all_results ++ results, log ++ [FileSuccess file_path (length results)])
    end
  | ReturnsNone => (all_results, log ++ [FileWarning file_path])
  | Raises => (all_results, log ++ [FileError file_path])
  end.

Definition count_rows (p : Outliers.peak_row -> bool)
    (t : list Outliers.peak_row) : nat :=
  length (List.filter p t).

(** The statements of the loop body before its [try] block: the
    configuration of the combination is made from the caller's one.
    [None] is a [KeyError].  The output directory is written by its last
    component, without the running number of the combination. *)
Definition make_test_config (h : store) (config : nat)
    (baseline_method norm_method : string) : option (store * nat) :=
  '(h1, test_config) ← dict_copy h config;
  h2 ← setitem2 h1 test_config "baseline_correction" "method"
                (VStr baseline_method);
  h3 ← setitem2 h2 test_config "normalization" "method" (VStr norm_method);
  let name := combination_name baseline_method norm_method in
  h4 ← setitem h3 test_config "output_dir" (VStr ("Combination_" ++ name));
  Some (h4, test_config).

(** The [try] block of the loop body with its [except] branch: what is
    appended to [combination_summary], and the log. *)
Definition try_combination (h : store) (test_config count : nat)
    (baseline_method norm_method : string) (log : list log_record)
    : option summary_entry * list log_record :=
  let name := combination_name baseline_method norm_method in
  let csv_files := glob_csv count in
  match csv_files with
  | [] => (None, log ++ [ResultSkipped name])
  | _ :: _ =>
    let '(all_results, log) :=
      fold_left (file_pass h test_config) csv_files ([], log) in
    match all_results with
    | [] => (None, log ++ [ResultFailedNoPeaks name])
    | _ :: _ =>
      if write_outputs name all_results then
        (Some
           (mkEntry name baseline_method norm_method (length all_results)
              (count_rows (fun r => Qltb 0.9 (Outliers.R2 r)) all_results)
              (count_rows (fun r => Qltb (Outliers.R2 r) 0.3) all_results)
              (count_rows (fun r => Qleb 990 (Outliers.Centro r)
                                    && Qleb (Outliers.Centro r) 1020)
                          all_results)),
         log)
      else (None, log ++ [ResultFailedError name])
    end
  end.

(** The body of the two nested loops for one pair of methods. *)
Definition combination_pass (config : nat) (st : sweep_state)
    (baseline_method norm_method : string) : option sweep_state :=
  let count := S (combination_count st) in
  '(h, test_config) ←
     make_test_config (st_store st) config baseline_method norm_method;
  let name := combination_name baseline_method norm_method in
  let '(entry, log) :=
    try_combination h test_config count baseline_method norm_method
                    (st_log st ++ [CombinationStart count name]) in
  Some (mkState h
          (match entry with
           | Some e => combination_summary st ++ [e]
           | None => combination_summary st
           end)
          log count).

(** All ordered pairs, baseline method outermost. *)
Definition combinations : list (string * string) :=
  b ← baseline_methods; n ← normalization_methods; [(b, n)].

Definition sweep_loop (config : nat) (st : sweep_state)
    : option sweep_state :=
  fold_left (fun st bn => st ← st; combination_pass config st bn.1 bn.2)
            combinations (Some st).

(** [test_all_baseline_normalization_combinations(config)]: the state
    at the end of the loop over the combinations (store, summary and log)
    and how the call ends.  With no CSV file at the start the function
    returns [None] before the loop; with no successful combination it
    returns [None] after it; otherwise the report stage decides, and the
    summary is returned only if that stage completes.  The outer [None] is
    a [KeyError] while the configuration of a combination is prepared. *)
Definition test_all_baseline_normalization_combinations
    (h : store) (config : nat) : option (sweep_state * call_result) :=
  let st0 := mkState h [] [] 0 in
  match glob_csv 0 with
  | [] => Some (st0, Returned None)
  | _ :: _ =>
    st ← sweep_loop config st0;
    match combination_summary st with
    | [] => Some (st, Returned None)
    | _ :: _ =>
      match write_comparative_reports (combination_summary st) with
      | ReportRaises => Some (st, Raised)
      | ReportReturnsNone => Some (st, Returned None)
      | ReportWritten => Some (st, Returned (Some (combination_summary st)))
      end
    end
  end.

End Run.

(** *** An example run *)

(** One input file holding one good peak of the nu3 region, whose
    processing succeeds under the spline baseline, finds no peak under the
    polynomial one and raises under airPLS. *)
Definition example_process_file (file_path : string) (h : store)
    (test_config : nat) : file_result :=
  match getitem h test_config "baseline_correction" with
  | Some (VRef lb) =>
    match getitem h lb "method" with
    | Some (VStr m) =>
      if String.eqb m "spline" then Returns [Outliers.mkRow 1008 10 0.95]
      else if String.eqb m "polynomial" then ReturnsNone
      else Raises
    | _ => Raises
    end
  | _ => Raises
  end.

End Sweep.

(** ** Baseline estimator *)

Module Baseline.

Local Open Scope R_scope.

(** What a baseline routine hands back.  Python does not fix the shape of
    a return value: [airpls_baseline] returns one array, the other two
    routines return a 2-tuple of arrays. *)
Inductive returned :=
  | Array (z : list R)
  | Pair (corrected_spectrum baseline : list R).

(** The [baseline_correction] group of the configuration. *)
Record baseline_config := mkConfig {
  method : string;
  airpls_lambda : R;
  polynomial_degree : nat;
  spline_smoothing : R
}.

Definition Rltb (a b : R) : bool := if Rlt_dec a b then true else false.
Definition Rleb (a b : R) : bool := if Rle_dec a b then true else false.

Definition Rsum (l : list R) : R := fold_right Rplus 0 l.
Definition Rlen (l : list R) : R := INR (length l).

(** [np.mean], [np.std] (population form) and [np.linalg.norm]. *)
Definition np_mean (l : list R) : R := Rsum l / Rlen l.
Definition np_std (l : list R) : R :=
  sqrt (Rsum (map (fun v => (v - np_mean l) * (v - np_mean l)) l) / Rlen l).
Definition norm (l : list R) : R := sqrt (Rsum (map (fun v => v * v) l)).

(** [np.max(y)] and [np.min(y)]; [None] is the [ValueError] on an empty
    array. *)
Definition np_max (y : list R) : option R :=
  match y with [] => None | v :: rest => Some (fold_left Rmax rest v) end.
Definition np_min (y : list R) : option R :=
  match y with [] => None | v :: rest => Some (fold_left Rmin rest v) end.

(** Element-wise array operations. *)
Definition sub (a b : list R) : list R := zip_with Rminus a b.
Definition mul (a b : list R) : list R := zip_with Rmult a b.
Definition minimum (a b : list R) : list R := zip_with Rmin a b.

(** [np.linspace(start, stop, num)]. *)
Definition linspace (start stop : R) (num : nat) : list R :=
  map (fun i => start + INR i * ((stop - start) / INR (num - 1))) (seq 0 num).

(** *** The reweighted penalised least-squares routine *)

(** Entry [(i, j)] of [sparse.diags([1,-2,1],[0,-1,-2], shape=(L,L-2))]. *)
Definition Dmat (i j : nat) : R :=
  if (i =? j)%nat then 1
  else if (i =? j + 1)%nat then -2
  else if (i =? j + 2)%nat then 1
  else 0.

Definition sum_n (n : nat) (f : nat -> R) : R := Rsum (map f (seq 0 n)).

(** Entry [(i, k)] of [lambda_ * D.dot(D.transpose())]. *)
Definition penalty (lambda_ : R) (L i k : nat) : R :=
  lambda_ * sum_n (L - 2) (fun j => Dmat i j * Dmat k j).

(** Entry [(i, k)] of [Z = W + D], [W] the diagonal matrix of [w]. *)
Definition Zmat (lambda_ : R) (L : nat) (w : list R) (i k : nat) : R :=
  (if (i =? k)%nat then nth i w 0 else 0) + penalty lambda_ L i k.

Definition mat_vec (L : nat) (M : nat -> nat -> R) (z : list R) : list R :=
  map (fun i => sum_n L (fun k => M i k * nth k z 0)) (seq 0 L).

(** [z] solves the linear system handed to [spsolve]. *)
Definition solves (lambda_ : R) (w y z : list R) : Prop :=
  length z = length y /\
  mat_vec (length y) (Zmat lambda_ (length y) w) z = mul w y.

(** The weights computed from the residuals [d = y - z]. *)
Definition update_weights (d : list R) : list R :=
  let dn := List.filter (fun v => Rltb v 0) d in
  let m := np_mean dn in
  let s := np_std dn in
  map (fun di => 1 / (1 + exp (2 * (di - (2 * s - m)) / s))) d.

(** How the construction of a [UnivariateSpline] and its evaluation end:
    with the values of the curve on the grid, with a [ValueError] (the
    checks of the arguments), or with the error of the fitting routine
    itself, which is not a [ValueError]: the cubic spline needs more than
    3 points. *)
Inductive spline_outcome :=
  | SplineCurve (values : list R)
  | SplineValueError
  | SplineFitError.

(** Library routines the three methods call: [scipy.sparse.linalg.spsolve]
    (matrix given by its entries and its size), [scipy.signal.find_peaks]
    with a prominence, [np.polyfit], [np.polyval], [np.percentile],
    [UnivariateSpline] built on the baseline points with a smoothing factor
    and evaluated on a grid, and [np.interp]. *)
Record numerics := mkNumerics {
  spsolve : (nat -> nat -> R) -> nat -> list R -> list R;
  find_peaks : list R -> R -> list nat;
  polyfit : list R -> list R -> nat -> list R;
  polyval : list R -> list R -> list R;
  percentile : list R -> R -> R;
  univariate_spline : list R -> list R -> R -> list R -> spline_outcome;
  interp : list R -> list R -> list R -> list R
}.

Section Methods.

Variable N : numerics.

(** The [for i in range(itermax)] loop; [z] is the baseline of the
    previous iteration. *)
Fixpoint airpls_loop (y : list R) (lambda_ : R) (itermax : nat)
    (w z : list R) : list R :=
  match itermax with
  | O => z
  | S n =>
    let L := length y in
    let z := spsolve N (Zmat lambda_ L w) L (mul w y) in
    let d := sub y z in
    let wt := update_weights d in
    if Rltb (norm (sub w wt) / norm w) 0.00001 then z
    else airpls_loop y lambda_ n wt z
  end.

(** [airpls_baseline(y, lambda_)] with the default [itermax = 10]; [None]
    when the shape [(L, L-2)] is rejected. *)
Definition airpls_baseline (y : list R) (lambda_ : R) : option (list R) :=
  let L := length y in
  if (L <? 2)%nat then None
  else Some (airpls_loop y lambda_ 10 (repeat 1 L) []).

(** The mask that is [False] on a window around every detected peak;
    [int(len(y) * 0.02)] is [len(y) / 50] rounded down. *)
Definition peak_mask (n : nat) (peaks : list nat) : list bool :=
  fold_left
    (fun mask peak =>
       let window := (n / 50)%nat in
       let left := (peak - window)%nat in
       let right := Nat.min n (peak + window) in
       imap (fun i b => if (left <=? i)%nat && (i <? right)%nat
                        then false else b) mask)
    peaks (repeat true n).

(** [v[mask]]. *)
Definition select (mask : list bool) (v : list R) : list R :=
  map snd (List.filter fst (combine mask v)).

Definition count_true (mask : list bool) : nat :=
  length (List.filter (fun b : bool => b) mask).

(** The first part of [polynomial_baseline(y, x, degree)]: the fitted
    polynomial on the grid [x], before it is clipped to the spectrum. *)
Definition polynomial_curve (y x : list R) (degree : nat)
    : option (list R) :=
  M ← np_max y;
  let peaks := find_peaks N y (0.02 * M) in
  let mask := peak_mask (length y) peaks in
  if (degree + 1 <? count_true mask)%nat
  then Some (polyval N (polyfit N (select mask x) (select mask y) degree) x)
  else Some (polyval N (polyfit N x y 1) x).

(** [polynomial_baseline(y, x, degree)]. *)
Definition polynomial_baseline (y x : list R) (degree : nat)
    : option (list R * list R) :=
  baseline ← polynomial_curve y x degree;
  let baseline := minimum baseline y in
  let corrected_spectrum := sub y baseline in
  Some (corrected_spectrum, baseline).

Fixpoint all_increasing (x : list R) : bool :=
  match x with
  | a :: (b :: _) as rest => Rltb a b && all_increasing rest
  | _ => true
  end.

(** Baseline points ordered by abscissa ([np.argsort] and the two
    re-indexings). *)
Fixpoint insert_point (p : R * R) (l : list (R * R)) : list (R * R) :=
  match l with
  | [] => [p]
  | q :: t => if Rleb p.1 q.1 then p :: l else q :: insert_point p t
  end.

Definition sort_points (l : list (R * R)) : list (R * R) :=
  fold_right insert_point [] l.

(** The grid of [spline_baseline]: [x], or the sample numbers when [x]
    does not increase. *)
Definition spline_grid (y x : list R) : list R :=
  if all_increasing x then x else linspace 0 (Rlen y - 1) (length y).

(** The baseline points of [spline_baseline] on the grid [x]: the samples
    outside the windows around the detected peaks, or the samples not
    above the median when the windows leave less than half of the
    spectrum; ordered by abscissa. *)
Definition baseline_points (y x : list R) : option (list (R * R)) :=
  M ← np_max y;
  let peaks := find_peaks N y (0.02 * M) in
  let mask := peak_mask (length y) peaks in
  let mask :=
    if Rltb (INR (count_true mask)) (Rlen y * 0.5)
    then map (fun v => Rleb v (percentile N y 50)) y
    else mask in
  Some (sort_points (combine (select mask x) (select mask y))).

(** The first part of [spline_baseline(y, x, smoothing_factor)], with the
    default [interpolation_factor = 5]: the baseline curve on the grid
    [x], before it is clipped to the spectrum.  The [try] block catches
    [ValueError] only and then interpolates between the baseline points;
    any other error of the spline leaves the function ([None]). *)
Definition spline_curve (y x : list R) (smoothing_factor : R)
    : option (list R) :=
  let x := spline_grid y x in
  x_lo ← np_min x;
  x_hi ← np_max x;
  let x_high_res := linspace x_lo x_hi (length x * 5) in
  points ← baseline_points y x;
  let baseline_x := map fst points in
  let baseline_y := map snd points in
  match univariate_spline N baseline_x baseline_y
                          (smoothing_factor * Rlen y) x_high_res with
  | SplineCurve baseline_high_res =>
    Some (interp N x x_high_res baseline_high_res)
  | SplineValueError => Some (interp N x baseline_x baseline_y)
  | SplineFitError => None
  end.

(** [spline_baseline(y, x, smoothing_factor)]: the curve is clipped to the
    spectrum and subtracted; the difference is then shifted to a zero
    floor and divided by its maximum. *)
Definition spline_baseline (y x : list R) (smoothing_factor : R)
    : option (list R * list R) :=
  baseline ← spline_curve y x smoothing_factor;
  let baseline := minimum baseline y in
  let corrected_spectrum := sub y baseline in
  lo ← np_min corrected_spectrum;
  let corrected_spectrum :=
    if Rltb lo 0 then map (fun v => v - lo) corrected_spectrum
    else corrected_spectrum in
  hi ← np_max corrected_spectrum;
  let corrected_spectrum :=
    if Rltb 0 hi then map (fun v => v / hi) corrected_spectrum
    else corrected_spectrum in
  Some (corrected_spectrum, baseline).

Definition as_pair (r : option (list R * list R)) : option returned :=
  p ← r; Some (Pair p.1 p.2).

(** [correct_baseline(y, x, config)]. *)
Definition correct_baseline (y x : list R) (baseline_config : baseline_config)
    : option returned :=
  let method := method baseline_config in
  if String.eqb method "airpls" then
    z ← airpls_baseline y (airpls_lambda baseline_config); Some (Array z)
  else if String.eqb method "polynomial" then
    as_pair (polynomial_baseline y x (polynomial_degree baseline_config))
  else if String.eqb method "spline" then
    as_pair (spline_baseline y x (spline_smoothing baseline_config))
  else
    as_pair (spline_baseline y x 0.1).

(** The unpacking [y_baseline_corrected, _ = correct_baseline(y, x, config)]
    in [process_file]: a 2-tuple unpacks into its two arrays; an array
    unpacks only when it has exactly two elements (into two numbers),
    otherwise [ValueError] ([None]). *)
Inductive item :=
  | Number (v : R)
  | Vector (a : list R).

Definition unpack2 (r : returned) : option (item * item) :=
  match r with
  | Pair c b => Some (Vector c, Vector b)
  | Array [a; b] => Some (Number a, Number b)
  | Array _ => None
  end.

End Methods.

(** Stand-ins for the library routines, to run the methods on small
    inputs: the solver hands back its right-hand side, no peak is found,
    and every fitted curve is the constant 1; the spline is not fitted on
    fewer than 4 points. *)
Definition constant_spline (baseline_x baseline_y : list R) (s : R)
    (grid : list R) : spline_outcome :=
  if (length baseline_x <? 4)%nat then SplineFitError
  else SplineCurve (map (fun _ => 1) grid).

Definition constant_numerics : numerics :=
  mkNumerics (fun _ _ rhs => rhs)
             (fun _ _ => [])
             (fun _ _ _ => [1])
             (fun _ x => map (fun _ => 1) x)
             (fun _ _ => 0)
             constant_spline
             (fun x _ _ => map (fun _ => 1) x).

(** *** An example spectrum *)

(** Fifty samples at the wavenumbers 0 to 49: a flat background of 1 and
    one peak of height 3 at sample 25. *)
Definition flat_spectrum : list R := repeat 1 25 ++ [3] ++ repeat 1 24.
Definition flat_grid : list R := map INR (seq 0 50).

(** The stand-ins on that spectrum: the peak finder reports the peak at
    sample 25; the baseline points left of it all have ordinate 1, so the
    fitted curve and its interpolation are the constant 1. *)
Definition peak_numerics : numerics :=
  mkNumerics (fun _ _ rhs => rhs)
             (fun _ _ => [25%nat])
             (fun _ _ _ => [1])
             (fun _ x => map (fun _ => 1) x)
             (fun _ _ => 0)
             constant_spline
             (fun x _ _ => map (fun _ => 1) x).

End Baseline.

(** ** Normalisation *)

Module Normalizer.
Import Baseline.

Local Open Scope R_scope.

Definition Rneqb (a b : R) : bool := if Req_dec_T a b then false else true.

(** [np.zeros_like(y)]. *)
Definition zeros_like (y : list R) : list R := map (fun _ => 0) y.

(** [normalize_min_max(y, scale_factor)]; [None] is the [ValueError] of
    [np.min] on an empty array. *)
Definition normalize_min_max (y : list R) (scale_factor : R)
    : option (list R) :=
  y_min ← np_min y;
  y_max ← np_max y;
  if Rltb y_min y_max then
    let y_normalized := map (fun v => (v - y_min) / (y_max - y_min)) y in
    if Rneqb scale_factor 1
    then Some (map (fun v => v * scale_factor) y_normalized)
    else Some y_normalized
  else Some (zeros_like y).

(** [y[i]] for a Python integer [i]: a negative index counts from the
    end, and [None] is the [IndexError] out of range. *)
Definition item_at (y : list R) (i : Z) : option R :=
  let n := Z.of_nat (length y) in
  if (0 <=? i)%Z then y !! Z.to_nat i
  else if (- n <=? i)%Z then y !! Z.to_nat (n + i)
  else None.

(** [normalize_peak(y, peak_index)]; [None] is the [ValueError] of
    [np.max] on an empty array or the [IndexError] of [y[peak_index]]. *)
Definition normalize_peak (y : list R) (peak_index : option Z)
    : option (list R) :=
  peak_value ← match peak_index with
               | None => np_max y
               | Some i => item_at y i
               end;
  if Rneqb peak_value 0 then Some (map (fun v => v / peak_value) y)
  else Some (zeros_like y).

(** [normalize_vector(y)]. *)
Definition normalize_vector (y : list R) : list R :=
  let norm := norm y in
  if Rneqb norm 0 then map (fun v => v / norm) y else zeros_like y.

Section Dispatch.

(** [scipy.integrate.simpson(y)] and [scipy.integrate.simpson(y, x)];
    [None] is the exception it raises (arrays of different lengths). *)
Variable simpson : list R -> option (list R) -> option R.

(** [normalize_area(y, x)]. *)
Definition normalize_area (y : list R) (x : option (list R))
    : option (list R) :=
  area ← simpson y x;
  if Rneqb area 0 then Some (map (fun v => v / Rabs area) y)
  else Some (zeros_like y).

(** [normalize_spectrum(y, x, method)]. *)
Definition normalize_spectrum (y : list R) (x : option (list R))
    (method : string) : option (list R) :=
  if String.eqb method "min_max" then normalize_min_max y 1
  else if String.eqb method "area" then normalize_area y x
  else if String.eqb method "peak" then normalize_peak y None
  else if String.eqb method "vector" then Some (normalize_vector y)
  else if String.eqb method "none" then Some y
  else normalize_min_max y 1.

End Dispatch.

(** [get_available_normalization_methods()]. *)
Definition get_available_normalization_methods : list string :=
  ["min_max"; "area"; "peak"; "vector"; "none"]%string.

(** [get_normalization_suffix(method)]: the table, and ["_" + method] for
    a name it does not hold. *)
Definition get_normalization_suffix (method : string) : string :=
  if String.eqb method "min_max" then "_minmax"
  else if String.eqb method "area" then "_area"
  else if String.eqb method "peak" then "_peak"
  else if String.eqb method "vector" then "_vector"
  else if String.eqb method "none" then "_raw"
  else ("_" ++ method)%string.

(** [validate_normalization_method(method)]. *)
Definition validate_normalization_method (method : string) : bool :=
  existsb (String.eqb method) get_available_normalization_methods.

(** [generate_output_filename_with_suffix(base_filename, method,
    file_type)]. *)
Definition generate_output_filename_with_suffix
    (base_filename method file_type : string) : string :=
  (base_filename ++ get_normalization_suffix method ++ "." ++ file_type)%string.

End Normalizer.

(** ** Savitzky-Golay smoothing *)

Module Smoother.
Import Baseline.

Local Open Scope R_scope.

(** The window length and polynomial order that [apply_savitzky_golay]
    passes to the filter for an array of [n] samples. *)
Definition adjust_window (n window_length polyorder : Z) : Z * Z :=
  let window_length :=
    if (window_length mod 2 =? 0)%Z then (window_length + 1)%Z
    else window_length in
  let window_length :=
    if (window_length >=? n)%Z then
      let window_length := Z.min (n - 2) 11 in
      if (window_length mod 2 =? 0)%Z then (window_length - 1)%Z
      else window_length
    else window_length in
  let polyorder :=
    if (polyorder >=? window_length)%Z then (window_length - 1)%Z
    else polyorder in
  (window_length, polyorder).

Section Filter.

(** [scipy.signal.savgol_filter(y, window_length, polyorder)]; [None] is
    the exception it raises. *)
Variable savgol_filter : list R -> Z -> Z -> option (list R).

(** [apply_savitzky_golay(y, window_length, polyorder)]. *)
Definition apply_savitzky_golay (y : list R) (window_length polyorder : Z)
    : option (list R) :=
  let wp := adjust_window (Z.of_nat (length y)) window_length polyorder in
  y_filtered ← savgol_filter y wp.1 wp.2;
  lo ← np_min y_filtered;
  if Rltb lo 0 then
    let y_filtered := map (fun v => v - lo) y_filtered in
    hi ← np_max y_filtered;
    if Rltb 0 hi then Some (map (fun v => v / hi) y_filtered)
    else Some y_filtered
  else Some y_filtered.

End Filter.

End Smoother.

(** ** Peak widths *)

Module Widths.
Import Fitter.

Local Open Scope Q_scope.

(** [np.diff(x)]. *)
Definition diff (x : list Q) : list Q :=
  zip_with (fun a b => b - a) x (tail x).

(** [np.mean(np.diff(x))]; [None] stands for the NaN that the mean of an
    empty array is (fewer than two samples). *)
Definition mean_diff (x : list Q) : option Q :=
  match diff x with
  | [] => None
  | d => Some (Qsum d / Qlen d)
  end.

(** The body of the loop of [calculate_fwhm] once the peak position and
    the two interpolated positions are read. *)
Definition peak_bounds (x0 dx peak_pos left_ip right_ip : Q) : Q * Q :=
  let left_pos := x0 + left_ip * dx in
  let right_pos := x0 + right_ip * dx in
  let '(left_pos, right_pos) :=
    if Qltb right_pos left_pos then (right_pos, left_pos)
    else (left_pos, right_pos) in
  if Qltb peak_pos left_pos || Qltb right_pos peak_pos then
    let width := right_pos - left_pos in
    let center := peak_pos in
    (center - width / 2, center + width / 2)
  else (left_pos, right_pos).

(** The loop over [enumerate(peaks_indices)] from peak number [i] on;
    [None] is an [IndexError]. *)
Fixpoint positions_loop (x : list Q) (x0 dx : Q) (left_ips right_ips : list Q)
    (i : nat) (peaks_indices : list nat) : option (list (Q * Q)) :=
  match peaks_indices with
  | [] => Some []
  | peak_idx :: rest =>
    peak_pos ← x !! peak_idx;
    left_ip ← left_ips !! i;
    right_ip ← right_ips !! i;
    tl ← positions_loop x x0 dx left_ips right_ips (S i) rest;
    Some (peak_bounds x0 dx peak_pos left_ip right_ip :: tl)
  end.

(** The four arrays [scipy.signal.peak_widths] returns. *)
Record widths := mkWidths {
  widths_half : list Q;
  heights : list Q;
  left_ips : list Q;
  right_ips : list Q
}.

Section Fwhm.

(** [scipy.signal.peak_widths(y, peaks_indices, rel_height=0.5)]; [None]
    is the exception it raises. *)
Variable peak_widths : list Q -> list nat -> option widths.

(** [calculate_fwhm(x, y, peaks_indices)], returning [fwhm_values],
    [left_positions] and [right_positions]. *)
Definition calculate_fwhm (x y : list Q) (peaks_indices : list nat)
    : option (list Q * list Q * list Q) :=
  w ← peak_widths y peaks_indices;
  dx ← mean_diff x;
  let fwhm_values := map (fun width => Qabs (width * dx)) (widths_half w) in
  x0 ← x !! 0%nat;
  pos ← positions_loop x x0 dx (left_ips w) (right_ips w) 0 peaks_indices;
  Some (fwhm_values, map fst pos, map snd pos).

End Fwhm.

End Widths.

(** ** Regional summaries *)

Module Summary.
Import Regions Outliers.

Local Open Scope Q_scope.

(** The dictionary [spectral_regions] of the console summary of
    [batch_process]; the sweep ([spectral_regions_for_csv]) and
    [analyze_peak_detection_robustness] ([expected_regions]) use the same
    seven intervals in the same order. *)
Definition spectral_regions : list (string * (Q * Q)) :=
  [ ("ν₃(SiO₄)", (990, 1020)); ("ν₁(SiO₄)", (965, 985));
    ("ν₂(SiO₄)", (430, 450));
    ("Modo externo 1", (195, 210)); ("Modo externo 2", (210, 220));
    ("Modo externo 3", (220, 230)); ("Modo externo 4", (350, 365)) ]%string.

(** The mask [(Centro >= min_wave) & (Centro <= max_wave)]. *)
Definition closed_mask (r : Q * Q) (c : Q) : bool :=
  Qleb r.1 c && Qleb c r.2.

Definition region_data (all_results : dataframe) (r : Q * Q) : dataframe :=
  List.filter (fun e => closed_mask r (Centro e.2)) all_results.

(** [peaks_in_regions] after the loop over the dictionary. *)
Definition peaks_in_regions (all_results : dataframe) : nat :=
  fold_left (fun acc e => (acc + length (region_data all_results e.2))%nat)
            spectral_regions 0%nat.

(** [outside_peaks = total_peaks - peaks_in_regions], a Python integer. *)
Definition outside_peaks (all_results : dataframe) : Z :=
  (Z.of_nat (length all_results) - Z.of_nat (peaks_in_regions all_results))%Z.

(** [outside_percentage], guarded against an empty table. *)
Definition outside_percentage (all_results : dataframe) : Q :=
  if (0 <? length all_results)%nat
  then inject_Z (outside_peaks all_results)
       / inject_Z (Z.of_nat (length all_results)) * 100
  else 0.

(** The rows selected by the negated disjunction of the seven masks. *)
Definition unclassified_data (all_results : dataframe) : dataframe :=
  List.filter
    (fun e => negb (existsb (fun r => closed_mask r.2 (Centro e.2))
                            spectral_regions))
    all_results.

(** [peaks_in_expected_regions_pct] of
    [analyze_peak_detection_robustness]: the division is not guarded, and
    [None] is its [ZeroDivisionError]. *)
Definition peaks_in_expected_regions_pct (results_df : dataframe)
    : option Q :=
  if (length results_df =? 0)%nat then None
  else Some (inject_Z (Z.of_nat (peaks_in_regions results_df))
             / inject_Z (Z.of_nat (length results_df)) * 100).

(** The FWHM counts that [analyze_peak_detection_robustness] reports for
    a region with typical range [(typical_min, typical_max)]:
    [fwhm_within_range], [values_outside_typical], [values_below_typical]
    and [values_above_typical]. *)
Definition fwhm_within_range (region_peaks : dataframe) (t : Q * Q) : nat :=
  length (List.filter
            (fun e => Qleb t.1 (FWHM_Gauss e.2) && Qleb (FWHM_Gauss e.2) t.2)
            region_peaks).
Definition values_outside_typical (region_peaks : dataframe) (t : Q * Q)
    : Z :=
  (Z.of_nat (length region_peaks)
   - Z.of_nat (fwhm_within_range region_peaks t))%Z.
Definition values_below_typical (region_peaks : dataframe) (t : Q * Q)
    : nat :=
  length (List.filter (fun e => Qltb (FWHM_Gauss e.2) t.1) region_peaks).
Definition values_above_typical (region_peaks : dataframe) (t : Q * Q)
    : nat :=
  length (List.filter (fun e => Qltb t.2 (FWHM_Gauss e.2)) region_peaks).

(** [typical_fwhm_ranges], in the order of the regions. *)
Definition typical_fwhm_ranges : list (string * (Q * Q)) :=
  [ ("ν₃(SiO₄)", (8, 25)); ("ν₁(SiO₄)", (6, 20)); ("ν₂(SiO₄)", (15, 35));
    ("Modo externo 1", (10, 30)); ("Modo externo 2", (12, 32));
    ("Modo externo 3", (10, 28)); ("Modo externo 4", (15, 40)) ]%string.

Definition b2n (b : bool) : nat := if b then 1%nat else 0%nat.

(** The number of rows whose centre is exactly [v]. *)
Definition centres_at (v : Q) (all_results : dataframe) : nat :=
  length (List.filter (fun e => Qeq_bool (Centro e.2) v) all_results).

End Summary.

(** ** More example tables *)

Module OutlierExamples.
Import Outliers.

(** Eleven good fits of the nu3 region: ten of width 10 and one of
    width 11. *)
Definition eleven_table : dataframe :=
  [ (0, nu3_row 10 0.9); (1, nu3_row 10 0.9); (2, nu3_row 10 0.9);
    (3, nu3_row 10 0.9); (4, nu3_row 10 0.9); (5, nu3_row 10 0.9);
    (6, nu3_row 10 0.9); (7, nu3_row 10 0.9); (8, nu3_row 10 0.9);
    (9, nu3_row 10 0.9); (10, nu3_row 11 0.9) ]%nat.

End OutlierExamples.

(** ** Ranking of the combinations *)

Module Ranking.

Local Open Scope Q_scope.

(** The columns of a row of the regional comparison table that the
    per-region ranking reads, already numeric. *)
Record regional_row := mkRegional {
  Combination : string;
  FWHM_CV_num : Q;
  R2_num : Q;
  Centro_CV_num : Q;
  FWHM_num : Q
}.

Definition Score_Precision (r : regional_row) : Q := 1 - FWHM_CV_num r / 100.
Definition Score_Quality (r : regional_row) : Q := R2_num r.
Definition Score_Consistency (r : regional_row) : Q :=
  1 - Centro_CV_num r / 100.

Definition Score_Composto (r : regional_row) : Q :=
  Score_Precision r * 0.4 + Score_Quality r * 0.3
  + Score_Consistency r * 0.3.

(** [Series.idxmax()] followed by [.loc]: the first row with the largest
    key; [None] on an empty table. *)
Fixpoint idxmax (key : regional_row -> Q) (rows : list regional_row)
    : option regional_row :=
  match rows with
  | [] => None
  | r :: rest =>
    match idxmax key rest with
    | Some b => if Qltb (key r) (key b) then Some b else Some r
    | None => Some r
    end
  end.

(** [Series.idxmin()] followed by [.loc]. *)
Definition idxmin (key : regional_row -> Q) (rows : list regional_row)
    : option regional_row :=
  idxmax (fun r => - key r) rows.

(** The four answers of the interpretation of the spread between the
    methods: "MÍNIMO", "BAIXO", "MODERADO" and "ALTO". *)
Inductive impact := MINIMO | BAIXO | MODERADO | ALTO.

Definition impact_of (fwhm_range cv_range : Q) : impact :=
  if Qltb fwhm_range 0.01 && Qltb cv_range 1.0 then MINIMO
  else if Qltb fwhm_range 0.1 && Qltb cv_range 5.0 then BAIXO
  else if Qltb fwhm_range 0.5 && Qltb cv_range 10.0 then MODERADO
  else ALTO.

Definition impact_rank (i : impact) : nat :=
  match i with MINIMO => 0 | BAIXO => 1 | MODERADO => 2 | ALTO => 3 end.

(** One row is at least as good as another on the three criteria of the
    score and better on one of them. *)
Definition dominates (a b : regional_row) : Prop :=
  FWHM_CV_num a <= FWHM_CV_num b /\ R2_num b <= R2_num a /\
  Centro_CV_num a <= Centro_CV_num b /\
  (FWHM_CV_num a < FWHM_CV_num b \/ R2_num b < R2_num a \/
   Centro_CV_num a < Centro_CV_num b).

End Ranking.

(** ** Column names *)

Module Columns.

(** [sep in s] for a one-character separator. *)
Fixpoint contains (sep : ascii) (s : string) : bool :=
  match s with
  | String.EmptyString => false
  | String.String c r => Ascii.eqb c sep || contains sep r
  end.

(** [s.split(sep)] for a one-character separator: the pieces between the
    separators, empty pieces included; never the empty list. *)
Fixpoint split (sep : ascii) (s : string) : list string :=
  match s with
  | String.EmptyString => [String.EmptyString]
  | String.String c r =>
    if Ascii.eqb c sep then String.EmptyString :: split sep r
    else match split sep r with
         | h :: t => String.String c h :: t
         | [] => [String.String c String.EmptyString]
         end
  end.

(** The grain and the location that [process_file] reads off the name of
    a spectrum column; [default_location] is
    [config["data_format"]["default_location"]].  [None] is the
    [IndexError] of indexing the list of pieces. *)
Definition grain (column : string) : option string :=
  if contains "_" column then split "_" column !! 0%nat else Some column.

Definition location (column default_location : string) : option string :=
  if contains "_" column then split "_" column !! 1%nat
  else Some default_location.

End Columns.

(** * Properties *)

(** ** Comparisons *)

(** Linear arithmetic over the rationals and over the reals. *)
Ltac qlra := Lqa.lra.
Ltac rlra := Lra.lra.

Lemma Qleb_true (a b : Q) : Qleb a b = true <-> (a <= b)%Q.
Proof. unfold Qleb. apply Qle_bool_iff. Qed.

Lemma Qleb_false (a b : Q) : Qleb a b = false <-> (b < a)%Q.
Proof.
  unfold Qleb. split.
  - intros H. apply Qnot_le_lt. intros Hle.
    apply Qle_bool_iff in Hle. congruence.
  - intros H. destruct (Qle_bool a b) eqn:E; [|reflexivity].
    apply Qle_bool_iff in E. exfalso. exact (Qlt_not_le _ _ H E).
Qed.

Lemma Qltb_true (a b : Q) : Qltb a b = true <-> (a < b)%Q.
Proof. unfold Qltb. rewrite negb_true_iff. apply (Qleb_false b a). Qed.

Lemma Qltb_false (a b : Q) : Qltb a b = false <-> (b <= a)%Q.
Proof. unfold Qltb. rewrite negb_false_iff. apply (Qleb_true b a). Qed.

(** Turns every boolean comparison among the hypotheses into the order
    fact it stands for. *)
Ltac order_facts :=
  repeat match goal with
  | H : Qleb _ _ = true |- _ => apply Qleb_true in H
  | H : Qleb _ _ = false |- _ => apply Qleb_false in H
  | H : Qltb _ _ = true |- _ => apply Qltb_true in H
  | H : Qltb _ _ = false |- _ => apply Qltb_false in H
  | H : (_ && _) = true |- _ => apply andb_true_iff in H; destruct H
  | H : (_ || _) = false |- _ => apply orb_false_iff in H; destruct H
  end.

(** ** Region classifier *)

Section RegionFacts.
Import Regions.

Lemma in_region_closed (c lo hi : Q) :
  in_region c (mkRegion lo hi true) = true <-> (lo <= c /\ c <= hi)%Q.
Proof.
  unfold in_region, is_peak_in_region; simpl.
  rewrite andb_true_iff, !Qleb_true. tauto.
Qed.

Lemma in_region_half_open (c lo hi : Q) :
  in_region c (mkRegion lo hi false) = true <-> (lo <= c /\ c < hi)%Q.
Proof.
  unfold in_region, is_peak_in_region; simpl.
  rewrite andb_true_iff, Qleb_true, Qltb_true. tauto.
Qed.

Ltac region_facts :=
  repeat match goal with
  | H : in_region _ (mkRegion _ _ true) = true |- _ =>
    apply in_region_closed in H
  | H : in_region _ (mkRegion _ _ false) = true |- _ =>
    apply in_region_half_open in H
  end.

Ltac split_regions c :=
  destruct (in_region c (mkRegion 990 1020 true)) eqn:?;
  destruct (in_region c (mkRegion 965 985 true)) eqn:?;
  destruct (in_region c (mkRegion 430 450 true)) eqn:?;
  destruct (in_region c (mkRegion 195 210 false)) eqn:?;
  destruct (in_region c (mkRegion 210 220 false)) eqn:?;
  destruct (in_region c (mkRegion 220 230 false)) eqn:?;
  destruct (in_region c (mkRegion 350 365 true)) eqn:?.

(** No centre is accepted by two of the seven regions. *)
Lemma at_most_one_region (c : Q) : (length (matching_regions c) <= 1)%nat.
Proof.
  unfold matching_regions, get_zircon_spectral_regions. simpl.
  split_regions c; simpl; try lia; exfalso; region_facts; qlra.
Qed.

Lemma regions_disjoint (c : Q) (e1 e2 : string * region) :
  In e1 get_zircon_spectral_regions -> In e2 get_zircon_spectral_regions ->
  in_region c e1.2 = true -> in_region c e2.2 = true -> e1 = e2.
Proof.
  unfold get_zircon_spectral_regions. simpl.
  intros H1 H2 I1 I2.
  repeat (destruct H1 as [<-|H1]); try contradiction;
  repeat (destruct H2 as [<-|H2]); try contradiction;
  try reflexivity; exfalso; simpl in I1, I2; region_facts; qlra.
Qed.

(** Every centre is counted once: by its region, or as unclassified. *)
Lemma one_class_per_center (c : Q) :
  (list_sum (map (fun e => if in_region c e.2 then 1 else 0)
                 get_zircon_spectral_regions)
   + (if unclassified c then 1 else 0) = 1)%nat.
Proof.
  unfold unclassified, get_zircon_spectral_regions. simpl.
  split_regions c; simpl; try lia; exfalso; region_facts; qlra.
Qed.

Lemma region_count_cons (c : Q) (cs : list Q) (r : region) :
  region_count (c :: cs) r
  = ((if in_region c r then 1 else 0) + region_count cs r)%nat.
Proof. unfold region_count. simpl. destruct (in_region c r); reflexivity. Qed.

Lemma counts_add_up (centers : list Q) :
  (total_region_count centers + unclassified_count centers
   = length centers)%nat.
Proof.
  induction centers as [|c cs IH]; [reflexivity|].
  pose proof (one_class_per_center c) as Hc.
  unfold total_region_count, unclassified_count in *.
  unfold get_zircon_spectral_regions in *.
  cbn [map list_sum foldr snd] in *.
  rewrite !region_count_cons.
  cbn [List.filter length].
  destruct (unclassified c); cbn [length] in *; lia.
Qed.

End RegionFacts.

(** C6 (as amended).  Region classification is a partition: no centre
    passes the membership test of two of the seven regions, so over any
    list of centres the region counts plus the unclassified count equal the
    number of peaks.  The boundary values 210, 220 and 365 fall in exactly
    one region each (External modes 2, 3 and 4); 230 falls in none and is
    unclassified. *)
Theorem region_classification_partition :
  (forall c : Q, (length (Regions.matching_regions c) <= 1)%nat) /\
  (forall centers : list Q,
     (Regions.total_region_count centers + Regions.unclassified_count centers
      = length centers)%nat) /\
  Regions.matching_regions 210 = ["External mode 2"%string] /\
  Regions.matching_regions 220 = ["External mode 3"%string] /\
  Regions.matching_regions 365 = ["External mode 4"%string] /\
  Regions.matching_regions 230 = [] /\
  Regions.unclassified 230 = true.
Proof.
  split; [exact at_most_one_region|].
  split; [exact counts_add_up|].
  repeat split; reflexivity.
Qed.

(** C6, the claim as written fails at 230: the half-open interval
    [220, 230) excludes it and no other region contains it, so it maps to
    no region rather than to exactly one. *)
Lemma boundary_230_in_no_region :
  ~ (exists name : string, Regions.matching_regions 230 = [name]).
Proof. intros [name H]. vm_compute in H. discriminate H. Qed.

(** ** Radiation-damage classifier *)

Section DamageFacts.
Import Damage.

Lemma dose_formula (fwhm : Q) :
  (categorize_radiation_damage fwhm).2 = (-0.1402 + 0.07683 * fwhm)%Q.
Proof.
  unfold categorize_radiation_damage.
  destruct (Qleb fwhm 8), (Qleb fwhm 14.5), (Qleb fwhm 25); reflexivity.
Qed.

Lemma category_cases (fwhm : Q) :
  ((fwhm <= 8)%Q /\
   (categorize_radiation_damage fwhm).1 = "Baixo dano"%string) \/
  ((8 < fwhm)%Q /\ (fwhm <= 14.5)%Q /\
   (categorize_radiation_damage fwhm).1 = "Dano moderado"%string) \/
  ((14.5 < fwhm)%Q /\ (fwhm <= 25)%Q /\
   (categorize_radiation_damage fwhm).1 = "Alto dano"%string) \/
  ((25 < fwhm)%Q /\
   (categorize_radiation_damage fwhm).1 = "Quase amorfo"%string).
Proof.
  unfold categorize_radiation_damage.
  destruct (Qleb fwhm 8) eqn:E8; [order_facts; auto|].
  destruct (Qleb fwhm 14.5) eqn:E14; [order_facts; auto|].
  destruct (Qleb fwhm 25) eqn:E25; order_facts; auto 6.
Qed.

End DamageFacts.

(** C7.  The estimated dose [-0.1402 + 0.07683 * FWHM] is strictly
    increasing in FWHM, and each category boundary belongs to the lower
    category: FWHM = 8 is low damage ("Baixo dano"), 14.5 is moderate
    damage, 25 is high damage; more generally the category is low damage
    exactly for FWHM <= 8, moderate for 8 < FWHM <= 14.5, high for
    14.5 < FWHM <= 25 and near-amorphous above 25. *)
Theorem dose_strictly_increasing_boundaries_inclusive
    (fwhm1 fwhm2 : Q) (Hlt : (fwhm1 < fwhm2)%Q) :
  ((Damage.categorize_radiation_damage fwhm1).2
   < (Damage.categorize_radiation_damage fwhm2).2)%Q /\
  (forall fwhm : Q,
     (Damage.categorize_radiation_damage fwhm).2
     = (-0.1402 + 0.07683 * fwhm)%Q) /\
  Damage.categorize_radiation_damage 8
  = ("Baixo dano"%string, (-0.1402 + 0.07683 * 8)%Q) /\
  Damage.categorize_radiation_damage 14.5
  = ("Dano moderado"%string, (-0.1402 + 0.07683 * 14.5)%Q) /\
  Damage.categorize_radiation_damage 25
  = ("Alto dano"%string, (-0.1402 + 0.07683 * 25)%Q) /\
  (forall fwhm : Q,
     ((Damage.categorize_radiation_damage fwhm).1 = "Baixo dano"%string
      <-> (fwhm <= 8)%Q) /\
     ((Damage.categorize_radiation_damage fwhm).1 = "Dano moderado"%string
      <-> (8 < fwhm)%Q /\ (fwhm <= 14.5)%Q) /\
     ((Damage.categorize_radiation_damage fwhm).1 = "Alto dano"%string
      <-> (14.5 < fwhm)%Q /\ (fwhm <= 25)%Q) /\
     ((Damage.categorize_radiation_damage fwhm).1 = "Quase amorfo"%string
      <-> (25 < fwhm)%Q)).
Proof.
  split.
  { rewrite !dose_formula. qlra. }
  split; [exact dose_formula|].
  split; [reflexivity|]. split; [reflexivity|]. split; [reflexivity|].
  intros fwhm.
  destruct (category_cases fwhm) as [[H E]|[(H1 & H2 & E)|[(H1 & H2 & E)|[H E]]]];
    rewrite E; repeat split; intros; try discriminate; try qlra;
    try reflexivity;
    repeat match goal with H : _ /\ _ |- _ => destruct H end; qlra.
Qed.

Lemma dose_strictly_increasing_witness :
  (8 < 14.5)%Q /\
  ((Damage.categorize_radiation_damage 8).2
   < (Damage.categorize_radiation_damage 14.5).2)%Q.
Proof.
  split; [reflexivity|].
  apply (dose_strictly_increasing_boundaries_inclusive 8 14.5).
  reflexivity.
Defined.

(** ** Spectrum pre-conditioning *)

Section PreconditionFacts.
Import Precondition.

Lemma nan_to_num_finite (v : float64) : finite (nan_to_num v).
Proof. destruct v; simpl; eexists; reflexivity. Qed.

Lemma fmin_finite (a b : Q) :
  fmin (Fin a) (Fin b) = Fin (if Qltb b a then b else a).
Proof. unfold fmin; simpl. destruct (Qltb b a); reflexivity. Qed.

(** On finite elements [np.min] returns a finite lower bound. *)
Lemma fold_fmin_lower_bound (l : list float64) :
  Forall finite l ->
  forall q0 : Q, exists m : Q,
    fold_left fmin l (Fin q0) = Fin m /\ (m <= q0)%Q /\
    Forall (fun v => forall q, v = Fin q -> (m <= q)%Q) l.
Proof.
  induction 1 as [|v l [q ->] Hl IH]; intros q0.
  - exists q0. repeat split; [qlra | constructor].
  - cbn [fold_left]. rewrite fmin_finite.
    destruct (IH (if Qltb q q0 then q else q0)) as (m & Hm & Hle & Hall).
    exists m. split; [exact Hm|].
    destruct (Qltb q q0) eqn:E; order_facts.
    + split; [qlra|]. constructor; [|exact Hall].
      intros q' [= <-]. exact Hle.
    + split; [exact Hle|]. constructor; [|exact Hall].
      intros q' [= <-]. qlra.
Qed.

Lemma np_min_lower_bound (y : list float64) (m : float64) :
  Forall finite y -> np_min y = Some m ->
  exists qm : Q, m = Fin qm /\
    Forall (fun v => forall q, v = Fin q -> (qm <= q)%Q) y.
Proof.
  destruct y as [|v rest]; [discriminate|].
  intros Hfin [= <-]. inversion Hfin as [|? ? [q0 ->] Hrest]; subst.
  destruct (fold_fmin_lower_bound rest Hrest q0) as (qm & Hm & Hle & Hall).
  exists qm. split; [exact Hm|]. constructor; [|exact Hall].
  intros q [= <-]. exact Hle.
Qed.

Lemma no_negative_entry (y : list float64) :
  Forall finite y -> existsb (fun v => flt v (Fin 0)) y = false ->
  Forall finite_nonneg y.
Proof.
  induction 1 as [|v l [q ->] Hl IH]; simpl; intros E; [constructor|].
  apply orb_false_iff in E. destruct E as [E1 E2].
  constructor; [|auto]. exists q. split; [reflexivity|].
  order_facts. exact E1.
Qed.

Lemma shift_by_minimum (y : list float64) (qm : Q) :
  Forall finite y ->
  Forall (fun v => forall q, v = Fin q -> (qm <= q)%Q) y ->
  Forall finite_nonneg (map (fun v => fsub v (Fin qm)) y).
Proof.
  induction 1 as [|v l [q ->] Hl IH]; simpl; intros Hall; [constructor|].
  inversion Hall as [|? ? Hq Hrest]; subst.
  constructor; [|auto]. exists (q - qm)%Q. split; [reflexivity|].
  specialize (Hq q eq_refl). qlra.
Qed.

End PreconditionFacts.

(** C10.  Every column that passes the data-quality check reaches the
    baseline estimator pre-conditioned: NaN entries have been replaced by
    0 and, if some intensity was negative, the whole spectrum has been
    shifted by its (negative) minimum, otherwise it is left as it is; the
    array handed over has the length of the column, holds no NaN (every
    entry is finite) and is pointwise non-negative. *)
Theorem preconditioned_spectrum_finite_nonneg
    (y y' : list Precondition.float64)
    (Hpass : Precondition.precondition y = Some y') :
  length y' = length y /\ Forall Precondition.finite_nonneg y' /\
  Precondition.nan_to_num Precondition.NaN = Precondition.Fin 0 /\
  ((existsb (fun v => Precondition.flt v (Precondition.Fin 0))
            (map Precondition.nan_to_num y) = false /\
    y' = map Precondition.nan_to_num y) \/
   (exists m : Q,
      (m < 0)%Q /\
      Precondition.np_min (map Precondition.nan_to_num y)
      = Some (Precondition.Fin m) /\
      y' = map (fun v => Precondition.fsub (Precondition.nan_to_num v)
                                           (Precondition.Fin m)) y)).
Proof.
  unfold Precondition.precondition in Hpass.
  destruct (Precondition.invalid_data y); [discriminate|].
  assert (Hfin : Forall Precondition.finite (map Precondition.nan_to_num y)).
  { apply Forall_forall. intros v Hv. apply list_elem_of_In in Hv.
    apply in_map_iff in Hv.
    destruct Hv as (u & <- & _). apply nan_to_num_finite. }
  destruct (existsb _ _) eqn:Eneg.
  - destruct (Precondition.np_min _) as [m|] eqn:Em; [|discriminate].
    simpl in Hpass. injection Hpass as <-.
    destruct (np_min_lower_bound _ _ Hfin Em) as (qm & -> & Hlow).
    split; [now rewrite !length_map|].
    split; [apply shift_by_minimum; assumption|].
    split; [reflexivity|]. right. exists qm.
    split; [|split; [reflexivity | now rewrite map_map]].
    apply existsb_exists in Eneg. destruct Eneg as (v & Hv & Hneg).
    rewrite Forall_forall in Hfin, Hlow. apply list_elem_of_In in Hv.
    destruct (Hfin v Hv) as [q ->]. specialize (Hlow _ Hv q eq_refl).
    simpl in Hneg. apply Qltb_true in Hneg. qlra.
  - injection Hpass as <-. split; [now rewrite length_map|].
    split; [apply no_negative_entry; assumption|].
    split; [reflexivity|]. left. split; reflexivity.
Qed.

Lemma preconditioned_spectrum_witness :
  Precondition.precondition
    [Precondition.Fin 3; Precondition.NaN; Precondition.Fin (-2);
     Precondition.Fin 5]
  = Some [Precondition.Fin 5; Precondition.Fin 2; Precondition.Fin 0;
          Precondition.Fin 7] /\
  (length [Precondition.Fin 5; Precondition.Fin 2; Precondition.Fin 0;
           Precondition.Fin 7] = 4%nat /\
   Forall Precondition.finite_nonneg
     [Precondition.Fin 5; Precondition.Fin 2; Precondition.Fin 0;
      Precondition.Fin 7]).
Proof.
  split; [vm_compute; reflexivity|].
  destruct (preconditioned_spectrum_finite_nonneg
              [Precondition.Fin 3; Precondition.NaN; Precondition.Fin (-2);
               Precondition.Fin 5]
              [Precondition.Fin 5; Precondition.Fin 2; Precondition.Fin 0;
               Precondition.Fin 7]) as (Hlen & Hall & _).
  - vm_compute; reflexivity.
  - split; [exact Hlen | exact Hall].
Defined.

(** ** Gaussian fitter *)

Section FitterFacts.
Import Fitter.

Variable np_exp : Q -> Q.
Variable sqrt_2pi : Q.
Variable simpson : list Q -> list Q -> Q.
Variable curve_fit :
  list Q -> list Q -> params -> params -> params -> option params.

Lemma fold_Qmin_le (l : list Q) (a : Q) :
  (fold_left Qmin l a <= a)%Q /\
  Forall (fun v => (fold_left Qmin l a <= v)%Q) l.
Proof.
  revert a. induction l as [|b l IH]; intros a; simpl.
  - split; [qlra | constructor].
  - destruct (IH (Qmin a b)) as [H1 H2].
    pose proof (Q.le_min_l a b). pose proof (Q.le_min_r a b).
    split; [qlra|]. constructor; [qlra | exact H2].
Qed.

Lemma fold_Qmax_ge (l : list Q) (a : Q) :
  (a <= fold_left Qmax l a)%Q /\
  Forall (fun v => (v <= fold_left Qmax l a)%Q) l.
Proof.
  revert a. induction l as [|b l IH]; intros a; simpl.
  - split; [qlra | constructor].
  - destruct (IH (Qmax a b)) as [H1 H2].
    pose proof (Q.le_max_l a b). pose proof (Q.le_max_r a b).
    split; [qlra|]. constructor; [qlra | exact H2].
Qed.

(** [min(x)] and [max(x)] bound every sample. *)
Lemma seq_min_max_bounds (x : list Q) :
  Forall (fun v => (seq_min 0 x <= v)%Q /\ (v <= seq_max 0 x)%Q) x.
Proof.
  destruct x as [|a l]; [constructor|]. simpl.
  destruct (fold_Qmin_le l a) as [Hn1 Hn2].
  destruct (fold_Qmax_ge l a) as [Hx1 Hx2].
  constructor; [split; assumption|].
  rewrite Forall_forall in *. intros v Hv. split; auto.
Qed.

(** The loop runs every peak through [fit_peak], whatever happened to the
    peaks before it, and appends the rows in order. *)
Lemma fit_loop_outcomes (x y lefts rights : list Q) (peaks : list nat) :
  forall (i : nat) (acc : list fit_result),
  Forall (fun p => (p < length x)%nat /\ (p < length y)%nat) peaks ->
  (i + length peaks <= length lefts)%nat ->
  (i + length peaks <= length rights)%nat ->
  exists outcomes : list (option fit_result),
    fit_loop np_exp sqrt_2pi simpson curve_fit x y lefts rights i peaks acc
    = Some (acc ++ omap (fun o => o) outcomes) /\
    length outcomes = length peaks /\
    forall (k p : nat), peaks !! k = Some p ->
      exists o, outcomes !! k = Some o /\
        fit_peak np_exp sqrt_2pi simpson curve_fit x y lefts rights (i + k) p
        = Some o.
Proof.
  induction peaks as [|p rest IH]; intros i acc Hidx Hl Hr.
  - exists []. simpl. rewrite app_nil_r. repeat split. intros k p' Hk.
    rewrite lookup_nil in Hk. discriminate.
  - inversion Hidx as [|? ? [Hpx Hpy] Hrest]; subst. simpl in Hl, Hr.
    destruct (lookup_lt_is_Some_2 x p Hpx) as [xp Hxp].
    destruct (lookup_lt_is_Some_2 y p Hpy) as [yp Hyp].
    destruct (lookup_lt_is_Some_2 lefts i ltac:(lia)) as [lp Hlp].
    destruct (lookup_lt_is_Some_2 rights i ltac:(lia)) as [rp Hrp].
    assert (Hsome : exists o,
      fit_peak np_exp sqrt_2pi simpson curve_fit x y lefts rights i p
      = Some o).
    { unfold fit_peak. rewrite Hxp, Hyp, Hlp, Hrp. simpl.
      destruct (_ <? 5)%nat; [eauto|].
      destruct (curve_fit _ _ _ _ _); eauto. }
    destruct Hsome as [o Ho].
    cbn [fit_loop]. rewrite Ho. cbn [mbind option_bind].
    destruct (IH (S i)
                (match o with Some r => acc ++ [r] | None => acc end)
                Hrest ltac:(lia) ltac:(lia)) as (outs & Hrun & Hlen & Hout).
    exists (o :: outs). split; [|split].
    + rewrite Hrun. f_equal. destruct o; simpl; [|reflexivity].
      now rewrite <- app_assoc.
    + simpl. now rewrite Hlen.
    + intros [|k] p' Hk; simpl in Hk.
      * injection Hk as <-. exists o. rewrite Nat.add_0_r. split; [reflexivity|exact Ho].
      * destruct (Hout k p' Hk) as (o' & Ho' & Hfit).
        exists o'. split; [exact Ho'|]. now rewrite Nat.add_succ_r.
Qed.

(** C9.  For well-formed arguments (peak indices inside the spectrum, one
    pair of half-maximum positions per peak) the fitter returns, and its
    rows are the per-peak outcomes in order, each peak giving at most one
    row.  For every peak the fit window is
    [leftHalfMax - 0.2*width, rightHalfMax + 0.2*width] clamped to
    [min(x), max(x)]; a peak gives a row only if at least 5 samples lie in
    that window and the optimizer returned, the row then carrying that
    window as its fit range; a peak with fewer than 5 samples in the
    window, or whose fit raised, gives no row, and the peaks after it are
    still processed. *)
Theorem fit_window_and_skips
    (x y : list Q) (peaks : list nat) (lefts rights : list Q)
    (Hidx : Forall (fun p => (p < length x)%nat /\ (p < length y)%nat) peaks)
    (Hl : length lefts = length peaks)
    (Hr : length rights = length peaks) :
  Forall (fun v => (seq_min 0 x <= v)%Q /\ (v <= seq_max 0 x)%Q) x /\
  exists outcomes : list (option fit_result),
    fit_gaussian_profiles np_exp sqrt_2pi simpson curve_fit
                          x y peaks lefts rights
    = Some (omap (fun o => o) outcomes) /\
    length outcomes = length peaks /\
    forall (i peak_idx : nat) (x_peak y_peak left_pos right_pos : Q),
      peaks !! i = Some peak_idx ->
      x !! peak_idx = Some x_peak -> y !! peak_idx = Some y_peak ->
      lefts !! i = Some left_pos -> rights !! i = Some right_pos ->
      let width := (right_pos - left_pos)%Q in
      let lo := Qmax (seq_min 0 x) (left_pos - 0.2 * width) in
      let hi := Qmin (seq_max 0 x) (right_pos + 0.2 * width) in
      let in_window := fun v : Q => Qleb lo v && Qleb v hi in
      let x_fit := List.filter in_window x in
      let y_fit :=
        map snd (List.filter (fun xy : Q * Q => in_window xy.1)
                             (combine x y)) in
      let fit :=
        curve_fit x_fit y_fit
          (mkParams y_peak x_peak (width / 2.355) 0)
          (mkParams 0 (seq_min 0 x_fit) 0 (-0.1))
          (mkParams (Qmin 1 (2 * y_peak)) (seq_max 0 x_fit) width 0.1) in
      match outcomes !! i with
      | Some (Some r) =>
        (5 <= length x_fit)%nat /\ fit = Some (fit_params r) /\
        fit_range r = (lo, hi)
      | Some None => (length x_fit < 5)%nat \/ fit = None
      | None => False
      end.
Proof.
  split; [apply seq_min_max_bounds|].
  destruct (fit_loop_outcomes x y lefts rights peaks 0 [] Hidx
              ltac:(lia) ltac:(lia)) as (outs & Hrun & Hlen & Hout).
  exists outs. split; [exact Hrun|]. split; [exact Hlen|].
  intros i p xp yp lp rp Hp Hxp Hyp Hlp Hrp.
  destruct (Hout i p Hp) as (o & Ho & Hfit).
  cbn zeta. rewrite Ho. simpl in Hfit.
  unfold fit_peak in Hfit. rewrite Hxp, Hyp, Hlp, Hrp in Hfit.
  cbn [mbind option_bind] in Hfit. unfold window, fit_mask in Hfit.
  cbn [fst snd] in Hfit.
  destruct (_ <? 5)%nat eqn:E5 in Hfit.
  - injection Hfit as <-. left. apply Nat.ltb_lt in E5. exact E5.
  - apply Nat.ltb_ge in E5.
    destruct (curve_fit _ _ _ _ _) as [popt|] eqn:Efit in Hfit;
      injection Hfit as <-.
    + split; [exact E5|]. split; [exact Efit | reflexivity].
    + right. exact Efit.
Qed.

End FitterFacts.

(** ** Combinatorial sweep *)

Section SweepFacts.
Import Sweep.

Variable glob_csv : nat -> list string.
Variable process_file : string -> store -> nat -> file_result.
Variable write_outputs : string -> list Outliers.peak_row -> bool.
Variable write_comparative_reports : list summary_entry -> report_outcome.

(** The copy is a new top-level dictionary; the two method assignments
    land in the dictionaries it shares with the caller's configuration. *)
Lemma make_test_config_store (h : store) (config lb ln : nat) (b n : string) :
  well_formed_config h config lb ln ->
  exists (h' : store) (test_config : nat),
    make_test_config h config b n = Some (h', test_config) /\
    well_formed_config h' config lb ln /\
    h' !! config = h !! config /\
    getitem h' lb "method" = Some (VStr b) /\
    getitem h' ln "method" = Some (VStr n).
Proof.
  intros (Hb & Hn & [db Hdb] & [dn Hdn] & Hbn & Hbc & Hnc).
  unfold getitem in Hb, Hn.
  destruct (h !! config) as [d|] eqn:Hd; [|discriminate].
  simpl in Hb, Hn.
  set (c' := fresh (dom h)).
  assert (Hfresh : h !! c' = None).
  { apply not_elem_of_dom. apply is_fresh. }
  assert (c' <> config) by (intros E; rewrite E in Hfresh; congruence).
  assert (c' <> lb) by (intros E; rewrite E in Hfresh; congruence).
  assert (c' <> ln) by (intros E; rewrite E in Hfresh; congruence).
  unfold make_test_config, dict_copy. rewrite Hd. cbn [mbind option_bind].
  fold c'.
  unfold setitem2, getitem, setitem.
  repeat (simplify_map_eq; cbn [mbind option_bind]).
  eexists _, _. split; [reflexivity|].
  unfold well_formed_config, getitem.
  simplify_map_eq. cbn [mbind option_bind]. simplify_map_eq.
  repeat split; eauto.
Qed.

Lemma file_pass_log (h : store) (test_config : nat) (files : list string) :
  forall (acc : list Outliers.peak_row * list log_record),
    failed_combinations
      (fold_left (file_pass process_file h test_config) files acc).2
    = failed_combinations acc.2.
Proof.
  induction files as [|f files IH]; intros [rows log]; [reflexivity|].
  cbn [fold_left]. rewrite IH. unfold file_pass.
  destruct (process_file f h test_config) as [| |[|r rs]]; cbn [snd];
    unfold failed_combinations; rewrite omap_app; simpl;
    now rewrite app_nil_r.
Qed.

(** The [try] block either appends one entry for the pair and logs no
    failure, or appends nothing and logs exactly one failure naming it. *)
Lemma try_combination_outcome (h : store) (test_config count : nat)
    (b n : string) (log : list log_record) :
  let r := try_combination glob_csv process_file write_outputs
                           h test_config count b n log in
  (exists e, r.1 = Some e /\
             Combination e = combination_name b n /\
             Baseline_Method e = b /\ Normalization_Method e = n /\
             (0 < Total_Peaks e)%nat /\
             failed_combinations r.2 = failed_combinations log) \/
  (r.1 = None /\
   failed_combinations r.2
   = failed_combinations log ++ [combination_name b n]).
Proof.
  unfold try_combination.
  destruct (glob_csv count) as [|f files] eqn:Eg.
  { right. cbn [fst snd]. split; [reflexivity|].
    unfold failed_combinations. now rewrite omap_app. }
  pose proof (file_pass_log h test_config (f :: files) ([], log)) as Hlog.
  destruct (fold_left _ (f :: files) _) as [[|r rs] log'] eqn:Ef;
    cbn [snd] in Hlog.
  { right. cbn [fst snd]. split; [reflexivity|].
    unfold failed_combinations in *. rewrite omap_app, Hlog. reflexivity. }
  destruct (write_outputs _ _).
  - left. eexists. cbn [fst snd]. split; [reflexivity|].
    cbn. repeat split; [lia | exact Hlog].
  - right. cbn [fst snd]. split; [reflexivity|].
    unfold failed_combinations in *. rewrite omap_app, Hlog. reflexivity.
Qed.

Lemma combination_pass_outcome (config lb ln : nat) (st : sweep_state)
    (b n : string) :
  well_formed_config (st_store st) config lb ln ->
  exists st' : sweep_state,
    combination_pass glob_csv process_file write_outputs config st b n
    = Some st' /\
    well_formed_config (st_store st') config lb ln /\
    st_store st' !! config = st_store st !! config /\
    getitem (st_store st') lb "method" = Some (VStr b) /\
    getitem (st_store st') ln "method" = Some (VStr n) /\
    (Forall entry_ok (combination_summary st) ->
     Forall entry_ok (combination_summary st')) /\
    map Combination (combination_summary st')
      ++ failed_combinations (st_log st')
    ≡ₚ (map Combination (combination_summary st)
          ++ failed_combinations (st_log st)) ++ [combination_name b n].
Proof.
  intros Hwf.
  destruct (make_test_config_store _ _ _ _ b n Hwf)
    as (h' & tc & Hmk & Hwf' & Hcfg & Hlb & Hln).
  unfold combination_pass. rewrite Hmk. cbn [mbind option_bind].
  pose proof (try_combination_outcome h' tc (S (combination_count st)) b n
                (st_log st ++ [CombinationStart (S (combination_count st))
                                                (combination_name b n)]))
    as Hout.
  destruct (try_combination _ _ _ _ _ _ _ _ _) as [entry log].
  cbn [fst snd] in Hout.
  assert (Hstart : failed_combinations
            (st_log st ++ [CombinationStart (S (combination_count st))
                                            (combination_name b n)])
          = failed_combinations (st_log st)).
  { unfold failed_combinations. rewrite omap_app. simpl.
    now rewrite app_nil_r. }
  rewrite Hstart in Hout.
  eexists. split; [reflexivity|]. cbn [st_store combination_summary st_log].
  do 4 (split; [assumption|]).
  destruct Hout as [(e & -> & Hname & Hbm & Hnm & Hpos & Hlog)|[-> Hlog]].
  - split.
    + intros Hall. apply Forall_app. split; [exact Hall|].
      constructor; [|constructor]. split; [exact Hpos|].
      now rewrite Hbm, Hnm.
    + rewrite Hlog, map_app. cbn [map]. rewrite Hname.
      rewrite <- !app_assoc. apply Permutation_app_head.
      apply Permutation_app_comm.
  - split; [auto|]. rewrite Hlog. now rewrite app_assoc.
Qed.

(** The loop over the pairs runs to its end whatever each pair yields. *)
Lemma sweep_fold (config lb ln : nat) (cs : list (string * string)) :
  forall st : sweep_state,
  well_formed_config (st_store st) config lb ln ->
  exists st' : sweep_state,
    fold_left
      (fun st bn =>
         st ← st;
         combination_pass glob_csv process_file write_outputs config st
                          bn.1 bn.2) cs (Some st) = Some st' /\
    well_formed_config (st_store st') config lb ln /\
    st_store st' !! config = st_store st !! config /\
    (forall b n, last cs = Some (b, n) ->
       getitem (st_store st') lb "method" = Some (VStr b) /\
       getitem (st_store st') ln "method" = Some (VStr n)) /\
    (Forall entry_ok (combination_summary st) ->
     Forall entry_ok (combination_summary st')) /\
    map Combination (combination_summary st')
      ++ failed_combinations (st_log st')
    ≡ₚ (map Combination (combination_summary st)
          ++ failed_combinations (st_log st)) ++ combination_names cs.
Proof.
  induction cs as [|[b n] cs IH]; intros st Hwf.
  - exists st. cbn [fold_left combination_names map]. rewrite app_nil_r.
    split; [reflexivity|]. split; [exact Hwf|]. split; [reflexivity|].
    split; [intros b n Hl; discriminate Hl|]. split; [auto|]. reflexivity.
  - destruct (combination_pass_outcome config lb ln st b n Hwf)
      as (st1 & Hpass & Hwf1 & Hcfg1 & Hlb1 & Hln1 & Hok1 & Hperm1).
    destruct (IH st1 Hwf1)
      as (st' & Hrun & Hwf' & Hcfg' & Hlast & Hok' & Hperm').
    exists st'. cbn [fold_left mbind option_bind fst snd].
    rewrite Hpass. split; [exact Hrun|]. split; [exact Hwf'|].
    split; [congruence|]. split; [|split; [auto|]].
    + intros b' n' Hl. destruct cs as [|bn cs'].
      * injection Hl as <- <-. cbn [fold_left] in Hrun.
        injection Hrun as <-. auto.
      * apply Hlast. exact Hl.
    + rewrite Hperm', Hperm1. unfold combination_names. cbn [map fst snd].
      rewrite <- !app_assoc. reflexivity.
Qed.

Lemma names_distinct : NoDup (combination_names combinations).
Proof. apply (bool_decide_unpack _). vm_compute. reflexivity. Qed.

(** C5.  With at least one CSV file at the start, the loop of the sweep
    over the 3 x 4 method pairs runs to its end whatever the individual
    pairs yield (no files, no peaks, or an error while saving), and at its
    end every one of the 12 pairs is accounted for exactly once: either by
    its entry in the comparative summary (which then has at least one
    peak) or by a skipped/failed record in the log naming it.  So the
    summary holds 12 entries, or fewer with each missing pair logged as
    failed.  What the call hands back is decided after the loop: [None]
    when no pair succeeded; otherwise the summary if the report stage
    completes, while a report stage that raises or gives up leaves the
    records of the loop as they are. *)
Theorem sweep_records_every_combination
    (h : store) (config lb ln : nat)
    (Hwf : well_formed_config h config lb ln)
    (Hfiles : glob_csv 0 <> []) :
  exists (st : sweep_state) (ret : call_result),
    test_all_baseline_normalization_combinations
      glob_csv process_file write_outputs write_comparative_reports h config
    = Some (st, ret) /\
    map Combination (combination_summary st)
      ++ failed_combinations (st_log st)
    ≡ₚ combination_names combinations /\
    NoDup (combination_names combinations) /\
    (length (combination_summary st)
     + length (failed_combinations (st_log st)) = 12)%nat /\
    Forall entry_ok (combination_summary st) /\
    (combination_summary st = [] -> ret = Returned None) /\
    (combination_summary st <> [] ->
     ret = match write_comparative_reports (combination_summary st) with
           | ReportRaises => Raised
           | ReportReturnsNone => Returned None
           | ReportWritten => Returned (Some (combination_summary st))
           end) /\
    (forall summary, ret = Returned (Some summary) ->
       summary = combination_summary st /\
       (length summary
        + length (failed_combinations (st_log st)) = 12)%nat).
Proof.
  unfold test_all_baseline_normalization_combinations, sweep_loop.
  destruct (glob_csv 0) as [|f files]; [contradiction|].
  destruct (sweep_fold config lb ln combinations (mkState h [] [] 0) Hwf)
    as (st & Hrun & _ & _ & _ & Hok & Hperm).
  rewrite Hrun. cbn [mbind option_bind].
  cbn [combination_summary st_log map app failed_combinations omap] in Hperm.
  assert (Hcount : (length (combination_summary st)
                    + length (failed_combinations (st_log st)) = 12)%nat).
  { apply Permutation_length in Hperm.
    rewrite length_app, length_map in Hperm. exact Hperm. }
  exists st.
  destruct (combination_summary st) as [|e es] eqn:Es.
  - eexists. split; [reflexivity|].
    split; [exact Hperm|]. split; [exact names_distinct|].
    split; [exact Hcount|]. split; [constructor|].
    split; [reflexivity|]. split; [congruence|].
    intros summary Hs. discriminate Hs.
  - destruct (write_comparative_reports (e :: es));
      (eexists; split; [reflexivity|]);
      (split; [exact Hperm|]); (split; [exact names_distinct|]);
      (split; [exact Hcount|]); (split; [apply Hok; constructor|]);
      (split; [discriminate|]); (split; [reflexivity|]);
      intros summary Hs; try discriminate Hs.
    injection Hs as <-. split; [reflexivity|exact Hcount].
Qed.

(** C4, the code at work.  The per-combination configuration is a shallow
    copy, so the two method assignments reach the dictionaries of the
    caller's configuration: once the sweep has run, the caller's
    [baseline_correction] group reads "spline" and its [normalization]
    group reads "vector" (the last pair tried), whatever they read before.
    Only the top-level dictionary of the caller, and with it
    [output_dir], is left as it was. *)
Theorem sweep_overwrites_caller_methods
    (h : store) (config lb ln : nat)
    (Hwf : well_formed_config h config lb ln)
    (Hfiles : glob_csv 0 <> []) :
  exists (st : sweep_state) (ret : call_result),
    test_all_baseline_normalization_combinations
      glob_csv process_file write_outputs write_comparative_reports h config
    = Some (st, ret) /\
    getitem (st_store st) config "baseline_correction" = Some (VRef lb) /\
    getitem (st_store st) lb "method" = Some (VStr "spline") /\
    getitem (st_store st) config "normalization" = Some (VRef ln) /\
    getitem (st_store st) ln "method" = Some (VStr "vector") /\
    st_store st !! config = h !! config.
Proof.
  unfold test_all_baseline_normalization_combinations, sweep_loop.
  destruct (glob_csv 0) as [|f files]; [contradiction|].
  destruct (sweep_fold config lb ln combinations (mkState h [] [] 0) Hwf)
    as (st & Hrun & Hwf' & Hcfg & Hlast & _ & _).
  rewrite Hrun. cbn [mbind option_bind].
  destruct (Hlast "spline"%string "vector"%string eq_refl) as [Hb Hn].
  destruct Hwf' as (Hgb & Hgn & _).
  exists st.
  destruct (combination_summary st);
    [|destruct (write_comparative_reports _)]; eexists;
    (split; [reflexivity|]); repeat split; assumption.
Qed.

End SweepFacts.

Lemma default_config_well_formed :
  Sweep.well_formed_config Sweep.default_config 0 2 1.
Proof.
  unfold Sweep.well_formed_config.
  repeat split; try reflexivity; try (eexists; reflexivity); discriminate.
Qed.

(** The example run: the four pairs with the spline baseline end in the
    summary, the other eight in the log as failed, and the summary is
    returned once the reports are written. *)
Lemma sweep_records_every_combination_witness :
  (fun _ : nat => ["sample.csv"%string]) 0%nat <> [] /\
  exists st ret,
    Sweep.test_all_baseline_normalization_combinations
      (fun _ => ["sample.csv"%string])
      Sweep.example_process_file (fun _ _ => true)
      (fun _ => Sweep.ReportWritten)
      Sweep.default_config 0 = Some (st, ret) /\
    map Sweep.Combination (Sweep.combination_summary st)
    = ["Spline_Min_max"; "Spline_Area"; "Spline_Peak";
       "Spline_Vector"]%string /\
    Sweep.failed_combinations (Sweep.st_log st)
    = ["Airpls_Min_max"; "Airpls_Area"; "Airpls_Peak"; "Airpls_Vector";
       "Polynomial_Min_max"; "Polynomial_Area"; "Polynomial_Peak";
       "Polynomial_Vector"]%string /\
    (length (Sweep.combination_summary st)
     + length (Sweep.failed_combinations (Sweep.st_log st)) = 12)%nat /\
    ret = Sweep.Returned (Some (Sweep.combination_summary st)).
Proof.
  split; [discriminate|].
  destruct (sweep_records_every_combination
              (fun _ => ["sample.csv"%string])
              Sweep.example_process_file (fun _ _ => true)
              (fun _ => Sweep.ReportWritten)
              Sweep.default_config 0 2 1 default_config_well_formed
              ltac:(discriminate))
    as (st & ret & Hrun & _ & _ & Hcount & _ & _ & Hret & _).
  assert (Hnames :
    (fun r => (map Sweep.Combination (Sweep.combination_summary r.1),
               Sweep.failed_combinations (Sweep.st_log r.1)))
      <$> Sweep.test_all_baseline_normalization_combinations
            (fun _ => ["sample.csv"%string])
            Sweep.example_process_file (fun _ _ => true)
            (fun _ => Sweep.ReportWritten)
            Sweep.default_config 0
    = Some (["Spline_Min_max"; "Spline_Area"; "Spline_Peak";
             "Spline_Vector"]%string,
            ["Airpls_Min_max"; "Airpls_Area"; "Airpls_Peak";
             "Airpls_Vector"; "Polynomial_Min_max"; "Polynomial_Area";
             "Polynomial_Peak"; "Polynomial_Vector"]%string))
    by (vm_compute; reflexivity).
  rewrite Hrun in Hnames. cbn [fmap option_fmap option_map fst] in Hnames.
  apply (inj Some) in Hnames.
  assert (Hs : map Sweep.Combination (Sweep.combination_summary st)
               = ["Spline_Min_max"; "Spline_Area"; "Spline_Peak";
                  "Spline_Vector"]%string) by congruence.
  assert (Hf : Sweep.failed_combinations (Sweep.st_log st)
               = ["Airpls_Min_max"; "Airpls_Area"; "Airpls_Peak";
                  "Airpls_Vector"; "Polynomial_Min_max"; "Polynomial_Area";
                  "Polynomial_Peak"; "Polynomial_Vector"]%string)
    by congruence.
  exists st, ret. split; [exact Hrun|]. split; [exact Hs|].
  split; [exact Hf|]. split; [exact Hcount|].
  apply Hret. intros E. rewrite E in Hs. discriminate Hs.
Defined.

Lemma sweep_overwrites_caller_methods_witness :
  Sweep.getitem Sweep.default_config 1 "method"
  = Some (Sweep.VStr "min_max") /\
  exists st ret,
    Sweep.test_all_baseline_normalization_combinations
      (fun _ => ["sample.csv"%string])
      (fun _ _ _ => Sweep.ReturnsNone) (fun _ _ => true)
      (fun _ => Sweep.ReportWritten)
      Sweep.default_config 0 = Some (st, ret) /\
    Sweep.getitem (Sweep.st_store st) 1 "method"
    = Some (Sweep.VStr "vector").
Proof.
  split; [reflexivity|].
  destruct (sweep_overwrites_caller_methods
              (fun _ => ["sample.csv"%string])
      (fun _ _ _ => Sweep.ReturnsNone) (fun _ _ => true)
              (fun _ => Sweep.ReportWritten)
              Sweep.default_config 0 2 1 default_config_well_formed
              ltac:(discriminate))
    as (st & ret & Hrun & _ & _ & _ & Hn & _).
  exists st, ret. split; assumption.
Defined.


(** ** Witness for the fitter *)

Lemma fit_window_and_skips_witness :
  (Forall (fun p => (p < 10)%nat /\ (p < 10)%nat) [2; 7]%nat /\
   length [0.5; 6.9]%Q = 2%nat /\ length [5; 7.1]%Q = 2%nat) /\
  exists outcomes : list (option Fitter.fit_result),
    Fitter.fit_gaussian_profiles
      (fun _ => 1%Q) 2.5%Q (fun _ _ => 0%Q)
      (fun _ _ p0 _ _ => Some p0)
      [0; 1; 2; 3; 4; 5; 6; 7; 8; 9]%Q
      [0; 0.2; 1; 0.2; 0; 0; 0.1; 0.5; 0.1; 0]%Q
      [2; 7]%nat [0.5; 6.9]%Q [5; 7.1]%Q
    = Some (omap (fun o => o) outcomes) /\
    length outcomes = 2%nat.
Proof.
  split.
  { split; [repeat constructor|]. split; reflexivity. }
  destruct (fit_window_and_skips
              (fun _ => 1%Q) 2.5%Q (fun _ _ => 0%Q)
              (fun _ _ p0 _ _ => Some p0)
              [0; 1; 2; 3; 4; 5; 6; 7; 8; 9]%Q
              [0; 0.2; 1; 0.2; 0; 0; 0.1; 0.5; 0.1; 0]%Q
              [2; 7]%nat [0.5; 6.9]%Q [5; 7.1]%Q)
    as (_ & outcomes & Hrun & Hlen & _).
  - repeat constructor.
  - reflexivity.
  - reflexivity.
  - exists outcomes. split; assumption.
Defined.

(** ** Outlier detector *)

Section OutlierFacts.
Local Set Warnings "-clear-no-such-hyp".
Import Regions Outliers.

Implicit Types (df data cleaned : dataframe) (l : nat) (row : peak_row).

Lemma elem_of_filter_bool {A} (p : A -> bool) (xs : list A) (x : A) :
  x ∈ List.filter p xs <-> x ∈ xs /\ p x = true.
Proof. rewrite !list_elem_of_In. apply filter_In. Qed.

Lemma elem_of_index df l : l ∈ index df <-> exists row, (l, row) ∈ df.
Proof.
  unfold index. rewrite list_elem_of_fmap. split.
  - intros ([l' row] & -> & H). eauto.
  - intros [row H]. exists (l, row). auto.
Qed.

Lemma elem_of_index_where (p : peak_row -> bool) data l :
  l ∈ index_where p data <-> exists row, (l, row) ∈ data /\ p row = true.
Proof.
  unfold index_where. rewrite elem_of_index. split.
  - intros [row H]. apply elem_of_filter_bool in H. eauto.
  - intros (row & H1 & H2). exists row. apply elem_of_filter_bool. auto.
Qed.

Lemma index_where_subseteq (p : peak_row -> bool) data l :
  l ∈ index_where p data -> l ∈ index data.
Proof.
  rewrite elem_of_index_where, elem_of_index. intros (row & H & _). eauto.
Qed.

(** With unique labels, a label names one row. *)
Lemma unique_row df l row row' :
  NoDup (index df) -> (l, row) ∈ df -> (l, row') ∈ df -> row = row'.
Proof.
  unfold index. induction df as [|[l0 r0] df IH]; simpl; intros Hnd H1 H2.
  - inversion H1.
  - apply NoDup_cons in Hnd. destruct Hnd as [Hnotin Hnd].
    apply elem_of_cons in H1. apply elem_of_cons in H2.
    destruct H1 as [E1|H1], H2 as [E2|H2].
    + congruence.
    + inversion E1; subst. exfalso. apply Hnotin.
      apply list_elem_of_fmap. eexists (_, row'). split; [reflexivity|exact H2].
    + inversion E2; subst. exfalso. apply Hnotin.
      apply list_elem_of_fmap. eexists (_, row). split; [reflexivity|exact H1].
    + auto.
Qed.

Lemma elem_of_region_data df (r : region) l row :
  (l, row) ∈ region_data_of df r
  <-> (l, row) ∈ df /\ in_region (Centro row) r = true.
Proof. unfold region_data_of. rewrite elem_of_filter_bool. reflexivity. Qed.

Lemma iqr_subseteq data l :
  l ∈ iqr_outliers_indices data -> l ∈ index data.
Proof.
  unfold iqr_outliers_indices. destruct (4 <=? _)%nat.
  - apply index_where_subseteq.
  - intros H. inversion H.
Qed.

Lemma z_subseteq data l :
  l ∈ z_outliers_indices data -> l ∈ index data.
Proof.
  unfold z_outliers_indices. destruct (_ && _).
  - apply index_where_subseteq.
  - intros H. inversion H.
Qed.

Lemma elem_of_region_outliers data l :
  l ∈ region_outliers data
  <-> l ∈ poor_fit_indices data \/ l ∈ iqr_outliers_indices data
      \/ l ∈ z_outliers_indices data \/ l ∈ extreme_fwhm_indices data.
Proof. unfold region_outliers. set_solver. Qed.

Lemma region_outliers_subseteq data l :
  l ∈ region_outliers data -> l ∈ index data.
Proof.
  rewrite elem_of_region_outliers.
  intros [H|[H|[H|H]]];
    eauto using index_where_subseteq, iqr_subseteq, z_subseteq.
Qed.

(** A label flagged in a region names a row of that region. *)
Lemma flagged_row df (r : region) l :
  l ∈ region_outliers (region_data_of df r) ->
  exists row, (l, row) ∈ df /\ in_region (Centro row) r = true.
Proof.
  intros H. apply region_outliers_subseteq, elem_of_index in H.
  destruct H as [row H]. apply elem_of_region_data in H. eauto.
Qed.

Lemma elem_of_flagged df (regs : list (string * region)) l :
  l ∈ flagged_in_regions df regs
  <-> exists e, e ∈ regs /\ l ∈ region_outliers (region_data_of df e.2).
Proof.
  unfold flagged_in_regions. rewrite elem_of_union_list. split.
  - intros (X & HX & Hl). apply list_elem_of_fmap in HX.
    destruct HX as (e & -> & He). eauto.
  - intros (e & He & Hl). eexists. split; [|exact Hl].
    apply list_elem_of_fmap. eauto.
Qed.

Lemma drop_ok (labels : gset nat) df :
  (forall l, l ∈ labels -> l ∈ index df) ->
  drop labels df = Some (List.filter (fun e => bool_decide (e.1 ∉ labels)) df).
Proof.
  intros H. unfold drop. destruct (decide _) as [|Hn]; [reflexivity|].
  exfalso. apply Hn. intros l Hl. apply elem_of_list_to_set. auto.
Qed.

Lemma filter_filter_labels (A B : gset nat) df :
  List.filter (fun e => bool_decide (e.1 ∉ B))
    (List.filter (fun e => bool_decide (e.1 ∉ A)) df)
  = List.filter (fun e => bool_decide (e.1 ∉ A ∪ B)) df.
Proof.
  induction df as [|e df IH]; [reflexivity|]. simpl.
  destruct (bool_decide (e.1 ∉ A)) eqn:EA; simpl.
  - rewrite IH. destruct (bool_decide (e.1 ∉ B)) eqn:EB.
    + rewrite bool_decide_eq_true_2; [reflexivity|].
      apply bool_decide_eq_true in EA, EB. set_solver.
    + rewrite bool_decide_eq_false_2; [reflexivity|].
      apply bool_decide_eq_false in EB. set_solver.
  - rewrite IH. rewrite bool_decide_eq_false_2; [reflexivity|].
    apply bool_decide_eq_false in EA. set_solver.
Qed.

Lemma elem_of_kept (X : gset nat) df l row :
  (l, row) ∈ kept X df <-> (l, row) ∈ df /\ l ∉ X.
Proof.
  unfold kept. rewrite elem_of_filter_bool. simpl. rewrite bool_decide_eq_true. tauto.
Qed.

Lemma flagged_app df (a b : list (string * region)) :
  flagged_in_regions df (a ++ b)
  = flagged_in_regions df a ∪ flagged_in_regions df b.
Proof.
  unfold flagged_in_regions. rewrite map_app. apply union_list_app_L.
Qed.

Lemma flagged_singleton df (e : string * region) :
  flagged_in_regions df [e] = region_outliers (region_data_of df e.2).
Proof.
  unfold flagged_in_regions. simpl. apply union_empty_r_L.
Qed.

Lemma region_names_distinct : NoDup (map fst get_zircon_spectral_regions).
Proof. apply (bool_decide_unpack _). vm_compute. reflexivity. Qed.

(** A row lies in at most one region of the list, so a label flagged in
    one region was not flagged in the regions before it. *)
Lemma flagged_later_not_before df
    (done regs : list (string * region)) (e : string * region) l :
  NoDup (index df) ->
  done ++ e :: regs = get_zircon_spectral_regions ->
  l ∈ region_outliers (region_data_of df e.2) ->
  l ∉ flagged_in_regions df done.
Proof.
  intros Hnd Hsplit Hl Hdone.
  apply elem_of_flagged in Hdone. destruct Hdone as (e' & He' & Hl').
  apply flagged_row in Hl. destruct Hl as (row & Hrow & Hin).
  apply flagged_row in Hl'. destruct Hl' as (row' & Hrow' & Hin').
  assert (row' = row) as -> by (eapply unique_row; eauto).
  assert (In e' get_zircon_spectral_regions).
  { rewrite <- Hsplit. apply in_or_app. left. now apply list_elem_of_In. }
  assert (In e get_zircon_spectral_regions).
  { rewrite <- Hsplit. apply in_or_app. right. now left. }
  assert (e' = e) as -> by (eapply regions_disjoint; eauto).
  pose proof region_names_distinct as Hnames.
  rewrite <- Hsplit, map_app in Hnames. cbn [map] in Hnames.
  apply NoDup_app in Hnames. destruct Hnames as (_ & Hnot & _).
  apply (Hnot e.1).
  - apply list_elem_of_fmap. eauto.
  - left.
Qed.

Lemma fold_region_pass_None (verbose : bool) df
    (regs : list (string * region)) :
  fold_left (region_pass verbose df) regs None = None.
Proof. induction regs as [|e regs IH]; [reflexivity|exact IH]. Qed.

(** With unique labels every flagged label names one row of its region, so
    the verbose listing prints. *)
Lemma printable_unique data (X : gset nat) :
  NoDup (index data) -> (forall l, l ∈ X -> l ∈ index data) ->
  printable data X = true.
Proof.
  intros Hnd Hsub. unfold printable. apply forallb_forall. intros l Hl.
  apply Nat.eqb_eq.
  apply NoDup_count_occ'; [apply NoDup_ListNoDup; exact Hnd|].
  apply list_elem_of_In, Hsub, elem_of_elements. now apply list_elem_of_In.
Qed.

Lemma filter_sublist_bool {A} (p : A -> bool) (xs : list A) :
  List.filter p xs `sublist_of` xs.
Proof.
  induction xs as [|x xs IH]; [constructor|]. simpl.
  destruct (p x); [now apply sublist_skip|now apply sublist_cons].
Qed.

Lemma NoDup_index_filter (p : nat * peak_row -> bool) (df : dataframe) :
  NoDup (index df) -> NoDup (index (List.filter p df)).
Proof.
  intros H. unfold index in *.
  assert (Hs : (fst <$> List.filter p df) `sublist_of` (fst <$> df))
    by apply fmap_sublist, filter_sublist_bool.
  exact (sublist_NoDup _ _ H Hs).
Qed.

Lemma region_outliers_nil : region_outliers [] = ∅.
Proof.
  unfold region_outliers, poor_fit_indices, iqr_outliers_indices,
    z_outliers_indices, extreme_fwhm_indices. simpl.
  now rewrite !union_empty_r_L.
Qed.

(** The loop over the regions on a table with unique labels: no [drop]
    raises; the loop raises exactly when [stats_before] is read before its
    first assignment; otherwise the rows left are those whose label no
    region flagged, and the report has one entry per non-empty region. *)
Lemma fold_region_pass (verbose : bool) df (Hnd : NoDup (index df)) :
  forall (regs done : list (string * region))
         (report : list (string * region_report)) (bound : bool),
  done ++ regs = get_zircon_spectral_regions ->
  let r := fold_left (region_pass verbose df) regs
             (Some (kept (flagged_in_regions df done) df, report, bound)) in
  if negb bound && loop_raises df regs then r = None
  else exists bound' : bool,
         r = Some (kept (flagged_in_regions df (done ++ regs)) df,
                   report ++ omap (report_entry df) regs, bound').
Proof.
  induction regs as [|e regs IH]; intros done report bound Hsplit; cbv zeta.
  - cbn [fold_left]. unfold loop_raises. cbn [first_region_with_rows find].
    rewrite andb_false_r, !app_nil_r. eauto.
  - specialize (IH (done ++ [e])).
    rewrite <- app_assoc in IH. cbn [app] in IH. cbv zeta in IH.
    cbn [fold_left].
    set (region_data := region_data_of df e.2).
    set (out := region_outliers region_data).
    set (entry := (e.1, mkReport (length region_data) (size out)
                          (length region_data - size out) (elements out))).
    assert (Hom : omap (report_entry df) (e :: regs)
                  = if (length region_data =? 0)%nat
                    then omap (report_entry df) regs
                    else entry :: omap (report_entry df) regs).
    { change (omap (report_entry df) (e :: regs))
        with (match report_entry df e with
              | Some y => y :: omap (report_entry df) regs
              | None => omap (report_entry df) regs
              end).
      unfold report_entry at 1. cbv zeta. fold region_data. fold out.
      now destruct (length region_data =? 0)%nat. }
    assert (Hloop : loop_raises df (e :: regs)
                    = if (length region_data =? 0)%nat
                      then loop_raises df regs
                      else (0 <? size out)%nat
                           && (length (kept out region_data) =? 0)%nat).
    { unfold loop_raises, first_region_with_rows. cbn [find].
      fold region_data.
      now destruct (length region_data =? 0)%nat. }
    rewrite Hom, Hloop. clear Hom Hloop.
    set (st1 := region_pass verbose df
                  (Some (kept (flagged_in_regions df done) df, report, bound))
                  e).
    destruct (length region_data =? 0)%nat eqn:Elen.
    + assert (Hst1 : st1 = Some (kept (flagged_in_regions df (done ++ [e])) df,
                                 report, bound)).
      { unfold st1, region_pass. cbn [mbind option_bind]. cbv zeta.
        fold region_data. rewrite Elen.
        apply Nat.eqb_eq, nil_length_inv in Elen.
        rewrite flagged_app, flagged_singleton. fold region_data.
        rewrite Elen, region_outliers_nil. now rewrite union_empty_r_L. }
      rewrite Hst1. apply IH. exact Hsplit.
    + assert (Hndr : NoDup (index region_data))
        by (apply NoDup_index_filter; exact Hnd).
      assert (Hst1 : st1 =
                if (0 <? size out)%nat
                   && (length (kept out region_data) =? 0)%nat
                   && negb bound
                then None
                else Some (kept (flagged_in_regions df (done ++ [e])) df,
                           report ++ [entry], true)).
      { unfold st1, region_pass. cbn [mbind option_bind]. cbv zeta.
        fold region_data. fold out. rewrite Elen.
        rewrite (printable_unique region_data out Hndr
                   (region_outliers_subseteq region_data)).
        rewrite andb_false_r.
        rewrite (drop_ok out (kept (flagged_in_regions df done) df)).
        2:{ intros l Hl. apply elem_of_index.
            pose proof (flagged_later_not_before df done regs e l Hnd
                          Hsplit Hl).
            apply flagged_row in Hl. destruct Hl as (row & Hrow & _).
            exists row. apply elem_of_kept. auto. }
        cbn [mbind option_bind].
        unfold kept at 1. rewrite filter_filter_labels.
        fold (kept (flagged_in_regions df done ∪ out) df).
        assert (Hfl : flagged_in_regions df (done ++ [e])
                      = flagged_in_regions df done ∪ out)
          by (now rewrite flagged_app, flagged_singleton).
        rewrite <- Hfl.
        rewrite (drop_ok out region_data
                   (region_outliers_subseteq region_data)).
        cbn [mbind option_bind]. fold (kept out region_data).
        destruct (0 <? size out)%nat; cbn [andb]; [|reflexivity].
        destruct (length (kept out region_data)) as [|k];
          cbn [Nat.ltb Nat.leb Nat.eqb andb]; [|reflexivity].
        now destruct bound. }
      rewrite Hst1. clear Hst1 st1.
      specialize (IH (report ++ [entry]) true Hsplit).
      cbn [negb andb] in IH. destruct IH as [b Hb].
      destruct ((0 <? size out)%nat
                && (length (kept out region_data) =? 0)%nat) eqn:Eall.
      * destruct bound; cbn [negb andb].
        -- exists b. rewrite Hb. now rewrite <- app_assoc.
        -- apply fold_region_pass_None.
      * rewrite andb_false_r. cbn [andb].
        exists b. rewrite Hb. now rewrite <- app_assoc.
Qed.

Lemma kept_empty df : kept ∅ df = df.
Proof.
  unfold kept. induction df as [|e df IH]; [reflexivity|]. simpl.
  rewrite bool_decide_eq_true_2 by apply not_elem_of_empty. now rewrite IH.
Qed.

Lemma unclassified_in_no_region (c : Q) (e : string * region) :
  unclassified c = true -> e ∈ get_zircon_spectral_regions ->
  in_region c e.2 = false.
Proof.
  unfold unclassified. rewrite negb_true_iff. intros Hex He.
  destruct (in_region c e.2) eqn:E; [|reflexivity].
  assert (existsb (fun e => in_region c e.2) get_zircon_spectral_regions
          = true); [|congruence].
  apply existsb_exists. exists e. split; [now apply list_elem_of_In|exact E].
Qed.

Lemma elem_of_unclassified_outliers df l :
  l ∈ unclassified_outliers_indices df
  <-> exists row, (l, row) ∈ df /\ unclassified (Centro row) = true /\
        ((R2 row < 0.5)%Q \/ (50 < FWHM_Gauss row)%Q).
Proof.
  unfold unclassified_outliers_indices, unclassified_data.
  rewrite elem_of_index_where. split.
  - intros (row & Hrow & Hp). apply elem_of_filter_bool in Hrow.
    destruct Hrow as [Hrow Hun]. exists row. split; [exact Hrow|].
    split; [exact Hun|]. apply orb_true_iff in Hp.
    destruct Hp as [Hp|Hp]; apply Qltb_true in Hp; auto.
  - intros (row & Hrow & Hun & Hp). exists row. split.
    + apply elem_of_filter_bool. auto.
    + apply orb_true_iff. destruct Hp as [Hp|Hp]; apply Qltb_true in Hp; auto.
Qed.

(** What the cleaning pass computes on a table with unique labels. *)
Lemma detect_and_remove_outliers_kept (verbose : bool) df
    (Hnd : NoDup (index df)) :
  detect_and_remove_outliers df verbose
  = if raises df verbose then None
    else Some (kept (removed_labels df) df,
               omap (report_entry df) get_zircon_spectral_regions).
Proof.
  unfold detect_and_remove_outliers, raises.
  pose proof (fold_region_pass verbose df Hnd get_zircon_spectral_regions
                [] [] false eq_refl) as Hfold.
  cbv zeta in Hfold. cbn [negb andb app] in Hfold.
  change (flagged_in_regions df []) with (∅ : gset nat) in Hfold.
  rewrite kept_empty in Hfold.
  destruct (loop_raises df get_zircon_spectral_regions).
  { rewrite Hfold. reflexivity. }
  destruct Hfold as [bound' ->]. cbn [mbind option_bind orb].
  assert (Hno : unclassified_outliers_indices df = [] ->
          kept (flagged_in_regions df get_zircon_spectral_regions) df
          = kept (removed_labels df) df).
  { intros E. unfold removed_labels. rewrite E. simpl.
    now rewrite union_empty_r_L. }
  assert (Hstage :
    (if (0 <? length (unclassified_data df))%nat
     then if (0 <? length (unclassified_outliers_indices df))%nat
          then drop (list_to_set (unclassified_outliers_indices df))
                 (kept (flagged_in_regions df get_zircon_spectral_regions) df)
          else Some (kept (flagged_in_regions df get_zircon_spectral_regions)
                          df)
     else Some (kept (flagged_in_regions df get_zircon_spectral_regions) df))
    = Some (kept (removed_labels df) df)).
  { destruct (0 <? length (unclassified_data df))%nat eqn:Eun.
    - destruct (0 <? length (unclassified_outliers_indices df))%nat eqn:Eidx.
      + rewrite drop_ok.
        * unfold kept at 1.
          fold (kept (flagged_in_regions df get_zircon_spectral_regions) df).
          unfold kept. now rewrite filter_filter_labels.
        * intros l Hl. apply elem_of_list_to_set in Hl.
          apply elem_of_unclassified_outliers in Hl.
          destruct Hl as (row & Hrow & Hun & _).
          apply elem_of_index. exists row. apply elem_of_kept.
          split; [exact Hrow|]. intros Hfl. apply elem_of_flagged in Hfl.
          destruct Hfl as (e & He & Hl). apply flagged_row in Hl.
          destruct Hl as (row' & Hrow' & Hin).
          assert (row' = row) as -> by (eapply unique_row; eauto).
          rewrite (unclassified_in_no_region _ e Hun He) in Hin. discriminate.
      + apply Nat.ltb_ge in Eidx.
        rewrite Hno; [reflexivity|]. apply nil_length_inv. lia.
    - apply Nat.ltb_ge in Eun.
      rewrite Hno; [reflexivity|].
      unfold unclassified_outliers_indices.
      replace (unclassified_data df) with (@nil (nat * peak_row));
        [reflexivity|]. symmetry. apply nil_length_inv. lia. }
  cbv zeta. rewrite Hstage. cbn [mbind option_bind]. reflexivity.
Qed.

(** The pass returns exactly when [raises] is false, and then what it
    returns is determined by the labels it flags. *)
Lemma detect_and_remove_outliers_returns (verbose : bool) df cleaned
    (report : list (string * region_report)) :
  NoDup (index df) ->
  detect_and_remove_outliers df verbose = Some (cleaned, report) ->
  raises df verbose = false /\
  cleaned = kept (removed_labels df) df /\
  report = omap (report_entry df) get_zircon_spectral_regions.
Proof.
  intros Hnd H. rewrite (detect_and_remove_outliers_kept verbose df Hnd) in H.
  destruct (raises df verbose); [discriminate|].
  split; [reflexivity|]. split; congruence.
Qed.

Lemma detect_and_remove_outliers_raises (verbose : bool) df :
  NoDup (index df) ->
  (detect_and_remove_outliers df verbose = None <-> raises df verbose = true).
Proof.
  intros Hnd. rewrite (detect_and_remove_outliers_kept verbose df Hnd).
  destruct (raises df verbose); split; congruence.
Qed.

Lemma removed_labels_in_index df l :
  l ∈ removed_labels df -> l ∈ index df.
Proof.
  unfold removed_labels. rewrite elem_of_union. intros [H|H].
  - apply elem_of_flagged in H. destruct H as (e & _ & H).
    apply flagged_row in H. destruct H as (row & H & _).
    apply elem_of_index. eauto.
  - apply elem_of_list_to_set, elem_of_unclassified_outliers in H.
    destruct H as (row & H & _). apply elem_of_index. eauto.
Qed.

(** Each removed label takes exactly one row away. *)
Lemma length_kept df :
  NoDup (index df) ->
  forall X : gset nat, (forall l, l ∈ X -> l ∈ index df) ->
  (length (kept X df) + size X = length df)%nat.
Proof.
  unfold kept, index.
  induction df as [|[l row] df IH]; intros Hnd X Hsub.
  - simpl. assert (X = ∅) as ->; [|now rewrite size_empty].
    apply set_eq. intros x. split; [|intros H; now apply not_elem_of_empty in H].
    intros Hx. apply Hsub in Hx. inversion Hx.
  - cbn [map] in Hnd. apply NoDup_cons in Hnd. destruct Hnd as [Hnotin Hnd].
    cbn [List.filter fst].
    destruct (decide (l ∈ X)) as [Hin|Hout].
    + rewrite bool_decide_eq_false_2 by tauto.
      assert (Hsame :
        List.filter (fun e : nat * peak_row => bool_decide (e.1 ∉ X)) df
        = List.filter (fun e : nat * peak_row =>
                         bool_decide (e.1 ∉ X ∖ {[l]})) df).
      { apply filter_ext_in. intros [l' row'] Hin'. simpl.
        apply bool_decide_ext. split; [set_solver|].
        intros Hn Hl'. apply Hn. apply elem_of_difference. split; [exact Hl'|].
        intros Heq. apply elem_of_singleton in Heq. subst l'.
        apply Hnotin. apply list_elem_of_fmap. exists (l, row').
        split; [reflexivity|now apply list_elem_of_In]. }
      rewrite Hsame.
      specialize (IH Hnd (X ∖ {[l]})).
      assert (size X = S (size (X ∖ {[l]}))) as ->.
      { rewrite (union_difference_L {[l]} X) at 1 by set_solver.
        rewrite size_union by set_solver. now rewrite size_singleton. }
      cbn [length]. rewrite Nat.add_succ_r. f_equal. apply IH.
      intros l' Hl'. apply elem_of_difference in Hl'. destruct Hl' as [Hl' Hne].
      apply Hsub in Hl'. cbn [map fst] in Hl'. apply elem_of_cons in Hl'.
      destruct Hl' as [->|Hl']; [|exact Hl'].
      exfalso. apply Hne. now apply elem_of_singleton.
    + rewrite bool_decide_eq_true_2 by exact Hout.
      cbn [length]. rewrite Nat.add_succ_l. f_equal. apply IH; [exact Hnd|].
      intros l' Hl'. pose proof (Hsub l' Hl') as Hidx.
      cbn [map fst] in Hidx. apply elem_of_cons in Hidx.
      destruct Hidx as [->|Hidx]; [contradiction|exact Hidx].
Qed.

Lemma NoDup_index_kept (X : gset nat) df :
  NoDup (index df) -> NoDup (index (kept X df)).
Proof.
  unfold index, kept. induction df as [|[l row] df IH]; [auto|].
  cbn [map List.filter fst]. intros Hnd. apply NoDup_cons in Hnd.
  destruct Hnd as [Hnotin Hnd]. destruct (bool_decide _); [|auto].
  cbn [map fst]. apply NoDup_cons. split; [|auto].
  intros Hin. apply Hnotin. apply list_elem_of_fmap in Hin.
  destruct Hin as ([l' row'] & E & Hin). simpl in E. subst l'.
  apply elem_of_filter_bool in Hin. destruct Hin as [Hin _].
  apply list_elem_of_fmap. exists (l, row'). auto.
Qed.

Lemma classified_removed_iff df l row (e : string * region) :
  NoDup (index df) -> (l, row) ∈ df -> e ∈ get_zircon_spectral_regions ->
  in_region (Centro row) e.2 = true ->
  (l ∈ removed_labels df <-> l ∈ region_outliers (region_data_of df e.2)).
Proof.
  intros Hnd Hrow He Hin. unfold removed_labels. rewrite elem_of_union.
  split.
  - intros [H|H].
    + apply elem_of_flagged in H. destruct H as (e' & He' & Hl).
      pose proof Hl as Hl'. apply flagged_row in Hl'.
      destruct Hl' as (row' & Hrow' & Hin').
      assert (row' = row) as -> by (eapply unique_row; eauto).
      assert (e' = e) as ->; [|exact Hl].
      eapply regions_disjoint; eauto; now apply list_elem_of_In.
    + apply elem_of_list_to_set, elem_of_unclassified_outliers in H.
      destruct H as (row' & Hrow' & Hun & _).
      assert (row' = row) as -> by (eapply unique_row; eauto).
      rewrite (unclassified_in_no_region _ e Hun He) in Hin. discriminate.
  - intros H. left. apply elem_of_flagged. eauto.
Qed.

Lemma unclassified_removed_iff df l row :
  NoDup (index df) -> (l, row) ∈ df -> unclassified (Centro row) = true ->
  (l ∈ removed_labels df
   <-> (R2 row < 0.5)%Q \/ (50 < FWHM_Gauss row)%Q).
Proof.
  intros Hnd Hrow Hun. unfold removed_labels. rewrite elem_of_union. split.
  - intros [H|H].
    + apply elem_of_flagged in H. destruct H as (e & He & Hl).
      apply flagged_row in Hl. destruct Hl as (row' & Hrow' & Hin).
      assert (row' = row) as -> by (eapply unique_row; eauto).
      rewrite (unclassified_in_no_region _ e Hun He) in Hin. discriminate.
    + apply elem_of_list_to_set, elem_of_unclassified_outliers in H.
      destruct H as (row' & Hrow' & _ & Hp).
      assert (row' = row) as -> by (eapply unique_row; eauto). exact Hp.
  - intros Hp. right. apply elem_of_list_to_set.
    apply elem_of_unclassified_outliers. eauto.
Qed.

Lemma report_entry_in df (e : string * region) l row :
  (l, row) ∈ df -> in_region (Centro row) e.2 = true ->
  e ∈ get_zircon_spectral_regions ->
  exists rep,
    (e.1, rep) ∈ omap (report_entry df) get_zircon_spectral_regions /\
    outlier_indices rep
    = elements (region_outliers (region_data_of df e.2)) /\
    outliers_removed rep = length (outlier_indices rep).
Proof.
  intros Hrow Hin He.
  assert (Hdata : (l, row) ∈ region_data_of df e.2)
    by (apply elem_of_region_data; auto).
  eexists. split; [|split].
  - apply list_elem_of_omap. exists e. split; [exact He|].
    unfold report_entry.
    destruct (length (region_data_of df e.2) =? 0)%nat eqn:E; [|reflexivity].
    apply Nat.eqb_eq, nil_length_inv in E. rewrite E in Hdata.
    inversion Hdata.
  - reflexivity.
  - reflexivity.
Qed.

Lemma nil_of_no_elem {A} (xs : list A) : (forall x, x ∉ xs) -> xs = [].
Proof.
  destruct xs as [|x xs]; [reflexivity|]. intros H. exfalso.
  apply (H x). left.
Qed.

(** A row that survived a pass is not flagged by a fixed threshold. *)
Lemma survivor_thresholds df l row :
  NoDup (index df) -> (l, row) ∈ kept (removed_labels df) df ->
  (forall e, e ∈ get_zircon_spectral_regions ->
     in_region (Centro row) e.2 = true ->
     ~ (R2 row < 0.3)%Q /\ ~ (60 < FWHM_Gauss row)%Q) /\
  (unclassified (Centro row) = true ->
     ~ ((R2 row < 0.5)%Q \/ (50 < FWHM_Gauss row)%Q)).
Proof.
  intros Hnd Hkept. apply elem_of_kept in Hkept. destruct Hkept as [Hrow Hnot].
  split.
  - intros e He Hin.
    assert (Hdata : (l, row) ∈ region_data_of df e.2)
      by (apply elem_of_region_data; auto).
    split; intros Hbad; apply Hnot;
      apply (classified_removed_iff df l row e Hnd Hrow He Hin);
      apply elem_of_region_outliers.
    + left. apply elem_of_index_where. exists row. split; [exact Hdata|].
      now apply Qltb_true.
    + right; right; right. apply elem_of_index_where. exists row.
      split; [exact Hdata|]. now apply Qltb_true.
  - intros Hun Hbad. apply Hnot.
    now apply (unclassified_removed_iff df l row Hnd Hrow Hun).
Qed.

Lemma regions_NoDup : NoDup get_zircon_spectral_regions.
Proof. apply (NoDup_fmap_1 fst). exact region_names_distinct. Qed.

(** A label is flagged in one region at most. *)
Lemma region_outliers_same_region df (e e' : string * region) l :
  NoDup (index df) ->
  e ∈ get_zircon_spectral_regions -> e' ∈ get_zircon_spectral_regions ->
  l ∈ region_outliers (region_data_of df e.2) ->
  l ∈ region_outliers (region_data_of df e'.2) ->
  e = e'.
Proof.
  intros Hnd He He' Hl Hl'.
  apply flagged_row in Hl. destruct Hl as (row & Hrow & Hin).
  apply flagged_row in Hl'. destruct Hl' as (row' & Hrow' & Hin').
  assert (row' = row) as -> by (eapply unique_row; eauto).
  eapply regions_disjoint; eauto; now apply list_elem_of_In.
Qed.

Lemma size_flagged df (regs : list (string * region)) :
  NoDup (index df) -> NoDup regs ->
  (forall e, e ∈ regs -> e ∈ get_zircon_spectral_regions) ->
  size (flagged_in_regions df regs)
  = list_sum (map (fun e => size (region_outliers (region_data_of df e.2)))
                  regs).
Proof.
  intros Hnd. induction regs as [|e regs IH]; intros Hregs Hsub.
  - change (flagged_in_regions df []) with (∅ : gset nat).
    now rewrite size_empty.
  - apply NoDup_cons in Hregs. destruct Hregs as [Hnotin Hregs].
    change (flagged_in_regions df (e :: regs))
      with (region_outliers (region_data_of df e.2)
            ∪ flagged_in_regions df regs).
    rewrite size_union.
    + cbn [map list_sum]. rewrite IH; [reflexivity|exact Hregs|].
      intros e' He'. apply Hsub. now right.
    + intros l Hl Hfl. apply elem_of_flagged in Hfl.
      destruct Hfl as (e' & He' & Hl').
      assert (e = e') as <-; [|contradiction].
      apply (region_outliers_same_region df e e' l Hnd); auto.
      * apply Hsub. left.
      * apply Hsub. now right.
Qed.

Lemma report_sum df (regs : list (string * region)) :
  list_sum (map (fun e => outliers_removed e.2)
                (omap (report_entry df) regs))
  = list_sum (map (fun e => size (region_outliers (region_data_of df e.2)))
                  regs).
Proof.
  induction regs as [|e regs IH]; [reflexivity|].
  change (omap (report_entry df) (e :: regs))
    with (match report_entry df e with
          | Some y => y :: omap (report_entry df) regs
          | None => omap (report_entry df) regs
          end).
  unfold report_entry at 1. cbv zeta. cbn [map list_sum].
  destruct (length (region_data_of df e.2) =? 0)%nat eqn:E.
  - apply Nat.eqb_eq, nil_length_inv in E.
    rewrite E, region_outliers_nil, size_empty. exact IH.
  - unfold list_sum in *. cbn [map fold_right snd outliers_removed].
    now rewrite IH.
Qed.

(** The labels removed are as many as [total_outliers_removed] counts:
    no label is counted twice. *)
Lemma size_removed_labels df :
  NoDup (index df) ->
  size (removed_labels df)
  = total_outliers_removed df
      (omap (report_entry df) get_zircon_spectral_regions).
Proof.
  intros Hnd. unfold removed_labels, total_outliers_removed.
  rewrite size_union.
  - rewrite (size_flagged df _ Hnd regions_NoDup) by auto.
    rewrite report_sum. f_equal.
    apply size_list_to_set.
    unfold unclassified_outliers_indices, index_where, unclassified_data.
    now do 2 apply NoDup_index_filter.
  - intros l Hfl Hun. apply elem_of_flagged in Hfl.
    destruct Hfl as (e & He & Hl). apply flagged_row in Hl.
    destruct Hl as (row & Hrow & Hin).
    apply elem_of_list_to_set, elem_of_unclassified_outliers in Hun.
    destruct Hun as (row' & Hrow' & Hun & _).
    assert (row' = row) as -> by (eapply unique_row; eauto).
    rewrite (unclassified_in_no_region _ e Hun He) in Hin. discriminate.
Qed.

Lemma report_names df (regs : list (string * region)) :
  map fst (omap (report_entry df) regs)
  = map fst (List.filter
               (fun e => negb (length (region_data_of df e.2) =? 0)%nat)
               regs).
Proof.
  induction regs as [|e regs IH]; [reflexivity|].
  cbn [List.filter].
  change (omap (report_entry df) (e :: regs))
    with (match report_entry df e with
          | Some y => y :: omap (report_entry df) regs
          | None => omap (report_entry df) regs
          end).
  unfold report_entry at 1. cbv zeta.
  destruct (length (region_data_of df e.2) =? 0)%nat; cbn [negb map fst];
    now rewrite IH.
Qed.

(** The report has one entry per region name, as the dictionary it
    stands for. *)
Lemma report_names_distinct df :
  NoDup (map fst (omap (report_entry df) get_zircon_spectral_regions)).
Proof.
  rewrite report_names.
  eapply sublist_NoDup; [exact region_names_distinct|].
  apply fmap_sublist, filter_sublist_bool.
Qed.

(** The two fixed thresholds of a region, row by row. *)
Lemma elem_of_poor_fit df (r : region) l row :
  NoDup (index df) -> (l, row) ∈ df -> in_region (Centro row) r = true ->
  (l ∈ poor_fit_indices (region_data_of df r) <-> (R2 row < 0.3)%Q).
Proof.
  intros Hnd Hrow Hin. unfold poor_fit_indices.
  rewrite elem_of_index_where. split.
  - intros (row' & Hdata & Hp). apply elem_of_region_data in Hdata.
    destruct Hdata as [Hrow' _].
    assert (row' = row) as -> by (eapply unique_row; eauto).
    now apply Qltb_true.
  - intros Hp. exists row. split; [now apply elem_of_region_data|].
    now apply Qltb_true.
Qed.

Lemma elem_of_extreme_fwhm df (r : region) l row :
  NoDup (index df) -> (l, row) ∈ df -> in_region (Centro row) r = true ->
  (l ∈ extreme_fwhm_indices (region_data_of df r)
   <-> (60 < FWHM_Gauss row)%Q).
Proof.
  intros Hnd Hrow Hin. unfold extreme_fwhm_indices.
  rewrite elem_of_index_where. split.
  - intros (row' & Hdata & Hp). apply elem_of_region_data in Hdata.
    destruct Hdata as [Hrow' _].
    assert (row' = row) as -> by (eapply unique_row; eauto).
    now apply Qltb_true.
  - intros Hp. exists row. split; [now apply elem_of_region_data|].
    now apply Qltb_true.
Qed.

End OutlierFacts.

(** C3 (as amended).  On a table the pass has already cleaned, none of
    the fixed-threshold criteria fires: no row of a region has R2 < 0.3 or
    FWHM > 60, and no unclassified row has R2 < 0.5 or FWHM > 50.  The
    second pass raises exactly when [raises] says so; whenever it returns,
    what it returns is the cleaned table with rows left out, and every row
    it leaves out lies in a region and is flagged there by the
    interquartile or the z-score criterion, whose bounds are recomputed
    from the rows that survived. *)
Theorem second_pass_only_population_criteria
    (df cleaned : Outliers.dataframe)
    (report : list (string * Outliers.region_report))
    (verbose verbose2 : bool)
    (Hnd : NoDup (Outliers.index df))
    (Hfirst : Outliers.detect_and_remove_outliers df verbose
              = Some (cleaned, report)) :
  (forall e, e ∈ Regions.get_zircon_spectral_regions ->
     Outliers.poor_fit_indices (Outliers.region_data_of cleaned e.2) = [] /\
     Outliers.extreme_fwhm_indices (Outliers.region_data_of cleaned e.2)
     = []) /\
  Outliers.unclassified_outliers_indices cleaned = [] /\
  (Outliers.detect_and_remove_outliers cleaned verbose2 = None
   <-> Outliers.raises cleaned verbose2 = true) /\
  forall (cleaned2 : Outliers.dataframe)
         (report2 : list (string * Outliers.region_report)),
    Outliers.detect_and_remove_outliers cleaned verbose2
    = Some (cleaned2, report2) ->
    cleaned2 `sublist_of` cleaned /\
    forall (l : nat) (row : Outliers.peak_row),
      (l, row) ∈ cleaned -> (l, row) ∉ cleaned2 ->
      exists (name : string) (r : Regions.region),
        (name, r) ∈ Regions.get_zircon_spectral_regions /\
        Regions.in_region (Outliers.Centro row) r = true /\
        (l ∈ Outliers.iqr_outliers_indices
               (Outliers.region_data_of cleaned r) \/
         l ∈ Outliers.z_outliers_indices
               (Outliers.region_data_of cleaned r)).
Proof.
  destruct (detect_and_remove_outliers_returns verbose df cleaned report
              Hnd Hfirst) as (_ & -> & _).
  clear Hfirst.
  set (cleaned := Outliers.kept (Outliers.removed_labels df) df).
  assert (Hnd2 : NoDup (Outliers.index cleaned))
    by (apply NoDup_index_kept; exact Hnd).
  assert (Hpoor : forall e, e ∈ Regions.get_zircon_spectral_regions ->
    Outliers.poor_fit_indices (Outliers.region_data_of cleaned e.2) = [] /\
    Outliers.extreme_fwhm_indices (Outliers.region_data_of cleaned e.2) = []).
  { intros e He. split; apply nil_of_no_elem; intros l Hl;
      apply elem_of_index_where in Hl; destruct Hl as (row & Hdata & Hp);
      apply elem_of_region_data in Hdata; destruct Hdata as [Hrow Hin];
      apply Qltb_true in Hp;
      destruct (survivor_thresholds df l row Hnd Hrow) as [Hreg _];
      destruct (Hreg e He Hin); contradiction. }
  assert (Hunc : Outliers.unclassified_outliers_indices cleaned = []).
  { apply nil_of_no_elem. intros l Hl.
    apply elem_of_unclassified_outliers in Hl.
    destruct Hl as (row & Hrow & Hun & Hp).
    destruct (survivor_thresholds df l row Hnd Hrow) as [_ Hu].
    now apply Hu. }
  split; [exact Hpoor|]. split; [exact Hunc|].
  split; [apply detect_and_remove_outliers_raises; exact Hnd2|].
  intros cleaned2 report2 Hsecond.
  destruct (detect_and_remove_outliers_returns verbose2 cleaned cleaned2
              report2 Hnd2 Hsecond) as (_ & -> & _).
  split; [apply filter_sublist_bool|].
  intros l row Hrow Hgone.
  assert (Hrem : l ∈ Outliers.removed_labels cleaned).
  { destruct (decide (l ∈ Outliers.removed_labels cleaned)); [assumption|].
    exfalso. apply Hgone. apply elem_of_kept. auto. }
  unfold Outliers.removed_labels in Hrem. rewrite Hunc in Hrem.
  apply elem_of_union in Hrem. destruct Hrem as [Hrem|Hrem];
    [|now apply elem_of_list_to_set in Hrem; inversion Hrem].
  apply elem_of_flagged in Hrem. destruct Hrem as ([name r] & He & Hl).
  pose proof Hl as Hl'. apply flagged_row in Hl'.
  destruct Hl' as (row' & Hrow' & Hin).
  assert (row' = row) as -> by (eapply unique_row; eauto).
  exists name, r. split; [exact He|]. split; [exact Hin|].
  destruct (Hpoor _ He) as [Hp He'].
  apply elem_of_region_outliers in Hl. simpl in Hl, Hp, He'.
  rewrite Hp, He' in Hl.
  destruct Hl as [Hl|[Hl|[Hl|Hl]]]; auto; inversion Hl.
Qed.

(** C8.  The code at the claim's own example: a table whose only row is a
    peak of the nu3 region with R2 = 0.1 and FWHM = 70.  Both criteria
    flag the row and the region loses its only row; the branch for that
    case assigns [stats_after] but not [stats_before], which the report
    entry then reads, so the call raises instead of returning the table
    without the row.

    Everywhere else on tables with unique labels the pass does what the
    claim says.  It raises exactly when [raises] says so.  When it
    returns, the cleaned table is the input with rows left out, and the
    rows left out are as many as [total_outliers_removed] counts, so no
    row is removed or counted twice.  A row of a region is left out
    exactly when its label is in the [outlier_indices] of the region's
    report entry, where it occurs once however many criteria flag it;
    these indices are the union of the four criteria of the region, of
    which the first is R2 < 0.3 and the last FWHM > 60; and
    [outliers_removed] counts the distinct labels.  An unclassified row is
    left out exactly when R2 < 0.5 or FWHM > 50. *)
Theorem outlier_union_removed_once
    (df : Outliers.dataframe) (verbose : bool)
    (Hnd : NoDup (Outliers.index df)) :
  Outliers.detect_and_remove_outliers
    [(0%nat, Outliers.nu3_row 70 0.1)] verbose = None /\
  (Outliers.detect_and_remove_outliers df verbose = None
   <-> Outliers.raises df verbose = true) /\
  forall (cleaned : Outliers.dataframe)
         (report : list (string * Outliers.region_report)),
    Outliers.detect_and_remove_outliers df verbose = Some (cleaned, report) ->
    cleaned `sublist_of` df /\
    (length cleaned + Outliers.total_outliers_removed df report
     = length df)%nat /\
    NoDup (map fst report) /\
    (forall (l : nat) (row : Outliers.peak_row)
            (name : string) (r : Regions.region),
       (l, row) ∈ df ->
       (name, r) ∈ Regions.get_zircon_spectral_regions ->
       Regions.in_region (Outliers.Centro row) r = true ->
       exists rep : Outliers.region_report,
         (name, rep) ∈ report /\
         NoDup (Outliers.outlier_indices rep) /\
         Outliers.outliers_removed rep
         = length (Outliers.outlier_indices rep) /\
         ((l, row) ∉ cleaned <-> l ∈ Outliers.outlier_indices rep) /\
         (l ∈ Outliers.outlier_indices rep <->
          l ∈ Outliers.poor_fit_indices (Outliers.region_data_of df r) \/
          l ∈ Outliers.iqr_outliers_indices (Outliers.region_data_of df r) \/
          l ∈ Outliers.z_outliers_indices (Outliers.region_data_of df r) \/
          l ∈ Outliers.extreme_fwhm_indices
                (Outliers.region_data_of df r)) /\
         (l ∈ Outliers.poor_fit_indices (Outliers.region_data_of df r)
          <-> (Outliers.R2 row < 0.3)%Q) /\
         (l ∈ Outliers.extreme_fwhm_indices (Outliers.region_data_of df r)
          <-> (60 < Outliers.FWHM_Gauss row)%Q)) /\
    (forall (l : nat) (row : Outliers.peak_row),
       (l, row) ∈ df ->
       Regions.unclassified (Outliers.Centro row) = true ->
       ((l, row) ∉ cleaned
        <-> (Outliers.R2 row < 0.5)%Q \/ (50 < Outliers.FWHM_Gauss row)%Q)).
Proof.
  split; [destruct verbose; vm_compute; reflexivity|].
  split; [apply detect_and_remove_outliers_raises; exact Hnd|].
  intros cleaned report Hrun.
  destruct (detect_and_remove_outliers_returns verbose df cleaned report
              Hnd Hrun) as (_ & -> & ->).
  clear Hrun.
  split; [apply filter_sublist_bool|].
  split.
  { rewrite <- size_removed_labels by exact Hnd.
    apply length_kept; [exact Hnd|apply removed_labels_in_index]. }
  split; [apply report_names_distinct|].
  split.
  - intros l row name r Hrow Hr Hin.
    destruct (report_entry_in df (name, r) l row Hrow Hin Hr)
      as (rep & Hrep & Hidx & Hcount).
    exists rep. split; [exact Hrep|]. rewrite Hidx.
    split; [apply NoDup_elements|].
    split; [rewrite <- Hidx; exact Hcount|].
    split; [|split; [|split]].
    + rewrite elem_of_elements, elem_of_kept.
      rewrite <- (classified_removed_iff df l row (name, r) Hnd Hrow Hr Hin).
      split.
      * intros Hnot.
        destruct (decide (l ∈ Outliers.removed_labels df)); tauto.
      * tauto.
    + rewrite elem_of_elements. apply elem_of_region_outliers.
    + apply elem_of_poor_fit; assumption.
    + apply elem_of_extreme_fwhm; assumption.
  - intros l row Hrow Hun.
    rewrite <- (unclassified_removed_iff df l row Hnd Hrow Hun).
    rewrite elem_of_kept. split.
    + intros Hnot. destruct (decide (l ∈ Outliers.removed_labels df)); tauto.
    + tauto.
Qed.

(** The scenario of the specification: three well-behaved peaks of the
    nu3 region, one peak there with R2 = 0.1 and FWHM = 70, and two
    unclassified peaks.  The bad peak is reported once and removed; the
    unclassified peak with R2 = 0.4 is removed, the other one stays. *)
Example outlier_scenario :
  (fun s => (Outliers.index s.1,
             map (fun e => (Outliers.outliers_removed e.2,
                            Outliers.outlier_indices e.2)) s.2))
    <$> Outliers.detect_and_remove_outliers Outliers.scenario_table true
  = Some ([0; 1; 3; 5]%nat, [(1%nat, [2%nat])]).
Proof. vm_compute. reflexivity. Qed.

Lemma outlier_union_removed_once_witness :
  NoDup (Outliers.index Outliers.scenario_table) /\
  Outliers.detect_and_remove_outliers
    [(0%nat, Outliers.nu3_row 70 0.1)] true = None /\
  exists cleaned report,
    Outliers.detect_and_remove_outliers Outliers.scenario_table true
    = Some (cleaned, report) /\
    (length cleaned
     + Outliers.total_outliers_removed Outliers.scenario_table report
     = length Outliers.scenario_table)%nat.
Proof.
  assert (Hnd : NoDup (Outliers.index Outliers.scenario_table))
    by (apply (bool_decide_unpack _); vm_compute; reflexivity).
  split; [exact Hnd|].
  destruct (outlier_union_removed_once Outliers.scenario_table true Hnd)
    as (Hslip & _ & Hret).
  split; [exact Hslip|].
  destruct (Outliers.detect_and_remove_outliers Outliers.scenario_table true)
    as [[cleaned report]|] eqn:Hrun; [|vm_compute in Hrun; discriminate].
  exists cleaned, report. split; [reflexivity|].
  exact (proj1 (proj2 (Hret cleaned report eq_refl))).
Defined.

(** C3, the claim as written fails: on nine peaks of the nu3 region with
    FWHM 10, 10, 10, 10, 10, 11, 14, 16, 40 the first pass removes the
    peak of width 40 (interquartile bounds [4, 20]); on the eight rows
    left the bounds are [7.375, 14.375], so the second pass removes the
    peak of width 16 as well. *)
Lemma cleaning_pass_not_idempotent :
  (Outliers.index <$>
     (fst <$> Outliers.detect_and_remove_outliers Outliers.spread_table
                true))
  = Some [0; 1; 2; 3; 4; 5; 6; 7]%nat /\
  (Outliers.index <$>
     (fst <$> (Outliers.detect_and_remove_outliers Outliers.spread_table true
               ≫= fun s => Outliers.detect_and_remove_outliers s.1 true)))
  = Some [0; 1; 2; 3; 4; 5; 6]%nat.
Proof. split; vm_compute; reflexivity. Qed.

Lemma second_pass_only_population_criteria_witness :
  NoDup (Outliers.index Outliers.spread_table) /\
  exists cleaned report cleaned2 report2,
    Outliers.detect_and_remove_outliers Outliers.spread_table true
    = Some (cleaned, report) /\
    Outliers.detect_and_remove_outliers cleaned true
    = Some (cleaned2, report2) /\
    Outliers.unclassified_outliers_indices cleaned = [] /\
    cleaned2 `sublist_of` cleaned.
Proof.
  assert (Hnd : NoDup (Outliers.index Outliers.spread_table))
    by (apply (bool_decide_unpack _); vm_compute; reflexivity).
  split; [exact Hnd|].
  destruct (Outliers.detect_and_remove_outliers Outliers.spread_table true)
    as [[cleaned report]|] eqn:Hfirst; [|vm_compute in Hfirst; discriminate].
  destruct (second_pass_only_population_criteria
              Outliers.spread_table cleaned report true true Hnd Hfirst)
    as (_ & Hunc & _ & Hret).
  destruct (Outliers.detect_and_remove_outliers cleaned true)
    as [[cleaned2 report2]|] eqn:Hsecond.
  - exists cleaned, report, cleaned2, report2.
    split; [reflexivity|]. split; [exact Hsecond|]. split; [exact Hunc|].
    exact (proj1 (Hret cleaned2 report2 eq_refl)).
  - exfalso. vm_compute in Hfirst.
    apply (inj Some) in Hfirst. apply (f_equal fst) in Hfirst.
    cbn [fst] in Hfirst. subst cleaned.
    vm_compute in Hsecond. discriminate.
Defined.

(** ** Baseline estimator *)

Section AirplsFacts.
Import Baseline.
Local Open Scope R_scope.

Lemma Rltb_true (a b : R) : a < b -> Rltb a b = true.
Proof. intros H. unfold Rltb. destruct (Rlt_dec a b); [reflexivity|contradiction]. Qed.

Lemma Rltb_false (a b : R) : ~ a < b -> Rltb a b = false.
Proof. intros H. unfold Rltb. destruct (Rlt_dec a b); [contradiction|reflexivity]. Qed.

Lemma Rltb_spec (a b : R) : Rltb a b = true <-> a < b.
Proof.
  unfold Rltb. destruct (Rlt_dec a b); split; auto; discriminate.
Qed.

(** Every updated weight is a logistic value: strictly between 0 and 1. *)
Lemma logistic_weight_bounds (t : R) : 0 < 1 / (1 + exp t) < 1.
Proof.
  pose proof (exp_pos t) as Hpos.
  split.
  - apply Rdiv_lt_0_compat; rlra.
  - apply (Rmult_lt_reg_r (1 + exp t)); [rlra|].
    unfold Rdiv. rewrite Rmult_assoc, Rinv_l by rlra. rlra.
Qed.

Lemma update_weights_bounds (d : list R) :
  Forall (fun w => 0 < w < 1) (update_weights d).
Proof.
  unfold update_weights. apply Forall_forall. intros w Hw.
  apply list_elem_of_In, in_map_iff in Hw. destruct Hw as (di & <- & _).
  apply logistic_weight_bounds.
Qed.

Lemma exp_neg_lt_1 (t : R) : t < 0 -> exp t < 1.
Proof. intros H. rewrite <- exp_0. now apply exp_increasing. Qed.

Lemma logistic_above_half (t : R) : t < 0 -> 1 / 2 < 1 / (1 + exp t).
Proof.
  intros H. pose proof (exp_pos t). pose proof (exp_neg_lt_1 t H).
  unfold Rdiv. rewrite !Rmult_1_l.
  apply Rinv_lt_contravar; [|rlra].
  apply Rmult_lt_0_compat; rlra.
Qed.

Lemma exp_minus_1_below_half : exp (-1) < 1 / 2.
Proof.
  pose proof (exp_ineq1 1 ltac:(rlra)) as H.
  replace (-1) with (- (1)) by rlra.
  rewrite exp_Ropp. unfold Rdiv. rewrite Rmult_1_l.
  apply Rinv_lt_contravar; [|rlra].
  pose proof (exp_pos 1). apply Rmult_lt_0_compat; rlra.
Qed.

Lemma first_solve : solves 1 [1; 1; 1; 1] [6; 1; 7; 2] [5; 4; 4; 3].
Proof.
  unfold solves. split; [reflexivity|].
  unfold mat_vec, Zmat, penalty, sum_n, Rsum, Dmat, mul. simpl.
  repeat (apply (f_equal2 cons); [rlra|]). reflexivity.
Qed.

(** The system has no other solution, so this is what [spsolve] finds. *)
Lemma first_solve_unique (z : list R) :
  solves 1 [1; 1; 1; 1] [6; 1; 7; 2] z -> z = [5; 4; 4; 3].
Proof.
  unfold solves. intros [Hlen Heq].
  destruct z as [|a [|b [|c [|d [|? ?]]]]]; try discriminate Hlen.
  unfold mat_vec, Zmat, penalty, sum_n, Rsum, Dmat, mul in Heq.
  simpl in Heq. injection Heq as H0 H1 H2 H3.
  repeat (apply (f_equal2 cons); [rlra|]). reflexivity.
Qed.

Lemma first_residuals : sub [6; 1; 7; 2] [5; 4; 4; 3] = [1; -3; 3; -1].
Proof. unfold sub. simpl. repeat (apply (f_equal2 cons); [rlra|]). reflexivity. Qed.

Lemma first_weights :
  update_weights [1; -3; 3; -1]
  = [1 / (1 + exp (-6)); 1 / (1 + exp (-14));
     1 / (1 + exp (-2)); 1 / (1 + exp (-10))].
Proof.
  unfold update_weights. cbn [List.filter].
  rewrite (Rltb_false 1 0), (Rltb_true (-3) 0), (Rltb_false 3 0),
    (Rltb_true (-1) 0) by rlra.
  assert (Hm : np_mean [-3; -1] = -2).
  { unfold np_mean, Rsum, Rlen. simpl. rlra. }
  assert (Hs : np_std [-3; -1] = 1).
  { unfold np_std. rewrite Hm. unfold Rsum, Rlen. simpl.
    replace ((( -3 - -2) * (-3 - -2) + ((-1 - -2) * (-1 - -2) + 0)) / (1 + 1))
      with 1 by rlra.
    apply sqrt_1. }
  rewrite Hm, Hs. cbn [map].
  repeat (apply (f_equal2 cons); [do 3 f_equal; rlra|]). reflexivity.
Qed.

(** C2, the code at work.  For the spectrum [6, 1, 7, 2] with lambda = 1
    the first solve (unit weights) gives the baseline [5, 4, 4, 3] and the
    residuals d = [1, -3, 3, -1]; the negative residuals have mean -2 and
    standard deviation 1.  The updated weights are the logistic values
    1 / (1 + exp(2 * (d - (2*std - mean)) / std)): the point with d = 1 > 0
    gets a weight above 1/2, not 0, and the point with d = -1 gets a weight
    above exp(d / std) = exp(-1).  No residual ever gets the weight 0. *)
Theorem reweighting_is_logistic :
  Baseline.solves 1 [1; 1; 1; 1] [6; 1; 7; 2] [5; 4; 4; 3] /\
  Baseline.sub [6; 1; 7; 2] [5; 4; 4; 3] = [1; -3; 3; -1] /\
  Baseline.update_weights [1; -3; 3; -1]
  = [1 / (1 + exp (-6)); 1 / (1 + exp (-14));
     1 / (1 + exp (-2)); 1 / (1 + exp (-10))] /\
  1 / 2 < 1 / (1 + exp (-6)) /\
  exp (-1 / 1) < 1 / (1 + exp (-10)) /\
  (forall d : list R,
     Forall (fun w => 0 < w < 1) (Baseline.update_weights d)).
Proof.
  split; [exact first_solve|]. split; [exact first_residuals|].
  split; [exact first_weights|].
  split; [apply logistic_above_half; rlra|].
  split; [|exact update_weights_bounds].
  replace (-1 / 1) with (-1) by rlra.
  apply Rlt_trans with (1 / 2); [exact exp_minus_1_below_half|].
  apply logistic_above_half. rlra.
Qed.


End AirplsFacts.

Section BaselineFacts.
Import Baseline.
Local Open Scope R_scope.

Variable N : numerics.

Lemma lookup_sub (a b : list R) (i : nat) (ai bi : R) :
  a !! i = Some ai -> b !! i = Some bi -> sub a b !! i = Some (ai - bi).
Proof.
  intros Ha Hb. unfold sub. rewrite lookup_zip_with, Ha, Hb. reflexivity.
Qed.

(** The clipped baseline never exceeds the spectrum. *)
Lemma minimum_le (raw y : list R) (i : nat) (yi bi : R) :
  y !! i = Some yi -> minimum raw y !! i = Some bi -> bi <= yi.
Proof.
  intros Hy Hb. unfold minimum in Hb. rewrite lookup_zip_with, Hy in Hb.
  destruct (raw !! i) as [ri|]; [|discriminate]. simpl in Hb.
  injection Hb as <-. apply Rmin_r.
Qed.

Lemma residual_nonneg (raw y : list R) :
  Forall (fun v => 0 <= v) (sub y (minimum raw y)).
Proof.
  unfold sub, minimum. revert raw.
  induction y as [|yi y IH]; intros [|ri raw]; simpl; try constructor.
  - pose proof (Rmin_r ri yi). rlra.
  - apply IH.
Qed.

Lemma fold_Rmin_nonneg (l : list R) (a : R) :
  0 <= a -> Forall (fun v => 0 <= v) l -> 0 <= fold_left Rmin l a.
Proof.
  revert a. induction l as [|b l IH]; intros a Ha Hl; simpl; [exact Ha|].
  inversion Hl; subst. apply IH; [|assumption].
  apply Rmin_glb; assumption.
Qed.

Lemma fold_Rmax_nonneg (l : list R) (a : R) :
  0 <= a -> 0 <= fold_left Rmax l a.
Proof.
  revert a. induction l as [|b l IH]; intros a Ha; simpl; [exact Ha|].
  apply IH. pose proof (Rmax_l a b). rlra.
Qed.

Lemma length_linspace (a b : R) (n : nat) : length (linspace a b n) = n.
Proof. unfold linspace. now rewrite length_map, length_seq. Qed.

Lemma polynomial_baseline_pair (y x : list R) (degree : nat) :
  y <> [] ->
  exists baseline,
    polynomial_baseline N y x degree = Some (sub y baseline, baseline) /\
    forall i yi bi, y !! i = Some yi -> baseline !! i = Some bi -> bi <= yi.
Proof.
  intros Hy. unfold polynomial_baseline, polynomial_curve.
  destruct y as [|y1 y']; [contradiction|]. cbn [np_max mbind option_bind].
  destruct (_ <? _)%nat; cbn [mbind option_bind];
    (eexists; split; [reflexivity|]);
    intros i yi bi Hyi Hbi; eapply minimum_le; eassumption.
Qed.

Lemma length_insert_point (p : R * R) (l : list (R * R)) :
  length (insert_point p l) = S (length l).
Proof.
  induction l as [|q l IH]; [reflexivity|]. simpl.
  destruct (Rleb p.1 q.1); simpl; [reflexivity|now rewrite IH].
Qed.

Lemma length_sort_points (l : list (R * R)) :
  length (sort_points l) = length l.
Proof.
  induction l as [|p l IH]; [reflexivity|]. simpl.
  now rewrite length_insert_point, IH.
Qed.

(** The curve is given on the whole grid, when the spline is fitted on
    baseline points that the fitting routine accepts. *)
Lemma spline_curve_length (y x : list R) (smoothing_factor : R)
    (points : list (R * R)) :
  y <> [] -> length x = length y ->
  (forall a xp fp, length (interp N a xp fp) = length a) ->
  baseline_points N y (spline_grid y x) = Some points ->
  univariate_spline N (map fst points) (map snd points)
    (smoothing_factor * Rlen y)
    (linspace (default 0 (np_min (spline_grid y x)))
              (default 0 (np_max (spline_grid y x)))
              (length (spline_grid y x) * 5))
  <> SplineFitError ->
  exists raw, spline_curve N y x smoothing_factor = Some raw /\
              length raw = length y.
Proof.
  intros Hy Hx Hinterp Hpts Hfit. unfold spline_curve.
  set (x' := spline_grid y x) in *.
  assert (Hx' : length x' = length y).
  { unfold x', spline_grid.
    destruct (all_increasing x); [exact Hx|apply length_linspace]. }
  clearbody x'.
  destruct x' as [|x1 xs]; [destruct y; [contradiction|discriminate]|].
  cbn [np_min np_max mbind option_bind default] in *.
  rewrite Hpts. cbn [mbind option_bind].
  destruct (univariate_spline N _ _ _ _); [| |contradiction];
    (eexists; split; [reflexivity|]); rewrite Hinterp; exact Hx'.
Qed.

Lemma np_max_nonneg (l : list R) (hi : R) :
  Forall (fun v => 0 <= v) l -> np_max l = Some hi -> 0 <= hi.
Proof.
  destruct l as [|a l]; [discriminate|]. intros Hall [= <-].
  inversion Hall; subst. now apply fold_Rmax_nonneg.
Qed.

Lemma np_min_nonneg (l : list R) (lo : R) :
  Forall (fun v => 0 <= v) l -> np_min l = Some lo -> 0 <= lo.
Proof.
  destruct l as [|a l]; [discriminate|]. intros Hall [= <-].
  inversion Hall; subst. now apply fold_Rmin_nonneg.
Qed.

Lemma spline_baseline_pair (y x : list R) (smoothing_factor : R)
    (raw : list R) :
  y <> [] ->
  spline_curve N y x smoothing_factor = Some raw -> length raw = length y ->
  exists corrected hi,
    let baseline := minimum raw y in
    spline_baseline N y x smoothing_factor = Some (corrected, baseline) /\
    (forall i yi bi, y !! i = Some yi -> baseline !! i = Some bi -> bi <= yi) /\
    length baseline = length y /\
    np_max (sub y baseline) = Some hi /\ 0 <= hi /\
    (0 < hi -> corrected = map (fun v => v / hi) (sub y baseline)) /\
    (hi = 0 -> corrected = sub y baseline).
Proof.
  intros Hy Hcurve Hraw. unfold spline_baseline. rewrite Hcurve.
  cbn [mbind option_bind].
  pose proof (residual_nonneg raw y) as Hres.
  assert (Hlen : length (minimum raw y) = length y).
  { unfold minimum. rewrite length_zip_with. lia. }
  set (baseline := minimum raw y) in *.
  assert (Hclen : length (sub y baseline) = length y).
  { unfold sub. rewrite length_zip_with. lia. }
  destruct (sub y baseline) as [|c1 cs] eqn:Ec.
  { destruct y; [contradiction|discriminate]. }
  rewrite <- Ec in *.
  assert (Hlo : exists lo, np_min (sub y baseline) = Some lo)
    by (rewrite Ec; simpl; eauto).
  destruct Hlo as [lo Hlo]. rewrite Hlo. cbn [mbind option_bind].
  rewrite (Rltb_false lo 0)
    by (pose proof (np_min_nonneg _ _ Hres Hlo); rlra).
  assert (Hhi : exists hi, np_max (sub y baseline) = Some hi)
    by (rewrite Ec; simpl; eauto).
  destruct Hhi as [hi Hhi]. rewrite Hhi. cbn [mbind option_bind].
  pose proof (np_max_nonneg _ _ Hres Hhi) as Hpos.
  eexists _, hi. cbv zeta. split; [reflexivity|].
  split; [intros i yi bi Hyi Hbi; eapply minimum_le; eassumption|].
  split; [exact Hlen|]. split; [reflexivity|]. split; [exact Hpos|].
  split.
  - intros H. now rewrite (Rltb_true 0 hi H).
  - intros ->. now rewrite (Rltb_false 0 0) by rlra.
Qed.

Lemma airpls_loop_step (y : list R) (lambda_ : R) (n : nat) (w z : list R) :
  airpls_loop N y lambda_ (S n) w z
  = let z1 := spsolve N (Zmat lambda_ (length y) w) (length y) (mul w y) in
    let wt := update_weights (sub y z1) in
    if Rltb (norm (sub w wt) / norm w) 0.00001 then z1
    else airpls_loop N y lambda_ n wt z1.
Proof. reflexivity. Qed.

(** With a solver that returns a vector as long as its right-hand side,
    the baseline has the length of the spectrum. *)
Lemma airpls_loop_length (y : list R) (lambda_ : R) :
  (forall M L rhs, length (spsolve N M L rhs) = length rhs) ->
  forall (n : nat) (w z : list R),
    length w = length y ->
    length (airpls_loop N y lambda_ (S n) w z) = length y.
Proof.
  intros Hsolve. induction n as [|n IH]; intros w z Hw;
    rewrite airpls_loop_step; cbv zeta;
    set (z1 := spsolve N _ _ _);
    (assert (Hz1 : length z1 = length y)
       by (unfold z1, mul; rewrite Hsolve, length_zip_with; lia));
    destruct (Rltb _ _); try exact Hz1.
  apply IH. unfold update_weights, sub.
  rewrite length_map, length_zip_with. lia.
Qed.

Lemma unpack2_long_array (z : list R) :
  length z <> 2%nat -> unpack2 (Array z) = None.
Proof.
  destruct z as [|a [|b [|c l]]]; simpl; intros H; try reflexivity.
  contradiction.
Qed.

(** The reweighted least-squares branch hands back one array, the
    baseline; it cannot be unpacked into a pair of arrays. *)
Lemma airpls_returns_bare_array (y x : list R) (cfg : baseline_config) :
  (forall M L rhs, length (spsolve N M L rhs) = length rhs) ->
  method cfg = "airpls"%string -> (2 < length y)%nat ->
  exists z, correct_baseline N y x cfg = Some (Array z) /\
            length z = length y /\ unpack2 (Array z) = None.
Proof.
  intros Hsolve Hm Hlen. unfold correct_baseline, airpls_baseline. rewrite Hm.
  cbn [String.eqb Ascii.eqb Bool.eqb andb].
  destruct (length y <? 2)%nat eqn:E; [apply Nat.ltb_lt in E; lia|].
  cbn [mbind option_bind]. eexists. split; [reflexivity|].
  assert (Hz : length (airpls_loop N y (airpls_lambda cfg) 10
                                   (repeat 1 (length y)) []) = length y).
  { apply airpls_loop_length; [exact Hsolve|]. apply repeat_length. }
  split; [exact Hz|]. apply unpack2_long_array. lia.
Qed.

(** C1 (as amended).  For a non-empty spectrum on a grid of the same
    length, and a method other than 'airpls', [correct_baseline] returns a
    pair (corrected, baseline) whose baseline never exceeds the input;
    for the spline this is so when there are at least 4 baseline points
    and the smoothing factor is not negative, which is when the cubic
    spline can be fitted.  With 'polynomial' the corrected spectrum is the
    input minus the baseline.  With 'spline' (also taken for an unknown
    name) it is the input minus the baseline divided by the maximum of
    that difference when the maximum is positive, and the plain (all-zero)
    difference when the maximum is 0. *)
Theorem correct_baseline_pair_polynomial_spline
    (y x : list R) (cfg : baseline_config)
    (Hy : y <> []) (Hx : length x = length y)
    (Hinterp : forall a xp fp, length (interp N a xp fp) = length a)
    (Hfit : forall (baseline_x baseline_y : list R) (s : R) (grid : list R),
        (4 <= length baseline_x)%nat -> 0 <= s ->
        univariate_spline N baseline_x baseline_y s grid <> SplineFitError)
    (Hmethod : method cfg <> "airpls"%string)
    (Hpoints : method cfg <> "polynomial"%string ->
       0 <= spline_smoothing cfg /\
       exists points : list (R * R),
         baseline_points N y (spline_grid y x) = Some points /\
         (4 <= length points)%nat) :
  exists corrected baseline : list R,
    correct_baseline N y x cfg = Some (Pair corrected baseline) /\
    (forall (i : nat) (yi bi : R),
       y !! i = Some yi -> baseline !! i = Some bi -> bi <= yi) /\
    (method cfg = "polynomial"%string -> corrected = sub y baseline) /\
    (method cfg <> "polynomial"%string ->
     length baseline = length y /\
     exists hi : R,
       np_max (sub y baseline) = Some hi /\ 0 <= hi /\
       (0 < hi -> corrected = map (fun v => v / hi) (sub y baseline)) /\
       (hi = 0 -> corrected = sub y baseline)).
Proof.
  unfold correct_baseline.
  destruct (String.eqb (method cfg) "airpls") eqn:Ea.
  { apply String.eqb_eq in Ea. contradiction. }
  destruct (String.eqb (method cfg) "polynomial") eqn:Ep.
  - apply String.eqb_eq in Ep.
    destruct (polynomial_baseline_pair y x (polynomial_degree cfg) Hy)
      as (b & -> & Hle).
    exists (sub y b), b. split; [reflexivity|]. split; [exact Hle|].
    split; [reflexivity|]. intros Hne. contradiction.
  - apply String.eqb_neq in Ep.
    destruct (Hpoints Ep) as (Hsmooth & points & Hpts & Hfour).
    assert (Hs : forall s, 0 <= s -> exists corrected baseline,
      as_pair (spline_baseline N y x s) = Some (Pair corrected baseline) /\
      (forall i yi bi, y !! i = Some yi -> baseline !! i = Some bi -> bi <= yi) /\
      (method cfg = "polynomial"%string -> corrected = sub y baseline) /\
      (method cfg <> "polynomial"%string ->
       length baseline = length y /\
       exists hi : R,
         np_max (sub y baseline) = Some hi /\ 0 <= hi /\
         (0 < hi -> corrected = map (fun v => v / hi) (sub y baseline)) /\
         (hi = 0 -> corrected = sub y baseline))).
    { intros s Hs.
      destruct (spline_curve_length y x s points Hy Hx Hinterp Hpts)
        as (raw & Hcurve & Hraw).
      { apply Hfit; [now rewrite length_map|].
        apply Rmult_le_pos; [exact Hs|apply pos_INR]. }
      destruct (spline_baseline_pair y x s raw Hy Hcurve Hraw)
        as (c & hi & Hrun & Hle & Hlen & Hhi & Hpos & H1 & H0).
      cbv zeta in Hrun. rewrite Hrun.
      exists c, (minimum raw y). split; [reflexivity|]. split; [exact Hle|].
      split; [intros; contradiction|]. intros _. split; [exact Hlen|].
      exists hi. auto. }
    destruct (String.eqb (method cfg) "spline"); apply Hs;
      [exact Hsmooth|rlra].
Qed.

End BaselineFacts.

Section BaselineExamples.
Import Baseline.
Local Open Scope R_scope.

Lemma all_increasing_seq (n a : nat) :
  all_increasing (map INR (seq a n)) = true.
Proof.
  revert a. induction n as [|n IH]; intros a; [reflexivity|].
  destruct n as [|n]; [reflexivity|].
  change (all_increasing (map INR (seq a (S (S n)))))
    with (Rltb (INR a) (INR (S a))
          && all_increasing (map INR (seq (S a) (S n)))).
  rewrite IH, andb_true_r. apply Rltb_true. apply lt_INR. lia.
Qed.

Lemma length_select (mask : list bool) (v : list R) :
  length v = length mask -> length (select mask v) = count_true mask.
Proof.
  unfold select, count_true. rewrite length_map. revert v.
  induction mask as [|b mask IH]; intros [|a v] Hlen; try discriminate;
    [reflexivity|].
  cbn [combine List.filter fst]. destruct b; cbn [length];
    rewrite IH by (simpl in Hlen; lia); reflexivity.
Qed.

(** The baseline points of the example: every sample but the two in the
    window of the peak. *)
Lemma flat_spectrum_points :
  exists points : list (R * R),
    baseline_points peak_numerics flat_spectrum
                    (spline_grid flat_spectrum flat_grid) = Some points /\
    length points = 48%nat.
Proof.
  unfold spline_grid, flat_grid. rewrite all_increasing_seq.
  unfold baseline_points.
  assert (Hmax : exists M, np_max flat_spectrum = Some M)
    by (eexists; reflexivity).
  destruct Hmax as [M ->]. cbn [mbind option_bind find_peaks peak_numerics].
  set (mask := peak_mask (length flat_spectrum) [25%nat]).
  assert (Hcount : count_true mask = 48%nat) by (vm_compute; reflexivity).
  assert (Hmask : length mask = 50%nat) by (vm_compute; reflexivity).
  rewrite Hcount.
  assert (Hlen : Rlen flat_spectrum = 50)
    by (unfold Rlen; change (length flat_spectrum) with 50%nat;
        rewrite INR_IZR_INZ; reflexivity).
  rewrite Hlen.
  assert (H48 : INR 48 = 48) by (rewrite INR_IZR_INZ; reflexivity).
  rewrite H48. rewrite (Rltb_false 48 (50 * 0.5)) by rlra.
  eexists. split; [reflexivity|].
  rewrite length_sort_points, length_combine.
  rewrite !length_select, Hcount; [reflexivity| |].
  - now rewrite Hmask.
  - now rewrite Hmask, length_map, length_seq.
Qed.

Lemma constant_spline_fits (baseline_x baseline_y : list R) (s : R)
    (grid : list R) :
  (4 <= length baseline_x)%nat ->
  constant_spline baseline_x baseline_y s grid
  = SplineCurve (map (fun _ => 1) grid).
Proof.
  intros H. unfold constant_spline.
  destruct (length baseline_x <? 4)%nat eqn:E; [|reflexivity].
  apply Nat.ltb_lt in E. lia.
Qed.

Lemma minimum_constant (x y : list R) :
  length x = length y -> Forall (fun v => 1 <= v) y ->
  minimum (map (fun _ => 1) x) y = map (fun _ => 1) y.
Proof.
  unfold minimum. revert y.
  induction x as [|a x IH]; intros [|b y] Hlen Hall; try discriminate;
    [reflexivity|].
  inversion Hall; subst. cbn [map zip_with].
  rewrite Rmin_left by assumption. f_equal. apply IH; [|assumption].
  simpl in Hlen. lia.
Qed.

Lemma fold_Rmax_bound (l : list R) (a m : R) :
  a <= m -> Forall (fun v => v <= m) l -> fold_left Rmax l a <= m.
Proof.
  revert a. induction l as [|b l IH]; intros a Ha Hl; simpl; [exact Ha|].
  inversion Hl; subst. apply IH; [|assumption]. now apply Rmax_lub.
Qed.

Lemma fold_Rmax_ge (l : list R) (a : R) : a <= fold_left Rmax l a.
Proof.
  revert a. induction l as [|b l IH]; intros a; simpl; [rlra|].
  pose proof (IH (Rmax a b)). pose proof (Rmax_l a b). rlra.
Qed.

Lemma fold_Rmax_elem (l : list R) (a v : R) :
  In v l -> v <= fold_left Rmax l a.
Proof.
  revert a. induction l as [|b l IH]; intros a Hin; [contradiction|].
  simpl. destruct Hin as [->|Hin]; [|now apply IH].
  pose proof (fold_Rmax_ge l (Rmax a v)). pose proof (Rmax_r a v). rlra.
Qed.

(** The largest element of a list that holds its bound. *)
Lemma np_max_is (l : list R) (m : R) :
  In m l -> Forall (fun v => v <= m) l -> np_max l = Some m.
Proof.
  destruct l as [|a l]; [contradiction|]. intros Hin Hall.
  inversion Hall; subst. cbn [np_max]. f_equal.
  apply Rle_antisym; [now apply fold_Rmax_bound|].
  destruct Hin as [->|Hin]; [apply fold_Rmax_ge|now apply fold_Rmax_elem].
Qed.

Lemma flat_spectrum_ge_1 : Forall (fun v => 1 <= v) flat_spectrum.
Proof.
  unfold flat_spectrum. apply Forall_app. split; [|apply Forall_app; split].
  - apply Forall_forall. intros v Hv. apply list_elem_of_In in Hv.
    apply repeat_spec in Hv. rlra.
  - repeat constructor. rlra.
  - apply Forall_forall. intros v Hv. apply list_elem_of_In in Hv.
    apply repeat_spec in Hv. rlra.
Qed.

(** The spline method on the example: the baseline is the flat background
    and the corrected spectrum is the peak of the difference scaled to
    height 1. *)
Lemma spline_example :
  correct_baseline peak_numerics flat_spectrum flat_grid
                   (mkConfig "spline" 1 3 0.1)
  = Some (Pair (map (fun v => v / 2)
                    (sub flat_spectrum (map (fun _ => 1) flat_spectrum)))
               (map (fun _ => 1) flat_spectrum)).
Proof.
  destruct flat_spectrum_points as (points & Hpts & Hlen).
  assert (Hy : flat_spectrum <> []) by discriminate.
  assert (Hcurve : spline_curve peak_numerics flat_spectrum flat_grid 0.1
                   = Some (map (fun _ => 1)
                               (spline_grid flat_spectrum flat_grid))).
  { unfold spline_curve. rewrite Hpts.
    assert (Hlo : exists lo, np_min (spline_grid flat_spectrum flat_grid)
                             = Some lo)
      by (unfold spline_grid, flat_grid; rewrite all_increasing_seq;
          eexists; reflexivity).
    assert (Hhi : exists hi, np_max (spline_grid flat_spectrum flat_grid)
                             = Some hi)
      by (unfold spline_grid, flat_grid; rewrite all_increasing_seq;
          eexists; reflexivity).
    destruct Hlo as [lo ->], Hhi as [hi ->]. cbn [mbind option_bind].
    cbn [univariate_spline peak_numerics].
    rewrite constant_spline_fits by (rewrite length_map, Hlen; lia).
    reflexivity. }
  assert (Hgrid : length (spline_grid flat_spectrum flat_grid)
                  = length flat_spectrum).
  { unfold spline_grid, flat_grid. rewrite all_increasing_seq.
    now rewrite length_map, length_seq. }
  destruct (spline_baseline_pair peak_numerics flat_spectrum flat_grid 0.1
              _ Hy Hcurve)
    as (c & hi & Hrun & _ & _ & Hhi & _ & Hscale & _).
  { now rewrite length_map. }
  cbv zeta in Hrun, Hhi, Hscale.
  rewrite (minimum_constant _ _ Hgrid flat_spectrum_ge_1) in *.
  assert (Hmax : np_max (sub flat_spectrum (map (fun _ => 1) flat_spectrum))
                 = Some 2).
  { apply np_max_is.
    - apply list_elem_of_In. apply list_elem_of_lookup. exists 25%nat.
      erewrite lookup_sub; [|reflexivity|reflexivity]. f_equal. rlra.
    - apply Forall_forall. intros v Hv.
      apply list_elem_of_lookup in Hv. destruct Hv as [i Hi].
      unfold sub in Hi. rewrite lookup_zip_with in Hi.
      destruct (flat_spectrum !! i) as [yi|] eqn:Eyi; [|discriminate].
      cbn [mbind option_bind] in Hi.
      rewrite list_lookup_fmap, Eyi in Hi. cbn in Hi.
      injection Hi as <-.
      assert (Hyi : yi <= 3).
      { apply list_elem_of_lookup_2 in Eyi. unfold flat_spectrum in Eyi.
        rewrite !elem_of_app in Eyi.
        destruct Eyi as [Hin|[Hin|Hin]].
        - apply list_elem_of_In, repeat_spec in Hin. rlra.
        - apply list_elem_of_singleton in Hin. rlra.
        - apply list_elem_of_In, repeat_spec in Hin. rlra. }
      rlra. }
  rewrite Hmax in Hhi. injection Hhi as <-.
  unfold correct_baseline. cbn [method String.eqb Ascii.eqb Bool.eqb andb].
  cbn [spline_smoothing]. rewrite Hrun. unfold as_pair.
  cbn [mbind option_bind fst snd]. rewrite Hscale by rlra. reflexivity.
Qed.

(** On a spectrum of two samples the spline cannot be fitted, and the
    error of the fitting routine leaves [correct_baseline]. *)
Lemma spline_short_spectrum :
  correct_baseline constant_numerics [2; 4] [0; 1]
                   (mkConfig "spline" 1 3 0.1) = None.
Proof.
  unfold correct_baseline. cbn [method String.eqb Ascii.eqb Bool.eqb andb].
  unfold spline_baseline, spline_curve, spline_grid, baseline_points.
  cbn [all_increasing]. rewrite (Rltb_true 0 1) by rlra. cbn [andb].
  cbn [np_min np_max fold_left mbind option_bind].
  cbn [univariate_spline constant_numerics].
  unfold constant_spline. rewrite length_map, length_sort_points.
  rewrite length_combine, !length_select.
  - set (mask := if Rltb _ _ then _ else _).
    destruct (count_true mask) as [|[|[|[|n]]]] eqn:E; try reflexivity.
    exfalso.
    assert (Hle : (count_true mask <= length mask)%nat)
      by (unfold count_true; apply filter_length_le).
    assert (Hm : length mask = 2%nat).
    { unfold mask. destruct (Rltb _ _); [reflexivity|].
      cbn [find_peaks]. reflexivity. }
    lia.
  - destruct (Rltb _ _); reflexivity.
  - destruct (Rltb _ _); reflexivity.
Qed.

(** C1, the claim as written fails.  With 'airpls' what comes back is one
    array (the baseline), not a pair, and the unpacking in [process_file]
    raises on it.  With 'spline', on a flat background of 1 with one peak
    of height 3, the baseline is the background and the input minus the
    baseline has the value 2 at the peak, but the corrected spectrum
    returned has the value 1 there: the difference was divided by its
    maximum. *)
Lemma correct_baseline_not_input_minus_baseline :
  (exists z : list R,
     correct_baseline constant_numerics [6; 1; 7; 2] [0; 1; 2; 3]
                      (mkConfig "airpls" 1 3 0.1) = Some (Array z) /\
     unpack2 (Array z) = None) /\
  exists corrected baseline : list R,
    correct_baseline peak_numerics flat_spectrum flat_grid
                     (mkConfig "spline" 1 3 0.1)
    = Some (Pair corrected baseline) /\
    flat_spectrum !! 25%nat = Some 3 /\
    baseline !! 25%nat = Some 1 /\
    sub flat_spectrum baseline !! 25%nat = Some 2 /\
    corrected !! 25%nat = Some 1 /\
    corrected <> sub flat_spectrum baseline.
Proof.
  split.
  - destruct (airpls_returns_bare_array constant_numerics
                [6; 1; 7; 2] [0; 1; 2; 3] (mkConfig "airpls" 1 3 0.1))
      as (z & Hz & _ & Hun).
    + reflexivity.
    + reflexivity.
    + cbn [length]. lia.
    + exists z. split; assumption.
  - eexists _, _. split; [exact spline_example|].
    assert (Hd : sub flat_spectrum (map (fun _ => 1) flat_spectrum)
                 !! 25%nat = Some 2).
    { erewrite lookup_sub; [|reflexivity|reflexivity]. f_equal. rlra. }
    assert (Hc : map (fun v => v / 2)
                     (sub flat_spectrum (map (fun _ => 1) flat_spectrum))
                 !! 25%nat = Some 1).
    { rewrite list_lookup_fmap, Hd. cbn. f_equal. rlra. }
    split; [reflexivity|]. split; [reflexivity|]. split; [exact Hd|].
    split; [exact Hc|].
    intros E. rewrite E, Hd in Hc. injection Hc as Hc. rlra.
Qed.

Lemma correct_baseline_pair_witness :
  (flat_spectrum <> [] /\ length flat_grid = length flat_spectrum /\
   method (mkConfig "spline" 1 3 0.1) <> "airpls"%string) /\
  exists corrected baseline : list R,
    correct_baseline peak_numerics flat_spectrum flat_grid
                     (mkConfig "spline" 1 3 0.1)
    = Some (Pair corrected baseline) /\
    length baseline = 50%nat.
Proof.
  assert (H1 : flat_spectrum <> []) by discriminate.
  assert (H2 : length flat_grid = length flat_spectrum) by reflexivity.
  assert (H3 : forall a xp fp : list R,
             length (interp peak_numerics a xp fp) = length a)
    by (intros; apply length_map).
  assert (H4 : method (mkConfig "spline" 1 3 0.1) <> "airpls"%string)
    by discriminate.
  assert (H5 : forall (bx by_ : list R) (s : R) (grid : list R),
             (4 <= length bx)%nat -> 0 <= s ->
             univariate_spline peak_numerics bx by_ s grid
             <> SplineFitError).
  { intros bx by_ s grid Hlen _. cbn [univariate_spline peak_numerics].
    now rewrite constant_spline_fits. }
  assert (H6 : method (mkConfig "spline" 1 3 0.1) <> "polynomial"%string ->
             0 <= spline_smoothing (mkConfig "spline" 1 3 0.1) /\
             exists points : list (R * R),
               baseline_points peak_numerics flat_spectrum
                 (spline_grid flat_spectrum flat_grid) = Some points /\
               (4 <= length points)%nat).
  { intros _. split; [cbn [spline_smoothing]; rlra|].
    destruct flat_spectrum_points as (points & Hpts & Hlen).
    exists points. split; [exact Hpts|]. rewrite Hlen. lia. }
  split; [auto|].
  destruct (correct_baseline_pair_polynomial_spline peak_numerics
              flat_spectrum flat_grid (mkConfig "spline" 1 3 0.1)
              H1 H2 H3 H5 H4 H6)
    as (c & b & Hrun & _ & _ & Hs).
  exists c, b. split; [exact Hrun|].
  destruct Hs as [Hlen _]; [discriminate|exact Hlen].
Defined.

End BaselineExamples.

(** ** Normalisation *)

Section NormalizerFacts.
Import Baseline Normalizer.
Local Open Scope R_scope.

Lemma Rneqb_true (a b : R) : a <> b -> Rneqb a b = true.
Proof. intros H. unfold Rneqb. destruct (Req_dec_T a b); [contradiction|reflexivity]. Qed.

Lemma Rneqb_false (a : R) : Rneqb a a = false.
Proof. unfold Rneqb. destruct (Req_dec_T a a); [reflexivity|contradiction]. Qed.

(** [np.min] returns an element of the array that bounds it from below. *)
Lemma fold_Rmin_spec (l : list R) (a : R) :
  (fold_left Rmin l a = a \/ In (fold_left Rmin l a) l) /\
  fold_left Rmin l a <= a /\
  Forall (fun v => fold_left Rmin l a <= v) l.
Proof.
  revert a. induction l as [|b l IH]; intros a; simpl.
  - split; [now left|]. split; [rlra|constructor].
  - destruct (IH (Rmin a b)) as (Hin & Hle & Hall).
    pose proof (Rmin_l a b). pose proof (Rmin_r a b).
    split; [|split; [rlra|constructor; [rlra|exact Hall]]].
    destruct Hin as [Heq|Hin]; [|now right; right].
    rewrite Heq. unfold Rmin. destruct (Rle_dec a b); [now left|right; now left].
Qed.

Lemma fold_Rmax_spec (l : list R) (a : R) :
  (fold_left Rmax l a = a \/ In (fold_left Rmax l a) l) /\
  a <= fold_left Rmax l a /\
  Forall (fun v => v <= fold_left Rmax l a) l.
Proof.
  revert a. induction l as [|b l IH]; intros a; simpl.
  - split; [now left|]. split; [rlra|constructor].
  - destruct (IH (Rmax a b)) as (Hin & Hle & Hall).
    pose proof (Rmax_l a b). pose proof (Rmax_r a b).
    split; [|split; [rlra|constructor; [rlra|exact Hall]]].
    destruct Hin as [Heq|Hin]; [|now right; right].
    rewrite Heq. unfold Rmax. destruct (Rle_dec a b); [right; now left|now left].
Qed.

Lemma np_min_spec (y : list R) (lo : R) :
  np_min y = Some lo -> In lo y /\ Forall (fun v => lo <= v) y.
Proof.
  destruct y as [|a l]; [discriminate|]. intros [= <-].
  destruct (fold_Rmin_spec l a) as (Hin & Hle & Hall).
  split; [destruct Hin as [->|Hin]; [now left|now right]|].
  constructor; assumption.
Qed.

Lemma np_max_spec (y : list R) (hi : R) :
  np_max y = Some hi -> In hi y /\ Forall (fun v => v <= hi) y.
Proof.
  destruct y as [|a l]; [discriminate|]. intros [= <-].
  destruct (fold_Rmax_spec l a) as (Hin & Hle & Hall).
  split; [destruct Hin as [->|Hin]; [now left|now right]|].
  constructor; assumption.
Qed.

Lemma np_min_max_some (y : list R) :
  y <> [] -> exists lo hi, np_min y = Some lo /\ np_max y = Some hi /\ lo <= hi.
Proof.
  destruct y as [|a l]; [contradiction|]. intros _.
  eexists _, _. split; [reflexivity|]. split; [reflexivity|].
  destruct (fold_Rmin_spec l a) as (_ & H1 & _).
  destruct (fold_Rmax_spec l a) as (_ & H2 & _). rlra.
Qed.

(** An array bounded by two of its own elements has them as [np.min] and
    [np.max]. *)
Lemma np_min_unique (y : list R) (lo : R) :
  In lo y -> Forall (fun v => lo <= v) y -> np_min y = Some lo.
Proof.
  intros Hin Hall. destruct y as [|a l]; [contradiction|].
  destruct (np_min_spec (a :: l) _ eq_refl) as [Hin' Hall'].
  simpl. f_equal. rewrite Forall_forall in Hall, Hall'.
  apply Rle_antisym.
  - apply Hall'. now apply list_elem_of_In.
  - apply Hall. now apply list_elem_of_In.
Qed.

Lemma np_max_unique (y : list R) (hi : R) :
  In hi y -> Forall (fun v => v <= hi) y -> np_max y = Some hi.
Proof.
  intros Hin Hall. destruct y as [|a l]; [contradiction|].
  destruct (np_max_spec (a :: l) _ eq_refl) as [Hin' Hall'].
  simpl. f_equal. rewrite Forall_forall in Hall, Hall'.
  apply Rle_antisym.
  - apply Hall. now apply list_elem_of_In.
  - apply Hall'. now apply list_elem_of_In.
Qed.

(** Scaling by [(v - lo) / (hi - lo)] between the minimum and the maximum
    of an array that is not constant. *)
Lemma min_max_scaled (y : list R) (lo hi : R) :
  np_min y = Some lo -> np_max y = Some hi -> lo < hi ->
  let r := map (fun v => (v - lo) / (hi - lo)) y in
  Forall (fun v => 0 <= v <= 1) r /\ np_min r = Some 0 /\ np_max r = Some 1.
Proof.
  intros Hlo Hhi Hlt r.
  destruct (np_min_spec y lo Hlo) as [Hinlo Hge].
  destruct (np_max_spec y hi Hhi) as [Hinhi Hle].
  assert (Hpos : 0 < hi - lo) by rlra.
  assert (Hbounds : Forall (fun v => 0 <= v <= 1) r).
  { subst r. rewrite Forall_forall in *. intros v Hv.
    apply list_elem_of_In, in_map_iff in Hv. destruct Hv as (u & <- & Hu).
    apply list_elem_of_In in Hu. specialize (Hge u Hu). specialize (Hle u Hu).
    split.
    - apply Rmult_le_pos; [rlra|]. left. now apply Rinv_0_lt_compat.
    - apply (Rmult_le_reg_r (hi - lo)); [exact Hpos|].
      unfold Rdiv. rewrite Rmult_assoc, Rinv_l by rlra. rlra. }
  split; [exact Hbounds|]. split.
  - apply np_min_unique.
    + apply in_map_iff. exists lo. split; [|exact Hinlo].
      unfold Rdiv. rewrite Rminus_diag. apply Rmult_0_l.
    + eapply Forall_impl; [exact Hbounds|]. simpl. intros v Hv. rlra.
  - apply np_max_unique.
    + apply in_map_iff. exists hi. split; [|exact Hinhi].
      unfold Rdiv. apply Rinv_r. rlra.
    + eapply Forall_impl; [exact Hbounds|]. simpl. intros v Hv. rlra.
Qed.

(** X1.  Min-max scaling of an array that is not constant: the result has
    the length of the input, every entry lies in [0, 1], an entry equal to
    the minimum becomes 0 and an entry equal to the maximum becomes 1, so
    both ends of the range are attained. *)
Theorem normalize_min_max_range
    (y : list R) (lo hi : R)
    (Hlo : np_min y = Some lo) (Hhi : np_max y = Some hi) (Hlt : lo < hi) :
  exists r : list R,
    normalize_min_max y 1 = Some r /\
    length r = length y /\
    Forall (fun v => 0 <= v <= 1) r /\
    (forall i yi, y !! i = Some yi ->
       r !! i = Some ((yi - lo) / (hi - lo))) /\
    np_min r = Some 0 /\ np_max r = Some 1.
Proof.
  unfold normalize_min_max. rewrite Hlo, Hhi. cbn [mbind option_bind].
  rewrite (Rltb_true lo hi Hlt), Rneqb_false.
  eexists. split; [reflexivity|].
  destruct (min_max_scaled y lo hi Hlo Hhi Hlt) as (Hb & Hmin & Hmax).
  split; [apply length_map|]. split; [exact Hb|]. split; [|split].
  - intros i yi Hi. rewrite list_lookup_fmap, Hi. reflexivity.
  - exact Hmin.
  - exact Hmax.
Qed.

Lemma normalize_min_max_range_witness :
  exists r : list R,
    normalize_min_max [3; 1; 2] 1 = Some r /\
    length r = length [3; 1; 2] /\
    Forall (fun v => 0 <= v <= 1) r /\
    (forall i yi, [3; 1; 2] !! i = Some yi ->
       r !! i = Some ((yi - 1) / (3 - 1))) /\
    np_min r = Some 0 /\ np_max r = Some 1.
Proof.
  apply (normalize_min_max_range [3; 1; 2] 1 3).
  - simpl. f_equal. unfold Rmin.
    repeat (destruct (Rle_dec _ _); try rlra).
  - simpl. f_equal. unfold Rmax.
    repeat (destruct (Rle_dec _ _); try rlra).
  - rlra.
Defined.

Lemma np_min_zeros (y : list R) :
  y <> [] -> np_min (zeros_like y) = Some 0 /\ np_max (zeros_like y) = Some 0.
Proof.
  intros Hy. destruct y as [|a l]; [contradiction|].
  split.
  - apply np_min_unique; [now left|].
    apply Forall_forall. intros v Hv. apply list_elem_of_In, in_map_iff in Hv.
    destruct Hv as (u & <- & _). rlra.
  - apply np_max_unique; [now left|].
    apply Forall_forall. intros v Hv. apply list_elem_of_In, in_map_iff in Hv.
    destruct Hv as (u & <- & _). rlra.
Qed.

Lemma zeros_like_zeros (y : list R) : zeros_like (zeros_like y) = zeros_like y.
Proof. unfold zeros_like. rewrite map_map. reflexivity. Qed.

(** X2.  Min-max scaling is idempotent and never fails on a non-empty
    array: whatever it returns is returned unchanged when scaled again. An
    empty array is the only input it fails on, and an array whose entries
    are all equal comes back as zeros. *)
Theorem normalize_min_max_idempotent (y : list R) :
  (normalize_min_max y 1 = None <-> y = []) /\
  (forall r, normalize_min_max y 1 = Some r ->
     length r = length y /\ normalize_min_max r 1 = Some r) /\
  (forall c, y <> [] -> Forall (fun v => v = c) y ->
     normalize_min_max y 1 = Some (zeros_like y)).
Proof.
  split; [|split].
  - split.
    + destruct y as [|a l]; [reflexivity|].
      unfold normalize_min_max. simpl.
      destruct (Rltb _ _); [rewrite Rneqb_false|]; discriminate.
    + intros ->. reflexivity.
  - intros r Hr.
    assert (Hy : y <> []) by (intros ->; discriminate).
    destruct (np_min_max_some y Hy) as (lo & hi & Hlo & Hhi & Hle).
    destruct (Rle_lt_or_eq_dec lo hi Hle) as [Hlt|Heq].
    + destruct (min_max_scaled _ _ _ Hlo Hhi Hlt) as (_ & Hmin & Hmax).
      unfold normalize_min_max in Hr. rewrite Hlo, Hhi in Hr.
      cbn [mbind option_bind] in Hr.
      rewrite (Rltb_true lo hi Hlt), Rneqb_false in Hr. injection Hr as Hr.
      cbv zeta in Hmin, Hmax. rewrite Hr in Hmin, Hmax.
      split; [rewrite <- Hr; apply length_map|].
      unfold normalize_min_max. rewrite Hmin, Hmax. cbn [mbind option_bind].
      rewrite (Rltb_true 0 1) by rlra. rewrite Rneqb_false.
      f_equal. rewrite <- (map_id r) at 2. apply map_ext.
      intros v. unfold Rdiv. rewrite !Rminus_0_r, Rinv_1. apply Rmult_1_r.
    + unfold normalize_min_max in Hr. rewrite Hlo, Hhi in Hr.
      cbn [mbind option_bind] in Hr.
      rewrite (Rltb_false lo hi) in Hr by rlra. injection Hr as <-.
      split; [apply length_map|].
      destruct (np_min_zeros y Hy) as [Hz1 Hz2].
      unfold normalize_min_max. rewrite Hz1, Hz2. cbn [mbind option_bind].
      rewrite (Rltb_false 0 0) by rlra. now rewrite zeros_like_zeros.
  - intros c Hy Hc.
    destruct (np_min_max_some y Hy) as (lo & hi & Hlo & Hhi & Hle).
    destruct (np_min_spec y lo Hlo) as [Hinlo _].
    destruct (np_max_spec y hi Hhi) as [Hinhi _].
    rewrite Forall_forall in Hc.
    assert (lo = c) by (apply Hc; now apply list_elem_of_In).
    assert (hi = c) by (apply Hc; now apply list_elem_of_In).
    unfold normalize_min_max. rewrite Hlo, Hhi. cbn [mbind option_bind].
    rewrite (Rltb_false lo hi) by rlra. reflexivity.
Qed.

Lemma normalize_min_max_idempotent_witness :
  normalize_min_max [5; 5] 1 = Some (zeros_like [5; 5]).
Proof.
  apply (proj2 (proj2 (normalize_min_max_idempotent [5; 5])) 5).
  - discriminate.
  - repeat constructor.
Defined.

Lemma Rsum_nonneg (l : list R) : Forall (fun v => 0 <= v) l -> 0 <= Rsum l.
Proof.
  induction 1 as [|b l Hb Hl IH]; unfold Rsum in *; simpl; rlra.
Qed.

Lemma Rsum_cons (a : R) (l : list R) : Rsum (a :: l) = a + Rsum l.
Proof. reflexivity. Qed.

Lemma Rsum_scale (c : R) (l : list R) :
  Rsum (map (fun v => v * c) l) = Rsum l * c.
Proof.
  induction l as [|a l IH]; [unfold Rsum; simpl; rlra|].
  cbn [map]. rewrite !Rsum_cons, IH. rlra.
Qed.

Lemma Rsum_squares_nonneg (y : list R) : 0 <= Rsum (map (fun v => v * v) y).
Proof.
  apply Rsum_nonneg, Forall_forall. intros v Hv.
  apply list_elem_of_In, in_map_iff in Hv. destruct Hv as (u & <- & _). nra.
Qed.

Lemma Rsum_squares_zero (y : list R) :
  Rsum (map (fun v => v * v) y) = 0 -> Forall (fun v => v = 0) y.
Proof.
  induction y as [|a l IH]; [constructor|].
  cbn [map]. rewrite Rsum_cons. intros H.
  pose proof (Rsum_squares_nonneg l).
  assert (0 <= a * a) by nra.
  constructor; [nra|]. apply IH. rlra.
Qed.

(** X3.  Vector normalisation: a spectrum with at least one non-zero entry
    is divided by its Euclidean norm, and the result has Euclidean norm
    exactly 1; a spectrum of zeros (or an empty one) is returned as zeros.
    The length is kept either way. *)
Theorem normalize_vector_unit_norm (y : list R) :
  length (normalize_vector y) = length y /\
  (Exists (fun v => v <> 0) y ->
     sqrt (Rsum (map (fun v => v * v) (normalize_vector y))) = 1 /\
     normalize_vector y =
       map (fun v => v / sqrt (Rsum (map (fun v => v * v) y))) y) /\
  (Forall (fun v => v = 0) y -> normalize_vector y = zeros_like y).
Proof.
  pose proof (Rsum_squares_nonneg y) as Hnn.
  split; [|split].
  - unfold normalize_vector, zeros_like.
    destruct (Rneqb _ _); apply length_map.
  - intros Hex.
    assert (Hpos : 0 < Rsum (map (fun v => v * v) y)).
    { destruct Hnn as [Hlt|Heq]; [exact Hlt|].
      symmetry in Heq. apply Rsum_squares_zero in Heq.
      rewrite Exists_exists in Hex. destruct Hex as (v & Hv & Hne).
      rewrite Forall_forall in Heq. now specialize (Heq v Hv). }
    pose proof (sqrt_lt_R0 _ Hpos) as Hs.
    unfold normalize_vector, norm. rewrite Rneqb_true by rlra.
    split; [|reflexivity].
    rewrite map_map.
    set (n := sqrt _) in *.
    rewrite (map_ext _ (fun v => v * v * (/ n * / n)))
      by (intros v; unfold Rdiv; rlra).
    rewrite <- (map_map (fun v => v * v) (fun v => v * (/ n * / n))).
    rewrite Rsum_scale.
    replace (Rsum (map (fun v => v * v) y)) with (n * n)
      by (apply sqrt_sqrt; rlra).
    replace (n * n * (/ n * / n)) with 1 by (field; rlra).
    apply sqrt_1.
  - intros Hz.
    assert (Hsum : Rsum (map (fun v => v * v) y) = 0).
    { induction Hz as [|a l Ha Hl IH]; [unfold Rsum; simpl; rlra|].
      cbn [map]. rewrite Rsum_cons, IH, Ha; [rlra|apply Rsum_squares_nonneg]. }
    unfold normalize_vector, norm. rewrite Hsum, sqrt_0, Rneqb_false.
    reflexivity.
Qed.

Lemma normalize_vector_unit_norm_witness :
  norm (normalize_vector [3; 4]) = 1.
Proof.
  apply (proj1 (proj2 (normalize_vector_unit_norm [3; 4]))).
  left. rlra.
Defined.

Lemma div_le_1 (v m : R) : 0 < m -> v <= m -> v / m <= 1.
Proof.
  intros Hm Hv. apply (Rmult_le_reg_r m); [exact Hm|].
  unfold Rdiv. rewrite Rmult_assoc, Rinv_l by rlra. rlra.
Qed.

Lemma div_neg_ge_1 (v m : R) : m < 0 -> v <= m -> 1 <= v / m.
Proof.
  intros Hm Hv. replace (v / m) with ((- v) / (- m)) by (field; rlra).
  apply (Rmult_le_reg_r (- m)); [rlra|].
  unfold Rdiv. rewrite Rmult_assoc, Rinv_l by rlra. rlra.
Qed.

(** X4.  Peak normalisation by the maximum [m] of the spectrum. If [m] is
    positive every entry of the result is at most 1 and the maximum of the
    result is 1. If [m] is negative the division reverses the order: every
    entry is at least 1 and 1 is the minimum of the result. If [m] is zero
    the result is all zeros. *)
Theorem normalize_peak_by_maximum (y : list R) (m : R)
    (Hm : np_max y = Some m) :
  exists r : list R,
    normalize_peak y None = Some r /\
    length r = length y /\
    (0 < m -> r = map (fun v => v / m) y /\
              Forall (fun v => v <= 1) r /\ np_max r = Some 1) /\
    (m < 0 -> r = map (fun v => v / m) y /\
              Forall (fun v => 1 <= v) r /\ np_min r = Some 1) /\
    (m = 0 -> r = zeros_like y).
Proof.
  destruct (np_max_spec y m Hm) as [Hin Hle].
  unfold normalize_peak. rewrite Hm. cbn [mbind option_bind].
  destruct (Req_dec_T m 0) as [H0|H0].
  - subst m. rewrite Rneqb_false. eexists. split; [reflexivity|].
    split; [apply length_map|]. repeat split; try rlra.
  - rewrite (Rneqb_true m 0 H0). eexists. split; [reflexivity|].
    split; [apply length_map|]. split; [|split]; [| |contradiction].
    + intros Hpos. split; [reflexivity|].
      assert (Hb : Forall (fun v => v <= 1) (map (fun v => v / m) y)).
      { rewrite Forall_forall in *. intros v Hv.
        apply list_elem_of_In, in_map_iff in Hv. destruct Hv as (u & <- & Hu).
        apply div_le_1; [exact Hpos|]. apply Hle. now apply list_elem_of_In. }
      split; [exact Hb|]. apply np_max_unique; [|exact Hb].
      apply in_map_iff. exists m. split; [field; rlra|exact Hin].
    + intros Hneg. split; [reflexivity|].
      assert (Hb : Forall (fun v => 1 <= v) (map (fun v => v / m) y)).
      { rewrite Forall_forall in *. intros v Hv.
        apply list_elem_of_In, in_map_iff in Hv. destruct Hv as (u & <- & Hu).
        apply div_neg_ge_1; [exact Hneg|]. apply Hle. now apply list_elem_of_In. }
      split; [exact Hb|]. apply np_min_unique; [|exact Hb].
      apply in_map_iff. exists m. split; [field; rlra|exact Hin].
Qed.

Lemma normalize_peak_by_maximum_witness :
  exists r : list R,
    normalize_peak [-4; -2] None = Some r /\
    length r = length [-4; -2] /\
    (0 < -2 -> r = map (fun v => v / -2) [-4; -2] /\
              Forall (fun v => v <= 1) r /\ np_max r = Some 1) /\
    (-2 < 0 -> r = map (fun v => v / -2) [-4; -2] /\
              Forall (fun v => 1 <= v) r /\ np_min r = Some 1) /\
    (-2 = 0 -> r = zeros_like [-4; -2]).
Proof.
  apply (normalize_peak_by_maximum [-4; -2] (-2)).
  simpl. f_equal. unfold Rmax. destruct (Rle_dec _ _); rlra.
Defined.

Lemma item_at_length (y : list R) (i : Z) (p : R) :
  item_at y i = Some p ->
  exists k, (k < length y)%nat /\ y !! k = Some p /\
            forall (f : R -> R), item_at (map f y) i = Some (f p).
Proof.
  unfold item_at. intros H.
  destruct (0 <=? i)%Z eqn:E0.
  - exists (Z.to_nat i). split; [now apply lookup_lt_Some in H|].
    split; [exact H|]. intros f.
    change (map f y) with (f <$> y). now rewrite list_lookup_fmap, H.
  - destruct (- Z.of_nat (length y) <=? i)%Z eqn:E1; [|discriminate].
    exists (Z.to_nat (Z.of_nat (length y) + i)).
    split; [now apply lookup_lt_Some in H|]. split; [exact H|].
    intros f. rewrite length_map, E1.
    change (map f y) with (f <$> y). now rewrite list_lookup_fmap, H.
Qed.

(** X5.  Peak normalisation by a reference sample [y[peak_index]] (Python
    indexing: a negative index counts from the end). An index outside
    [-len(y), len(y)) is an error. Otherwise, when the reference value is
    not zero the result is the spectrum divided by it and its entry at the
    reference index is exactly 1; when the reference value is zero the
    result is all zeros. *)
Theorem normalize_peak_by_reference (y : list R) (i : Z) :
  let n := Z.of_nat (length y) in
  ((i < - n \/ n <= i)%Z -> normalize_peak y (Some i) = None) /\
  ((- n <= i < n)%Z ->
     exists p r, item_at y i = Some p /\
       normalize_peak y (Some i) = Some r /\
       (p <> 0 -> r = map (fun v => v / p) y /\ item_at r i = Some 1) /\
       (p = 0 -> r = zeros_like y)).
Proof.
  intros n. split.
  - intros Hout. unfold normalize_peak, item_at. fold n.
    destruct (0 <=? i)%Z eqn:E0.
    + rewrite lookup_ge_None_2; [reflexivity|]. subst n. lia.
    + destruct (- n <=? i)%Z eqn:E1; [|reflexivity]. lia.
  - intros Hin.
    assert (Hp : exists p, item_at y i = Some p).
    { unfold item_at. fold n. destruct (0 <=? i)%Z eqn:E0.
      - apply lookup_lt_is_Some_2. subst n. lia.
      - destruct (- n <=? i)%Z eqn:E1; [|lia].
        apply lookup_lt_is_Some_2. subst n. lia. }
    destruct Hp as [p Hp]. exists p.
    unfold normalize_peak. rewrite Hp. cbn [mbind option_bind].
    destruct (Req_dec_T p 0) as [H0|H0].
    + subst p. rewrite Rneqb_false. eexists. split; [reflexivity|].
      split; [reflexivity|]. split; [contradiction|reflexivity].
    + rewrite (Rneqb_true p 0 H0). eexists. split; [reflexivity|].
      split; [reflexivity|]. split; [|contradiction].
      intros _. split; [reflexivity|].
      destruct (item_at_length y i p Hp) as (_ & _ & _ & Hf).
      rewrite Hf. f_equal. field. exact H0.
Qed.

Lemma normalize_peak_by_reference_witness :
  normalize_peak [1; 2; 4] (Some 3%Z) = None /\
  exists p r, item_at [1; 2; 4] (-1) = Some p /\
       normalize_peak [1; 2; 4] (Some (-1)%Z) = Some r /\
       (p <> 0 -> r = map (fun v => v / p) [1; 2; 4] /\
                  item_at r (-1) = Some 1) /\
       (p = 0 -> r = zeros_like [1; 2; 4]).
Proof.
  split.
  - apply (proj1 (normalize_peak_by_reference [1; 2; 4] 3)). simpl. lia.
  - apply (proj2 (normalize_peak_by_reference [1; 2; 4] (-1))). simpl. lia.
Defined.

Section Dispatch.

Variable simpson : list R -> option (list R) -> option R.

Lemma normalize_min_max_length (y r : list R) (s : R) :
  normalize_min_max y s = Some r -> length r = length y.
Proof.
  unfold normalize_min_max.
  destruct (np_min y); [|discriminate]. destruct (np_max y); [|discriminate].
  cbn [mbind option_bind]. unfold zeros_like.
  destruct (Rltb _ _); [destruct (Rneqb _ _)|]; intros [= <-];
    now rewrite ?length_map.
Qed.

Lemma normalize_min_max_some (y : list R) (s : R) :
  y <> [] -> is_Some (normalize_min_max y s).
Proof.
  intros Hy. destruct (np_min_max_some y Hy) as (lo & hi & Hlo & Hhi & _).
  unfold normalize_min_max. rewrite Hlo, Hhi. cbn [mbind option_bind].
  destruct (Rltb _ _); [destruct (Rneqb _ _)|]; eexists; reflexivity.
Qed.

Lemma validate_false (m : string) :
  validate_normalization_method m = false ->
  String.eqb m "min_max" = false /\ String.eqb m "area" = false /\
  String.eqb m "peak" = false /\ String.eqb m "vector" = false /\
  String.eqb m "none" = false.
Proof.
  unfold validate_normalization_method, get_available_normalization_methods.
  cbn [existsb]. rewrite !orb_false_iff. tauto.
Qed.

(** X6.  The dispatcher [normalize_spectrum]. Whatever the method name, a
    result has the length of the input. A name that
    [validate_normalization_method] rejects is not an error: the spectrum
    is min-max scaled. The method "none" returns the spectrum as it is.
    On a non-empty spectrum every method other than "area" (whose
    integrator may raise) returns a result. *)
Theorem normalize_spectrum_dispatch
    (y : list R) (x : option (list R)) (method : string) :
  (forall r, normalize_spectrum simpson y x method = Some r ->
     length r = length y) /\
  (validate_normalization_method method = false ->
     normalize_spectrum simpson y x method = normalize_min_max y 1) /\
  normalize_spectrum simpson y x "none" = Some y /\
  (y <> [] -> method <> "area"%string ->
     is_Some (normalize_spectrum simpson y x method)).
Proof.
  split; [|split; [|split]].
  - intros r. unfold normalize_spectrum.
    destruct (String.eqb method "min_max");
      [apply normalize_min_max_length|].
    destruct (String.eqb method "area").
    { unfold normalize_area. destruct (simpson y x); [|discriminate].
      cbn [mbind option_bind]. unfold zeros_like.
      destruct (Rneqb _ _); intros [= <-]; apply length_map. }
    destruct (String.eqb method "peak").
    { unfold normalize_peak. destruct (np_max y); [|discriminate].
      cbn [mbind option_bind]. unfold zeros_like.
      destruct (Rneqb _ _); intros [= <-]; apply length_map. }
    destruct (String.eqb method "vector").
    { intros [= <-]. unfold normalize_vector, zeros_like.
      destruct (Rneqb _ _); apply length_map. }
    destruct (String.eqb method "none"); [now intros [= <-]|].
    apply normalize_min_max_length.
  - intros Hv. apply validate_false in Hv.
    destruct Hv as (H1 & H2 & H3 & H4 & H5).
    unfold normalize_spectrum. now rewrite H1, H2, H3, H4, H5.
  - reflexivity.
  - intros Hy Harea. unfold normalize_spectrum.
    destruct (String.eqb method "min_max");
      [now apply normalize_min_max_some|].
    destruct (String.eqb_spec method "area"); [contradiction|].
    destruct (String.eqb method "peak").
    { destruct (np_min_max_some y Hy) as (lo & hi & _ & Hhi & _).
      unfold normalize_peak. rewrite Hhi. cbn [mbind option_bind].
      destruct (Rneqb _ _); eexists; reflexivity. }
    destruct (String.eqb method "vector"); [eexists; reflexivity|].
    destruct (String.eqb method "none"); [eexists; reflexivity|].
    now apply normalize_min_max_some.
Qed.

(** X7.  Area normalisation divides by the absolute value of the
    integral, so for an integrator that is homogeneous (scaling the
    intensities by a positive factor scales the integral by it, as every
    quadrature rule does) the normalised spectrum integrates to 1 when the
    area is positive and to -1, not 1, when it is negative; a zero area
    gives a spectrum of zeros. *)
Theorem normalize_area_unit_area
    (y : list R) (x : option (list R)) (area : R)
    (Hhom : forall c, 0 < c ->
       simpson (map (fun v => v / c) y) x = Some (area / c))
    (Harea : simpson y x = Some area) :
  exists r : list R,
    normalize_area simpson y x = Some r /\
    (0 < area -> simpson r x = Some 1) /\
    (area < 0 -> simpson r x = Some (-1)) /\
    (area = 0 -> r = zeros_like y).
Proof.
  unfold normalize_area. rewrite Harea. cbn [mbind option_bind].
  destruct (Req_dec_T area 0) as [H0|H0].
  - subst area. rewrite Rneqb_false. eexists. split; [reflexivity|].
    repeat split; intros; rlra.
  - rewrite (Rneqb_true area 0 H0). eexists. split; [reflexivity|].
    assert (Habs : 0 < Rabs area) by now apply Rabs_pos_lt.
    split; [|split]; [| |contradiction].
    + intros Hpos. rewrite (Hhom _ Habs). f_equal.
      rewrite Rabs_right by rlra. field. exact H0.
    + intros Hneg. rewrite (Hhom _ Habs). f_equal.
      rewrite Rabs_left by rlra. field. exact H0.
Qed.

End Dispatch.

Lemma normalize_spectrum_dispatch_witness :
  normalize_spectrum (fun y _ => Some (Rsum y)) [1; 2] None "raw"
    = normalize_min_max [1; 2] 1 /\
  is_Some (normalize_spectrum (fun y _ => Some (Rsum y)) [1; 2] None "peak").
Proof.
  split.
  - apply (proj1 (proj2 (normalize_spectrum_dispatch
                           (fun y _ => Some (Rsum y)) [1; 2] None "raw"))).
    reflexivity.
  - apply (proj2 (proj2 (proj2 (normalize_spectrum_dispatch
                           (fun y _ => Some (Rsum y)) [1; 2] None "peak")))).
    + discriminate.
    + discriminate.
Defined.

Lemma Rsum_div (c : R) (l : list R) :
  Rsum (map (fun v => v / c) l) = Rsum l / c.
Proof. apply Rsum_scale. Qed.

Lemma normalize_area_unit_area_witness :
  exists r : list R,
    normalize_area (fun y _ => Some (Rsum y)) [1; -3] None = Some r /\
    (0 < -2 -> (fun y (_ : option (list R)) => Some (Rsum y)) r None = Some 1) /\
    (-2 < 0 -> (fun y (_ : option (list R)) => Some (Rsum y)) r None
                 = Some (-1)) /\
    (-2 = 0 -> r = zeros_like [1; -3]).
Proof.
  apply (normalize_area_unit_area (fun y _ => Some (Rsum y)) [1; -3] None (-2)).
  - intros c Hc. rewrite Rsum_div. f_equal. unfold Rsum. simpl. field. rlra.
  - unfold Rsum. simpl. f_equal. rlra.
Defined.

Lemma string_app_inv_head (b s t : string) :
  (b ++ s = b ++ t)%string -> s = t.
Proof.
  induction b as [|c b IH]; simpl; [trivial|]. intros [= H]. now apply IH.
Qed.

(** X8.  Output file names. For the five methods that
    [validate_normalization_method] accepts, two different methods never
    give the same file name (same base name and extension), so the files
    of a multi-normalisation run do not overwrite each other. This is
    limited to those five: the name "raw" gets the file name of "none". *)
Theorem output_filenames_distinct (base_filename file_type : string) :
  (forall m1 m2,
     validate_normalization_method m1 = true ->
     validate_normalization_method m2 = true ->
     m1 <> m2 ->
     generate_output_filename_with_suffix base_filename m1 file_type <>
     generate_output_filename_with_suffix base_filename m2 file_type) /\
  generate_output_filename_with_suffix base_filename "raw" file_type =
  generate_output_filename_with_suffix base_filename "none" file_type.
Proof.
  split; [|reflexivity].
  intros m1 m2 H1 H2 Hne Heq.
  unfold validate_normalization_method, get_available_normalization_methods
    in H1, H2.
  cbn [existsb] in H1, H2. rewrite !orb_true_iff in H1, H2.
  unfold generate_output_filename_with_suffix in Heq.
  apply string_app_inv_head in Heq.
  repeat match goal with
         | H : _ \/ _ |- _ => destruct H as [H|H]
         | H : String.eqb _ _ = true |- _ => apply String.eqb_eq in H; subst
         | H : false = true |- _ => discriminate H
         end; try (now apply Hne); simpl in Heq; discriminate Heq.
Qed.

Lemma output_filenames_distinct_witness :
  generate_output_filename_with_suffix "s1" "area" "csv" <>
  generate_output_filename_with_suffix "s1" "peak" "csv".
Proof.
  apply (proj1 (output_filenames_distinct "s1" "csv") "area" "peak");
    [reflexivity|reflexivity|discriminate].
Defined.

End NormalizerFacts.

(** ** Savitzky-Golay smoothing *)

Section SmootherFacts.
Import Baseline Smoother.
Local Open Scope R_scope.

(** X9.  The window the smoother passes to the Savitzky-Golay filter. For
    an array of at least 3 samples, a requested window of at least 1 and a
    polynomial order of at least 0, the window is odd, at least 1, shorter
    than the array and at most one more than requested, and the order is
    at least 0 and below the window: the filter's requirements hold. An
    even request that fits is rounded up, not down. *)
Theorem adjust_window_valid (n window_length polyorder : Z)
    (Hn : (3 <= n)%Z) (Hw : (1 <= window_length)%Z)
    (Hp : (0 <= polyorder)%Z) :
  let wp := adjust_window n window_length polyorder in
  (wp.1 mod 2 = 1)%Z /\ (1 <= wp.1 < n)%Z /\
  (wp.1 <= window_length + 1)%Z /\
  (0 <= wp.2 < wp.1)%Z /\ (wp.2 <= polyorder)%Z /\
  ((window_length mod 2 = 0)%Z -> (window_length + 1 < n)%Z ->
     wp.1 = (window_length + 1)%Z).
Proof.
  unfold adjust_window. cbn zeta.
  destruct (window_length mod 2 =? 0)%Z eqn:Ew;
  [apply Z.eqb_eq in Ew|apply Z.eqb_neq in Ew].
  - destruct (window_length + 1 >=? n)%Z eqn:En;
    [|destruct (polyorder >=? window_length + 1)%Z eqn:Epo;
      cbn [fst snd]; repeat split; try lia;
      rewrite Z.add_mod, Ew by lia; reflexivity].
    destruct (Z.min (n - 2) 11 mod 2 =? 0)%Z eqn:Em;
    [apply Z.eqb_eq in Em|apply Z.eqb_neq in Em].
    + destruct (polyorder >=? Z.min (n - 2) 11 - 1)%Z eqn:Epo;
        cbn [fst snd]; repeat split; try lia.
      all: try (rewrite Zminus_mod, Em by lia; reflexivity).
      all: assert (Z.min (n - 2) 11 <> 1)%Z
             by (intros E1; rewrite E1 in Em; discriminate); lia.
    + pose proof (Z.mod_pos_bound (Z.min (n - 2) 11) 2 ltac:(lia)).
      destruct (polyorder >=? Z.min (n - 2) 11)%Z eqn:Epo;
        cbn [fst snd]; repeat split; lia.
  - pose proof (Z.mod_pos_bound window_length 2 ltac:(lia)).
    destruct (window_length >=? n)%Z eqn:En;
    [|destruct (polyorder >=? window_length)%Z eqn:Epo;
      cbn [fst snd]; repeat split; lia].
    destruct (Z.min (n - 2) 11 mod 2 =? 0)%Z eqn:Em;
    [apply Z.eqb_eq in Em|apply Z.eqb_neq in Em].
    + destruct (polyorder >=? Z.min (n - 2) 11 - 1)%Z eqn:Epo;
        cbn [fst snd]; repeat split; try lia.
      all: try (rewrite Zminus_mod, Em by lia; reflexivity).
      all: assert (Z.min (n - 2) 11 <> 1)%Z
             by (intros E1; rewrite E1 in Em; discriminate); lia.
    + pose proof (Z.mod_pos_bound (Z.min (n - 2) 11) 2 ltac:(lia)).
      destruct (polyorder >=? Z.min (n - 2) 11)%Z eqn:Epo;
        cbn [fst snd]; repeat split; lia.
Qed.

Lemma adjust_window_valid_witness :
  let wp := adjust_window 8 10 3 in
  (wp.1 mod 2 = 1)%Z /\ (1 <= wp.1 < 8)%Z /\
  (wp.1 <= 10 + 1)%Z /\
  (0 <= wp.2 < wp.1)%Z /\ (wp.2 <= 3)%Z /\
  ((10 mod 2 = 0)%Z -> (10 + 1 < 8)%Z -> wp.1 = (10 + 1)%Z).
Proof. apply (adjust_window_valid 8 10 3); lia. Defined.

(** X10.  Arrays of fewer than 3 samples. When the requested window does
    not fit (it is at least the array length after being made odd) the
    fallback [min(len(y) - 2, 11)] is not positive, and the window handed
    to the filter is negative: -1 for one or two samples, -3 for none. *)
Theorem adjust_window_short_array (n window_length polyorder : Z)
    (Hn : (0 <= n <= 2)%Z) (Hw : (2 <= window_length)%Z) :
  let wp := adjust_window n window_length polyorder in
  (wp.1 = if (n =? 0)%Z then -3 else -1)%Z /\
  ((0 <= polyorder)%Z -> wp.2 = (wp.1 - 1)%Z).
Proof.
  unfold adjust_window. cbn zeta.
  assert (Hm : ((if (Z.min (n - 2) 11 mod 2 =? 0)
                 then Z.min (n - 2) 11 - 1 else Z.min (n - 2) 11)
                = if (n =? 0) then -3 else -1)%Z).
  { assert (Hc : n = 0%Z \/ n = 1%Z \/ n = 2%Z) by lia.
    destruct Hc as [-> | [-> | ->]]; reflexivity. }
  assert (Hfit : (((if (window_length mod 2 =? 0)
                    then window_length + 1 else window_length) >=? n)
                  = true)%Z).
  { destruct (window_length mod 2 =? 0)%Z; lia. }
  rewrite Hfit, Hm. cbn [fst snd].
  split; [reflexivity|]. intros Hp.
  destruct (polyorder >=? _)%Z eqn:E; [reflexivity|].
  destruct (n =? 0)%Z; lia.
Qed.

Lemma adjust_window_short_array_witness :
  let wp := adjust_window 2 11 3 in
  (wp.1 = if (2 =? 0)%Z then -3 else -1)%Z /\
  ((0 <= 3)%Z -> wp.2 = (wp.1 - 1)%Z).
Proof. apply (adjust_window_short_array 2 11 3); lia. Defined.


Section Filter.

Variable savgol_filter : list R -> Z -> Z -> option (list R).

(** X11.  What the smoother returns. The result has the length of the
    filter's output and no negative entry. If the filter's output has no
    negative value it is returned as it is, without rescaling. If it has
    one, the output is shifted so that its minimum is 0 and, unless it is
    constant, divided by its maximum: the result then lies in [0, 1] with
    minimum 0 and maximum 1. *)
Theorem apply_savitzky_golay_range
    (y r : list R) (window_length polyorder : Z)
    (Hr : apply_savitzky_golay savgol_filter y window_length polyorder
          = Some r) :
  let wp := adjust_window (Z.of_nat (length y)) window_length polyorder in
  exists y_filtered lo hi,
    savgol_filter y wp.1 wp.2 = Some y_filtered /\
    np_min y_filtered = Some lo /\ np_max y_filtered = Some hi /\
    length r = length y_filtered /\
    Forall (fun v => 0 <= v) r /\
    (0 <= lo -> r = y_filtered) /\
    (lo < 0 -> Forall (fun v => v <= 1) r /\ np_min r = Some 0 /\
               (lo < hi -> np_max r = Some 1 /\
                  r = map (fun v => (v - lo) / (hi - lo)) y_filtered) /\
               (lo = hi -> r = map (fun _ => 0) y_filtered)).
Proof.
  intros wp. unfold apply_savitzky_golay in Hr. fold wp in Hr.
  destruct (savgol_filter y wp.1 wp.2) as [yf|]; [|discriminate].
  cbn [mbind option_bind] in Hr.
  destruct (np_min yf) as [lo|] eqn:Hlo; [|discriminate].
  cbn [mbind option_bind] in Hr.
  assert (Hne : yf <> []) by (intros ->; discriminate).
  destruct (np_min_max_some yf Hne) as (lo' & hi & Hlo' & Hhi & Hle).
  rewrite Hlo in Hlo'. injection Hlo' as <-.
  destruct (np_min_spec yf lo Hlo) as [Hinlo Hge].
  destruct (np_max_spec yf hi Hhi) as [Hinhi Hlehi].
  exists yf, lo, hi. split; [reflexivity|]. split; [exact Hlo|].
  split; [exact Hhi|].
  destruct (Rlt_dec lo 0) as [Hneg|Hnn].
  - rewrite (Rltb_true lo 0 Hneg) in Hr.
    assert (Hmax1 : np_max (map (fun v => v - lo) yf) = Some (hi - lo)).
    { apply np_max_unique.
      - apply in_map_iff. exists hi. split; [reflexivity|exact Hinhi].
      - rewrite Forall_forall in *. intros v Hv.
        apply list_elem_of_In, in_map_iff in Hv. destruct Hv as (u & <- & Hu).
        apply list_elem_of_In in Hu. specialize (Hlehi u Hu). rlra. }
    rewrite Hmax1 in Hr. cbn [mbind option_bind] in Hr.
    destruct (Rle_lt_or_eq_dec lo hi Hle) as [Hlt|Heq].
    + rewrite (Rltb_true 0 (hi - lo)) in Hr by rlra. injection Hr as <-.
      rewrite map_map.
      destruct (min_max_scaled yf lo hi Hlo Hhi Hlt) as (Hb & Hmin & Hmax).
      split; [apply length_map|].
      split; [eapply Forall_impl; [exact Hb|]; simpl; intros; rlra|].
      split; [intros; rlra|]. intros _.
      split; [eapply Forall_impl; [exact Hb|]; simpl; intros; rlra|].
      split; [exact Hmin|]. split; [|intros; rlra].
      intros _. split; [exact Hmax|reflexivity].
    + rewrite (Rltb_false 0 (hi - lo)) in Hr by rlra. injection Hr as <-.
      assert (Hz : map (fun v => v - lo) yf = map (fun _ => 0) yf).
      { apply map_ext_in. intros v Hv. rewrite Forall_forall in *.
        apply list_elem_of_In in Hv. specialize (Hge v Hv).
        specialize (Hlehi v Hv). rlra. }
      rewrite Hz. split; [apply length_map|].
      assert (Hall : Forall (fun v => v = 0) (map (fun _ : R => 0) yf)).
      { apply Forall_forall. intros v Hv.
        apply list_elem_of_In, in_map_iff in Hv. now destruct Hv as (u & <- & _). }
      split; [eapply Forall_impl; [exact Hall|]; simpl; intros; rlra|].
      split; [intros; rlra|]. intros _.
      split; [eapply Forall_impl; [exact Hall|]; simpl; intros; rlra|].
      split; [|split; [intros; rlra|reflexivity]].
      apply (np_min_zeros yf Hne).
  - rewrite (Rltb_false lo 0) in Hr by rlra. injection Hr as <-.
    split; [reflexivity|].
    split; [eapply Forall_impl; [exact Hge|]; simpl; intros; rlra|].
    split; [reflexivity|]. intros; rlra.
Qed.

End Filter.

Lemma apply_savitzky_golay_range_witness :
  exists y_filtered lo hi,
    (fun (y : list R) (_ _ : Z) => Some (map (fun v => v - 1) y))
      [0; 2; 1] (adjust_window 3 5 3).1 (adjust_window 3 5 3).2
      = Some y_filtered /\
    np_min y_filtered = Some lo /\ np_max y_filtered = Some hi /\
    length [0; 1; 1 / 2] = length y_filtered /\
    Forall (fun v => 0 <= v) [0; 1; 1 / 2] /\
    (0 <= lo -> [0; 1; 1 / 2] = y_filtered) /\
    (lo < 0 -> Forall (fun v => v <= 1) [0; 1; 1 / 2] /\
               np_min [0; 1; 1 / 2] = Some 0 /\
               (lo < hi -> np_max [0; 1; 1 / 2] = Some 1 /\
                  [0; 1; 1 / 2]
                  = map (fun v => (v - lo) / (hi - lo)) y_filtered) /\
               (lo = hi -> [0; 1; 1 / 2] = map (fun _ => 0) y_filtered)).
Proof.
  apply (apply_savitzky_golay_range
           (fun y _ _ => Some (map (fun v => v - 1) y)) [0; 2; 1]
           [0; 1; 1 / 2] 5 3).
  unfold apply_savitzky_golay. cbn [mbind option_bind map np_min fold_left].
  assert (Hlo : Rmin (Rmin (0 - 1) (2 - 1)) (1 - 1) = -1).
  { unfold Rmin. repeat (destruct (Rle_dec _ _); try rlra). }
  rewrite Hlo. rewrite (Rltb_true (-1) 0) by rlra.
  cbn [np_max fold_left].
  assert (Hhi : Rmax (Rmax (0 - 1 - -1) (2 - 1 - -1)) (1 - 1 - -1) = 2).
  { unfold Rmax. repeat (destruct (Rle_dec _ _); try rlra). }
  rewrite Hhi. cbn [mbind option_bind]. rewrite (Rltb_true 0 2) by rlra.
  f_equal. repeat (apply (f_equal2 cons); [field|]). reflexivity.
Defined.

End SmootherFacts.

(** ** Peak widths *)

Section WidthsFacts.
Import Fitter Widths.
Local Open Scope Q_scope.

Lemma Qabs_cases (a : Q) : (0 <= a /\ Qabs a == a) \/ (a < 0 /\ Qabs a == - a).
Proof.
  destruct (Qlt_le_dec a 0) as [H|H].
  - right. split; [exact H|]. apply Qabs_neg. qlra.
  - left. split; [exact H|]. now apply Qabs_pos.
Qed.

(** The two positions [peak_bounds] returns bracket the peak and are as
    far apart as the two interpolated positions. *)
Lemma peak_bounds_spec (x0 dx peak_pos left_ip right_ip : Q) :
  let b := peak_bounds x0 dx peak_pos left_ip right_ip in
  b.1 <= peak_pos /\ peak_pos <= b.2 /\
  b.2 - b.1 == Qabs ((right_ip - left_ip) * dx).
Proof.
  unfold peak_bounds. cbv zeta.
  destruct (Qabs_cases ((right_ip - left_ip) * dx)) as [[Hs Ha]|[Hs Ha]];
    rewrite Ha; clear Ha;
    destruct (Qltb (x0 + right_ip * dx) (x0 + left_ip * dx)) eqn:Esw;
    match goal with
    | |- context [Qltb ?a ?b || Qltb ?c ?d] =>
        destruct (Qltb a b) eqn:E1; destruct (Qltb c d) eqn:E2
    end; cbn [orb fst snd]; order_facts;
    unfold Qdiv; change (/ 2) with (1 # 2);
    repeat split; try qlra.
Qed.

Lemma positions_loop_spec (x : list Q) (x0 dx : Q) (lips rips : list Q)
    (peaks : list nat) :
  forall (i : nat) (pos : list (Q * Q)),
  positions_loop x x0 dx lips rips i peaks = Some pos ->
  length pos = length peaks /\
  forall k pk, peaks !! k = Some pk ->
    exists peak_pos left_ip right_ip,
      x !! pk = Some peak_pos /\
      lips !! (i + k)%nat = Some left_ip /\
      rips !! (i + k)%nat = Some right_ip /\
      pos !! k = Some (peak_bounds x0 dx peak_pos left_ip right_ip).
Proof.
  induction peaks as [|p rest IH]; intros i pos H; simpl in H.
  - injection H as <-. split; [reflexivity|]. intros k pk Hk.
    rewrite lookup_nil in Hk. discriminate.
  - destruct (x !! p) as [pp|] eqn:Hpp; [|discriminate].
    destruct (lips !! i) as [lip|] eqn:Hlip; [|discriminate].
    destruct (rips !! i) as [rip|] eqn:Hrip; [|discriminate].
    cbn [mbind option_bind] in H.
    destruct (positions_loop x x0 dx lips rips (S i) rest) as [tl|] eqn:Htl;
      [|discriminate].
    cbn [mbind option_bind] in H. injection H as <-.
    destruct (IH (S i) tl Htl) as [Hlen Hall].
    split; [simpl; now rewrite Hlen|].
    intros [|k] pk Hk; simpl in Hk.
    + injection Hk as <-. exists pp, lip, rip.
      rewrite Nat.add_0_r. repeat split; assumption.
    + destruct (Hall k pk Hk) as (pp' & l' & r' & H1 & H2 & H3 & H4).
      exists pp', l', r'. replace (i + S k)%nat with (S i + k)%nat by lia.
      repeat split; assumption.
Qed.

Section Fwhm.

Variable peak_widths : list Q -> list nat -> option widths.

Lemma calculate_fwhm_inv (x y : list Q) (peaks_indices : list nat)
    (fwhm_values left_positions right_positions : list Q) :
  calculate_fwhm peak_widths x y peaks_indices
    = Some (fwhm_values, left_positions, right_positions) ->
  exists w dx x0 pos,
    peak_widths y peaks_indices = Some w /\
    mean_diff x = Some dx /\
    positions_loop x x0 dx (left_ips w) (right_ips w) 0 peaks_indices
      = Some pos /\
    fwhm_values = map (fun width => Qabs (width * dx)) (widths_half w) /\
    left_positions = map fst pos /\ right_positions = map snd pos.
Proof.
  unfold calculate_fwhm. intros H.
  destruct (peak_widths y peaks_indices) as [w|] eqn:Hw; [|discriminate].
  cbn [mbind option_bind] in H.
  destruct (mean_diff x) as [dx|] eqn:Hdx; [|discriminate].
  cbn [mbind option_bind] in H.
  destruct (x !! 0%nat) as [x0|] eqn:Hx0; [|discriminate].
  cbn [mbind option_bind] in H.
  destruct (positions_loop x x0 dx (left_ips w) (right_ips w) 0 peaks_indices)
    as [pos|] eqn:Hpos; [|discriminate].
  cbn [mbind option_bind] in H. injection H as <- <- <-.
  exists w, dx, x0, pos. repeat split; assumption.
Qed.

(** X12.  The half-maximum positions [calculate_fwhm] returns. When it
    returns, there is one pair of positions per peak, each pair brackets
    the wavenumber of its peak (left <= x[peak] <= right) and the two are
    exactly [|right_ip - left_ip| * |dx|] apart, whether or not the
    positions had to be swapped or re-centred on the peak; the FWHM values
    are [|width * dx|]. *)
Theorem calculate_fwhm_brackets_peak
    (x y : list Q) (peaks_indices : list nat)
    (fwhm_values left_positions right_positions : list Q)
    (H : calculate_fwhm peak_widths x y peaks_indices
         = Some (fwhm_values, left_positions, right_positions)) :
  exists w dx,
    peak_widths y peaks_indices = Some w /\
    mean_diff x = Some dx /\
    fwhm_values = map (fun width => Qabs (width * dx)) (widths_half w) /\
    length left_positions = length peaks_indices /\
    length right_positions = length peaks_indices /\
    forall i peak_idx, peaks_indices !! i = Some peak_idx ->
      exists peak_pos left_ip right_ip left_pos right_pos,
        x !! peak_idx = Some peak_pos /\
        left_ips w !! i = Some left_ip /\
        right_ips w !! i = Some right_ip /\
        left_positions !! i = Some left_pos /\
        right_positions !! i = Some right_pos /\
        left_pos <= peak_pos /\ peak_pos <= right_pos /\
        right_pos - left_pos == Qabs ((right_ip - left_ip) * dx).
Proof.
  destruct (calculate_fwhm_inv _ _ _ _ _ _ H)
    as (w & dx & x0 & pos & Hw & Hdx & Hpos & -> & -> & ->).
  destruct (positions_loop_spec _ _ _ _ _ _ _ _ Hpos) as [Hlen Hall].
  exists w, dx. split; [exact Hw|]. split; [exact Hdx|].
  split; [reflexivity|]. rewrite !length_map.
  split; [exact Hlen|]. split; [exact Hlen|].
  intros i pk Hi.
  destruct (Hall i pk Hi) as (pp & lip & rip & H1 & H2 & H3 & H4).
  simpl in H2, H3.
  destruct (peak_bounds_spec x0 dx pp lip rip) as (B1 & B2 & B3).
  exists pp, lip, rip, (peak_bounds x0 dx pp lip rip).1,
         (peak_bounds x0 dx pp lip rip).2.
  change (map fst pos) with (fst <$> pos).
  change (map snd pos) with (snd <$> pos).
  rewrite !list_lookup_fmap, H4. repeat split; assumption.
Qed.

(** X14.  [calculate_fwhm] followed by [fit_gaussian_profiles], as
    [process_file] chains them. With the positions [calculate_fwhm]
    returns, the sample of every peak lies inside its own fit window, so
    the window is never empty; the initial centre [x[peak]] lies between
    the centre bounds [min(x_fit)] and [max(x_fit)], and the initial width
    [width / 2.355] lies between the sigma bounds 0 and [width]. *)
Theorem fit_window_holds_peak
    (x y : list Q) (peaks_indices : list nat)
    (fwhm_values left_positions right_positions : list Q)
    (H : calculate_fwhm peak_widths x y peaks_indices
         = Some (fwhm_values, left_positions, right_positions)) :
  forall i peak_idx, peaks_indices !! i = Some peak_idx ->
    exists x_peak left_pos right_pos,
      x !! peak_idx = Some x_peak /\
      left_positions !! i = Some left_pos /\
      right_positions !! i = Some right_pos /\
      let width := right_pos - left_pos in
      let w := window x left_pos right_pos in
      let x_fit := List.filter (fit_mask w) x in
      fit_mask w x_peak = true /\ In x_peak x_fit /\
      seq_min 0 x_fit <= x_peak /\ x_peak <= seq_max 0 x_fit /\
      0 <= width / 2.355 /\ width / 2.355 <= width.
Proof.
  destruct (calculate_fwhm_inv _ _ _ _ _ _ H)
    as (w0 & dx & x0 & pos & Hw & Hdx & Hpos & -> & -> & ->).
  destruct (positions_loop_spec _ _ _ _ _ _ _ _ Hpos) as [Hlen Hall].
  intros i pk Hi.
  destruct (Hall i pk Hi) as (x_peak & lip & rip & Hpeak & _ & _ & H4).
  destruct (peak_bounds_spec x0 dx x_peak lip rip) as (Hl & Hr & _).
  set (left_pos := (peak_bounds x0 dx x_peak lip rip).1) in *.
  set (right_pos := (peak_bounds x0 dx x_peak lip rip).2) in *.
  exists x_peak, left_pos, right_pos.
  change (map fst pos) with (fst <$> pos).
  change (map snd pos) with (snd <$> pos).
  rewrite !list_lookup_fmap, H4.
  split; [exact Hpeak|]. split; [reflexivity|]. split; [reflexivity|].
  intros width w x_fit.
  assert (Hin : In x_peak x).
  { apply list_elem_of_In. eapply list_elem_of_lookup_2. exact Hpeak. }
  pose proof (seq_min_max_bounds x) as Hb. rewrite Forall_forall in Hb.
  destruct (Hb x_peak ltac:(now apply list_elem_of_In)) as [Hmin Hmax].
  assert (Hmask : fit_mask w x_peak = true).
  { unfold fit_mask, w, window. cbn [fst snd].
    apply andb_true_iff. split; apply Qleb_true.
    - apply Q.max_lub; [exact Hmin|]. qlra.
    - apply Q.min_glb; [exact Hmax|]. qlra. }
  assert (Hfit : In x_peak x_fit).
  { apply filter_In. split; assumption. }
  pose proof (seq_min_max_bounds x_fit) as Hb'. rewrite Forall_forall in Hb'.
  destruct (Hb' x_peak ltac:(now apply list_elem_of_In)) as [Hmin' Hmax'].
  repeat split; try assumption.
  - unfold Qdiv. change (/ 2.355) with (1000 # 2355). subst width. qlra.
  - unfold Qdiv. change (/ 2.355) with (1000 # 2355). subst width. qlra.
Qed.

End Fwhm.

Lemma calculate_fwhm_brackets_peak_witness :
  exists w dx,
    (fun (_ : list Q) (_ : list nat) =>
       Some (mkWidths [2] [1 # 2] [7 # 2] [3 # 2]))
      [0; 1; 3; 1; 0] [2%nat] = Some w /\
    mean_diff [10; 12; 14; 16; 18] = Some dx /\
    [16 # 4] = map (fun width => Qabs (width * dx)) (widths_half w) /\
    length [104 # 8] = length [2%nat] /\
    length [136 # 8] = length [2%nat] /\
    forall i peak_idx, [2%nat] !! i = Some peak_idx ->
      exists peak_pos left_ip right_ip left_pos right_pos,
        [10; 12; 14; 16; 18] !! peak_idx = Some peak_pos /\
        left_ips w !! i = Some left_ip /\
        right_ips w !! i = Some right_ip /\
        [104 # 8] !! i = Some left_pos /\
        [136 # 8] !! i = Some right_pos /\
        left_pos <= peak_pos /\ peak_pos <= right_pos /\
        right_pos - left_pos == Qabs ((right_ip - left_ip) * dx).
Proof.
  apply (calculate_fwhm_brackets_peak
           (fun _ _ => Some (mkWidths [2] [1 # 2] [7 # 2] [3 # 2]))
           [10; 12; 14; 16; 18] [0; 1; 3; 1; 0] [2%nat]).
  vm_compute. reflexivity.
Defined.

Lemma Qsum_diff (a : Q) (l : list Q) :
  Qsum (diff (a :: l)) == List.last l a - a.
Proof.
  revert a. induction l as [|b l IH]; intros a.
  - unfold diff, Qsum. simpl. qlra.
  - change (diff (a :: b :: l)) with ((b - a) :: diff (b :: l)).
    change (Qsum ((b - a) :: diff (b :: l)))
      with ((b - a) + Qsum (diff (b :: l))).
    rewrite IH.
    change (List.last (b :: l) a) with
      (match l with [] => b | _ => List.last l a end).
    destruct l as [|c l]; [simpl; qlra|].
    assert (E : forall d, List.last (c :: l) d = List.last (c :: l) b).
    { clear. revert c. induction l as [|e l IH]; intros c d; [reflexivity|].
      change (List.last (c :: e :: l) d) with (List.last (e :: l) d).
      change (List.last (c :: e :: l) b) with (List.last (e :: l) b).
      apply IH. }
    rewrite (E a). qlra.
Qed.

Lemma length_diff (a : Q) (l : list Q) : length (diff (a :: l)) = length l.
Proof.
  unfold diff. cbn [tail]. rewrite length_zip_with. cbn [length]. lia.
Qed.

Lemma lookup_last (l : list Q) (d v : Q) :
  l !! (length l - 1)%nat = Some v -> List.last l d = v.
Proof.
  induction l as [|a l IH]; [discriminate|].
  destruct l as [|b l]; [simpl; congruence|].
  intros H. change (List.last (a :: b :: l) d) with (List.last (b :: l) d).
  apply IH. replace (length (a :: b :: l) - 1)%nat
    with (S (length (b :: l) - 1)) in H by (simpl; lia).
  exact H.
Qed.

(** X13.  The step [dx = np.mean(np.diff(x))] that converts interpolated
    sample positions into wavenumbers depends on the first and last
    sample of the axis only: it is [(x[-1] - x[0]) / (len(x) - 1)]. It is
    undefined (NaN) exactly for an axis of fewer than two samples, and on
    an evenly spaced axis [x[k] = x[0] + k * h] it is the spacing [h]. *)
Theorem mean_diff_telescopes (x : list Q) :
  (mean_diff x = None <-> (length x < 2)%nat) /\
  (forall dx, mean_diff x = Some dx ->
     exists first, x !! 0%nat = Some first /\
       dx == (List.last x first - first)
             / inject_Z (Z.of_nat (length x - 1))) /\
  (forall x0 h dx,
     (forall k, (k < length x)%nat ->
        x !! k = Some (x0 + inject_Z (Z.of_nat k) * h)) ->
     mean_diff x = Some dx -> dx == h).
Proof.
  assert (Hsome : forall a b l,
            mean_diff (a :: b :: l)
            = Some (Qsum (diff (a :: b :: l)) / Qlen (diff (a :: b :: l)))).
  { intros a b l. reflexivity. }
  assert (Htel : forall dx, mean_diff x = Some dx ->
     exists first, x !! 0%nat = Some first /\
       dx == (List.last x first - first)
             / inject_Z (Z.of_nat (length x - 1))).
  { intros dx H. destruct x as [|a [|b l]]; [discriminate|discriminate|].
    rewrite Hsome in H. apply (inj Some) in H. subst dx.
    exists a. split; [reflexivity|].
    rewrite Qsum_diff. unfold Qlen. rewrite length_diff.
    change (List.last (a :: b :: l) a) with (List.last (b :: l) a).
    replace (length (a :: b :: l) - 1)%nat with (length (b :: l))
      by (simpl; lia).
    reflexivity. }
  split; [|split; [exact Htel|]].
  - destruct x as [|a [|b l]]; simpl; split; intros H;
      try reflexivity; try lia; try discriminate.
  - intros x0 h dx Hgrid Hdx.
    destruct (Htel dx Hdx) as (first & Hfirst & ->).
    destruct x as [|a [|b l]]; [discriminate|discriminate|].
    assert (Hlast : List.last (a :: b :: l) first
                    = x0 + inject_Z (Z.of_nat (length (b :: l))) * h).
    { apply lookup_last.
      replace (length (a :: b :: l) - 1)%nat with (length (b :: l))
        by (simpl; lia).
      apply Hgrid. simpl. lia. }
    rewrite Hlast.
    pose proof (Hgrid 0%nat ltac:(simpl; lia)) as H0.
    rewrite Hfirst in H0. injection H0 as ->.
    replace (length (a :: b :: l) - 1)%nat with (length (b :: l))
      by (simpl; lia).
    set (n := inject_Z (Z.of_nat (length (b :: l)))).
    assert (Hn : ~ n == 0).
    { subst n. simpl length. rewrite Nat2Z.inj_succ.
      unfold Qeq. simpl. lia. }
    change (inject_Z (Z.of_nat 0)) with 0. field. exact Hn.
Qed.

Lemma mean_diff_telescopes_witness :
  exists first, [10; 11; 15] !! 0%nat = Some first /\
    5 # 2 == (List.last [10; 11; 15] first - first)
             / inject_Z (Z.of_nat (length [10; 11; 15] - 1)).
Proof.
  apply (proj1 (proj2 (mean_diff_telescopes [10; 11; 15])) (5 # 2)).
  vm_compute. reflexivity.
Defined.


Lemma fit_window_holds_peak_witness :
  exists x_peak left_pos right_pos,
    [10; 12; 14; 16; 18] !! 2%nat = Some x_peak /\
    [104 # 8] !! 0%nat = Some left_pos /\
    [136 # 8] !! 0%nat = Some right_pos /\
    let width := right_pos - left_pos in
    let w := window [10; 12; 14; 16; 18] left_pos right_pos in
    let x_fit := List.filter (fit_mask w) [10; 12; 14; 16; 18] in
    fit_mask w x_peak = true /\ In x_peak x_fit /\
    seq_min 0 x_fit <= x_peak /\ x_peak <= seq_max 0 x_fit /\
    0 <= width / 2.355 /\ width / 2.355 <= width.
Proof.
  apply (fit_window_holds_peak
           (fun _ _ => Some (mkWidths [2] [1 # 2] [7 # 2] [3 # 2]))
           [10; 12; 14; 16; 18] [0; 1; 3; 1; 0] [2%nat] [16 # 4]
           [104 # 8] [136 # 8] ltac:(vm_compute; reflexivity) 0%nat 2%nat).
  reflexivity.
Defined.

End WidthsFacts.

(** ** Fit quality *)

Section FitQualityFacts.
Import Fitter.
Local Open Scope Q_scope.

Variable np_exp : Q -> Q.
Variable sqrt_2pi : Q.
Variable simpson : list Q -> list Q -> Q.

Lemma Qsum_squares_nonneg (l : list Q) : 0 <= Qsum (map Qsq l).
Proof.
  induction l as [|a l IH]; [unfold Qsum; simpl; qlra|].
  change (Qsum (map Qsq (a :: l))) with (Qsq a + Qsum (map Qsq l)).
  assert (0 <= Qsq a) by (unfold Qsq; Lqa.nra). qlra.
Qed.

Lemma Qsum_map_div (c : Q) (l : list Q) :
  Qsum (map (fun r => Qsq r / c) l) == Qsum (map Qsq l) / c.
Proof.
  induction l as [|a l IH]; [unfold Qsum, Qdiv; simpl; ring|].
  change (Qsum (map (fun r => Qsq r / c) (a :: l)))
    with (Qsq a / c + Qsum (map (fun r => Qsq r / c) l)).
  change (Qsum (map Qsq (a :: l))) with (Qsq a + Qsum (map Qsq l)).
  rewrite IH. unfold Qdiv. ring.
Qed.

(** X15.  The two quality figures of a fitted peak are not independent.
    When the fitted samples are not all equal (their total sum of squares
    is positive), R2 is at most 1, and the reduced chi-squared is
    [n * (1 - R2) / max(1, n - 4)] for [n] fitted samples: it is a fixed
    function of R2 and the number of samples. The reported FWHM is
    [2.355 * sigma]. *)
Theorem fit_quality_metrics
    (x_fit y_fit : list Q) (w : Q * Q) (popt : params) :
  let r := make_result np_exp sqrt_2pi simpson x_fit y_fit w popt in
  let y_mean := Qsum y_fit / Qlen y_fit in
  let ss_total := Qsum (map (fun v => Qsq (v - y_mean)) y_fit) in
  let n := Z.of_nat (length y_fit) in
  0 < ss_total ->
  r_squared r <= 1 /\
  chi_squared_reduced r
    == inject_Z n * (1 - r_squared r) / inject_Z (Z.max 1 (n - 4)) /\
  fwhm_gaussian r == 2.355 * sigma popt /\
  fit_range r = w.
Proof.
  intros r y_mean ss_total n Hpos.
  unfold r, make_result. cbn [r_squared chi_squared_reduced fwhm_gaussian
                              fit_range].
  fold y_mean. fold ss_total. fold n.
  set (residuals := map _ (combine x_fit y_fit)).
  pose proof (Qsum_squares_nonneg residuals) as Hres.
  set (ss_res := Qsum (map Qsq residuals)) in *.
  assert (Hn : 0 < Qlen y_fit).
  { unfold Qlen. destruct y_fit as [|a l].
    - unfold ss_total, Qsum in Hpos. simpl in Hpos. qlra.
    - unfold Qlt. simpl. lia. }
  split; [|split; [|split; reflexivity]].
  - assert (0 <= ss_res / ss_total).
    { apply Qle_shift_div_l; [exact Hpos|]. qlra. }
    qlra.
  - rewrite Qsum_map_div. fold ss_res. unfold n, Qlen in *.
    set (m := inject_Z (Z.of_nat (length y_fit))) in *.
    set (d := inject_Z (Z.max 1 _)).
    assert (Hd : ~ d == 0).
    { subst d. unfold Qeq. simpl. lia. }
    field. repeat split; try assumption; qlra.
Qed.

End FitQualityFacts.

Lemma fit_quality_metrics_witness :
  let r := Fitter.make_result (fun _ => 1%Q) 2%Q (fun _ _ => 0%Q)
             [1; 2; 3]%Q [0; 2; 1]%Q (1, 3)%Q
             (Fitter.mkParams 1 2 1 0)%Q in
  (Fitter.r_squared r <= 1)%Q.
Proof.
  apply (fit_quality_metrics (fun _ => 1%Q) 2%Q (fun _ _ => 0%Q)
           [1; 2; 3]%Q [0; 2; 1]%Q (1, 3)%Q (Fitter.mkParams 1 2 1 0)%Q).
  vm_compute. reflexivity.
Defined.

(** ** Regional summaries *)

Section SummaryFacts.
Import Regions Outliers Summary.
Local Open Scope Q_scope.

Lemma closed_mask_true (lo hi c : Q) :
  closed_mask (lo, hi) c = true <-> lo <= c /\ c <= hi.
Proof.
  unfold closed_mask. cbn [fst snd].
  rewrite andb_true_iff, !Qleb_true. tauto.
Qed.

Lemma closed_mask_false (lo hi c : Q) :
  closed_mask (lo, hi) c = false <-> c < lo \/ hi < c.
Proof.
  unfold closed_mask. cbn [fst snd].
  rewrite andb_false_iff, !Qleb_false. tauto.
Qed.

Ltac mask_facts :=
  repeat match goal with
  | H : closed_mask (_, _) _ = true |- _ => apply closed_mask_true in H
  | H : closed_mask (_, _) _ = false |- _ => apply closed_mask_false in H
  | H : Qeq_bool _ _ = true |- _ => apply Qeq_bool_iff in H
  | H : Qeq_bool _ _ = false |- _ => apply Qeq_bool_neq in H
  end.

Ltac classifier_facts :=
  repeat match goal with
  | H : in_region _ (mkRegion _ _ true) = true |- _ =>
    apply in_region_closed in H
  | H : in_region _ (mkRegion _ _ false) = true |- _ =>
    apply in_region_half_open in H
  | H : in_region _ (mkRegion _ _ true) = false |- _ =>
    apply not_true_iff_false in H; rewrite in_region_closed in H
  | H : in_region _ (mkRegion _ _ false) = false |- _ =>
    apply not_true_iff_false in H; rewrite in_region_half_open in H
  end.

Ltac split_classifier c :=
  destruct (in_region c (mkRegion 990 1020 true)) eqn:?;
  destruct (in_region c (mkRegion 965 985 true)) eqn:?;
  destruct (in_region c (mkRegion 430 450 true)) eqn:?;
  destruct (in_region c (mkRegion 195 210 false)) eqn:?;
  destruct (in_region c (mkRegion 210 220 false)) eqn:?;
  destruct (in_region c (mkRegion 220 230 false)) eqn:?;
  destruct (in_region c (mkRegion 350 365 true)) eqn:?.

Ltac split_masks c :=
  destruct (closed_mask (990, 1020) c) eqn:?;
  destruct (closed_mask (965, 985) c) eqn:?;
  destruct (closed_mask (430, 450) c) eqn:?;
  destruct (closed_mask (195, 210) c) eqn:?;
  destruct (closed_mask (210, 220) c) eqn:?;
  destruct (closed_mask (220, 230) c) eqn:?;
  destruct (closed_mask (350, 365) c) eqn:?.

(** How many of the seven closed intervals hold a centre: one, except
    none for an unclassified centre and two at 210 and at 220. *)
Lemma intervals_per_centre (c : Q) :
  (list_sum (map (fun r => b2n (closed_mask r.2 c)) spectral_regions)
   + b2n (negb (existsb (fun r => closed_mask r.2 c) spectral_regions))
   = 1 + b2n (Qeq_bool c 210) + b2n (Qeq_bool c 220))%nat.
Proof.
  unfold spectral_regions. cbn [map list_sum foldr existsb snd].
  destruct (Qeq_bool c 210) eqn:E1; destruct (Qeq_bool c 220) eqn:E2;
    split_masks c; cbn; try lia; exfalso; mask_facts; try qlra.
  all: try (apply E1; qlra); try (apply E2; qlra).
Qed.


Lemma length_filter_cons {A : Type} (p : A -> bool) (a : A) (l : list A) :
  length (List.filter p (a :: l)) = (b2n (p a) + length (List.filter p l))%nat.
Proof. simpl. destruct (p a); reflexivity. Qed.

Lemma peaks_in_regions_balance (all_results : dataframe) :
  (peaks_in_regions all_results + length (unclassified_data all_results)
   = length all_results + centres_at 210 all_results
     + centres_at 220 all_results)%nat.
Proof.
  induction all_results as [|e df IH]; [reflexivity|].
  pose proof (intervals_per_centre (Centro e.2)) as Hc.
  unfold peaks_in_regions, unclassified_data, centres_at, region_data,
    spectral_regions in *.
  cbn [fold_left map list_sum foldr snd] in *.
  rewrite !length_filter_cons. cbn [length].
  cbn [existsb snd] in *. lia.
Qed.

Lemma boundary_or_outside_centre (c : Q) :
  (b2n (Qeq_bool c 210) + b2n (Qeq_bool c 220)
   + b2n (negb (existsb (fun r => closed_mask r.2 c) spectral_regions))
   <= 1)%nat.
Proof.
  unfold spectral_regions. cbn [existsb snd].
  destruct (Qeq_bool c 210) eqn:E1; destruct (Qeq_bool c 220) eqn:E2;
    split_masks c; cbn; try lia; exfalso; mask_facts; try qlra.
Qed.

Lemma boundary_or_outside (all_results : dataframe) :
  (centres_at 210 all_results + centres_at 220 all_results
   + length (unclassified_data all_results) <= length all_results)%nat.
Proof.
  induction all_results as [|e df IH]; [simpl; lia|].
  pose proof (boundary_or_outside_centre (Centro e.2)) as Hc.
  unfold centres_at, unclassified_data in *.
  rewrite !length_filter_cons. cbn [length]. lia.
Qed.

Lemma boundary_230_outside (c : Q) :
  Qeq_bool c 230 = true ->
  existsb (fun r => closed_mask r.2 c) spectral_regions = true.
Proof.
  intros H. apply Qeq_bool_iff in H.
  unfold spectral_regions. cbn [existsb snd].
  replace (closed_mask (220, 230) c) with true;
    [now rewrite !orb_true_r|].
  symmetry. apply closed_mask_true. qlra.
Qed.

(** X16.  The count of peaks outside the regions that the console summary
    of [batch_process] and [analyze_peak_detection_robustness] report is
    the table length minus the sum of the per-region counts. The seven
    intervals are closed and share the ends 210 and 220, so a peak centred
    there is counted in two regions: the reported count is the number of
    rows outside every interval minus the number of rows centred at 210 or
    220. It is never above the true number and is negative when the
    latter rows outnumber the former. *)
Theorem outside_peaks_undercounts (all_results : dataframe) :
  outside_peaks all_results
  = (Z.of_nat (length (unclassified_data all_results))
     - Z.of_nat (centres_at 210 all_results)
     - Z.of_nat (centres_at 220 all_results))%Z /\
  (outside_peaks all_results
   <= Z.of_nat (length (unclassified_data all_results)))%Z /\
  ((length (unclassified_data all_results)
    < centres_at 210 all_results + centres_at 220 all_results)%nat ->
   (outside_peaks all_results < 0)%Z) /\
  (peaks_in_regions all_results <= 2 * length all_results)%nat.
Proof.
  pose proof (peaks_in_regions_balance all_results) as H.
  pose proof (boundary_or_outside all_results) as H1.
  unfold outside_peaks. repeat split; lia.
Qed.


Lemma outside_peaks_undercounts_witness :
  (outside_peaks [(0%nat, mkRow 210 12 0.9); (1%nat, mkRow 220 12 0.9)]
   < 0)%Z.
Proof.
  apply (proj1 (proj2 (proj2 (outside_peaks_undercounts
           [(0%nat, mkRow 210 12 0.9); (1%nat, mkRow 220 12 0.9)])))).
  vm_compute. lia.
Defined.

Lemma closed_is_inclusive (lo hi c : Q) :
  closed_mask (lo, hi) c = in_region c (mkRegion lo hi true).
Proof. reflexivity. Qed.

Lemma closed_is_half_open_or_end (lo hi c : Q) :
  lo <= hi ->
  closed_mask (lo, hi) c
  = in_region c (mkRegion lo hi false) || Qeq_bool c hi.
Proof.
  intros Hlh.
  unfold closed_mask, in_region, is_peak_in_region.
  cbn [fst snd min_wave max_wave is_inclusive].
  destruct (Qleb lo c) eqn:E1; destruct (Qleb c hi) eqn:E2;
    destruct (Qltb c hi) eqn:E3; destruct (Qeq_bool c hi) eqn:E4;
    cbn [andb orb]; try reflexivity;
    exfalso; order_facts; mask_facts; try qlra; apply E4; qlra.
Qed.

(** X17.  The summaries and the cleaning pass do not classify alike. The
    summaries test closed intervals, the cleaning pass tests External
    modes 1 to 3 as half-open ones, so the two agree on every centre
    except the upper ends 210, 220 and 230 of those three regions. A peak
    centred at 230 is reported under "Modo externo 3" although the
    cleaning pass treated it as unclassified: the unclassified rows of the
    cleaning pass are those of the summary plus the rows centred at 230. *)
Theorem summary_and_cleaning_regions (c : Q) (results_df : dataframe) :
  Forall2
    (fun (s : string * (Q * Q)) (r : string * region) =>
       s.2 = (min_wave r.2, max_wave r.2) /\
       closed_mask s.2 c
       = in_region c r.2
         || (negb (is_inclusive r.2) && Qeq_bool c (max_wave r.2)))
    spectral_regions get_zircon_spectral_regions /\
  Regions.unclassified c
  = negb (existsb (fun r => closed_mask r.2 c) spectral_regions)
    || Qeq_bool c 230 /\
  length (Outliers.unclassified_data results_df)
  = (length (Summary.unclassified_data results_df)
     + centres_at 230 results_df)%nat.
Proof.
  assert (Hpoint : forall c,
            Regions.unclassified c
            = negb (existsb (fun r => closed_mask r.2 c) spectral_regions)
              || Qeq_bool c 230).
  { clear. intros c.
    unfold Regions.unclassified, get_zircon_spectral_regions,
      spectral_regions.
    cbn [existsb snd].
    rewrite (closed_is_half_open_or_end 195 210),
      (closed_is_half_open_or_end 210 220),
      (closed_is_half_open_or_end 220 230) by discriminate.
    rewrite !closed_is_inclusive.
    destruct (Qeq_bool c 230) eqn:E230; destruct (Qeq_bool c 210) eqn:E210;
      destruct (Qeq_bool c 220) eqn:E220; split_classifier c;
      cbn; try reflexivity; exfalso; mask_facts; classifier_facts;
      try qlra;
      repeat match goal with
      | H : ~ (_ /\ _) |- _ => apply H; split; qlra
      end. }
  split; [|split; [apply Hpoint|]].
  - unfold spectral_regions, get_zircon_spectral_regions.
    repeat (constructor; [split; [reflexivity|]|]); try constructor;
      cbn [snd min_wave max_wave is_inclusive negb andb];
      rewrite ?orb_false_r;
      first [apply closed_is_inclusive
            | apply closed_is_half_open_or_end; discriminate].
  - induction results_df as [|e df IH]; [reflexivity|].
    unfold Outliers.unclassified_data, Summary.unclassified_data, centres_at
      in *.
    rewrite !length_filter_cons, IH, (Hpoint (Centro e.2)).
    pose proof (boundary_230_outside (Centro e.2)) as H230.
    destruct (existsb _ _); destruct (Qeq_bool _ 230); cbn in *;
      try lia; specialize (H230 eq_refl); discriminate.
Qed.

(** X18.  [analyze_peak_detection_robustness] divides by the number of
    peaks without a guard: on an empty table the percentage of peaks in
    the expected regions is a [ZeroDivisionError]. On a non-empty table
    the percentage is at least 0 and at most 200; because of the rows
    centred at 210 or 220 it exceeds 100 when those outnumber the rows
    outside every interval. *)
Theorem robustness_percentage (results_df : dataframe) :
  (peaks_in_expected_regions_pct results_df = None <-> results_df = []) /\
  (forall p, peaks_in_expected_regions_pct results_df = Some p ->
     0 <= p <= 200 /\
     ((length (Summary.unclassified_data results_df)
       < centres_at 210 results_df + centres_at 220 results_df)%nat ->
      100 < p)).
Proof.
  pose proof (peaks_in_regions_balance results_df) as Hbal.
  pose proof (boundary_or_outside results_df) as Hbo.
  unfold peaks_in_expected_regions_pct.
  destruct results_df as [|e df].
  - split; [split; reflexivity|]. intros p H. discriminate.
  - set (df' := e :: df) in *.
    assert (Hlen : (0 < length df')%nat) by (simpl; lia).
    destruct (Nat.eqb_spec (length df') 0) as [E|_]; [lia|].
    split; [split; discriminate|].
    intros p H. apply (inj Some) in H. subst p.
    set (n := inject_Z (Z.of_nat (length df'))).
    set (k := inject_Z (Z.of_nat (peaks_in_regions df'))).
    assert (Hn : 0 < n).
    { subst n. change 0 with (inject_Z 0). rewrite <- Zlt_Qlt. lia. }
    assert (Hk0 : 0 <= k).
    { subst k. change 0 with (inject_Z 0). rewrite <- Zle_Qle. lia. }
    assert (Hk2 : k <= 2 * n).
    { subst k n. change 2 with (inject_Z 2). rewrite <- inject_Z_mult.
      rewrite <- Zle_Qle. lia. }
    assert (Hdiv0 : 0 <= k / n) by (apply Qle_shift_div_l; qlra).
    assert (Hdiv2 : k / n <= 2) by (apply Qle_shift_div_r; qlra).
    split; [split; qlra|].
    intros Hmore.
    assert (Hk1 : n < k).
    { subst k n. rewrite <- Zlt_Qlt. lia. }
    assert (1 < k / n) by (apply Qlt_shift_div_l; qlra).
    qlra.
Qed.

Lemma robustness_percentage_witness :
  peaks_in_expected_regions_pct [] = None.
Proof.
  apply (proj1 (robustness_percentage [])). reflexivity.
Defined.

Lemma partition_by_range (t : Q * Q) (v : Q) :
  t.1 <= t.2 ->
  (b2n (Qleb t.1 v && Qleb v t.2) + b2n (Qltb v t.1) + b2n (Qltb t.2 v)
   = 1)%nat.
Proof.
  intros Ht.
  destruct (Qleb t.1 v) eqn:E1; destruct (Qleb v t.2) eqn:E2;
    destruct (Qltb v t.1) eqn:E3; destruct (Qltb t.2 v) eqn:E4;
    cbn; try reflexivity; exfalso; order_facts; qlra.
Qed.

(** X19.  The FWHM context counts of [analyze_peak_detection_robustness].
    For a typical range whose lower end is not above its upper end, the
    number of values outside the range is the number below it plus the
    number above it, and together with the number inside they make the
    region count. All the typical ranges of the code, and the default
    (5, 50), are such ranges. *)
Theorem typical_range_counts (region_peaks : dataframe) (t : Q * Q)
    (Ht : t.1 <= t.2) :
  values_outside_typical region_peaks t
  = Z.of_nat (values_below_typical region_peaks t
              + values_above_typical region_peaks t) /\
  (fwhm_within_range region_peaks t
   + values_below_typical region_peaks t
   + values_above_typical region_peaks t = length region_peaks)%nat /\
  Forall (fun e : string * (Q * Q) => e.2.1 <= e.2.2)
         (("", (5, 50)) :: typical_fwhm_ranges).
Proof.
  assert (H : (fwhm_within_range region_peaks t
               + values_below_typical region_peaks t
               + values_above_typical region_peaks t
               = length region_peaks)%nat).
  { induction region_peaks as [|e df IH]; [reflexivity|].
    pose proof (partition_by_range t (FWHM_Gauss e.2) Ht) as Hp.
    unfold fwhm_within_range, values_below_typical, values_above_typical
      in *.
    rewrite !length_filter_cons. cbn [length]. lia. }
  split; [unfold values_outside_typical; lia|]. split; [exact H|].
  unfold typical_fwhm_ranges.
  repeat constructor; cbn; discriminate.
Qed.

Lemma typical_range_counts_witness :
  values_outside_typical
    [(0%nat, mkRow 1008 7 0.9); (1%nat, mkRow 1008 30 0.9)] (8, 25)
  = Z.of_nat (values_below_typical
                [(0%nat, mkRow 1008 7 0.9); (1%nat, mkRow 1008 30 0.9)]
                (8, 25)
              + values_above_typical
                [(0%nat, mkRow 1008 7 0.9); (1%nat, mkRow 1008 30 0.9)]
                (8, 25)).
Proof.
  apply (typical_range_counts
           [(0%nat, mkRow 1008 7 0.9); (1%nat, mkRow 1008 30 0.9)] (8, 25)).
  discriminate.
Defined.

End SummaryFacts.

(** ** The z-score criterion *)

Section ZScoreFacts.
Import Regions Outliers OutlierExamples.
Local Open Scope Q_scope.

Lemma Qsum_cons_eq (a : Q) (l : list Q) : Qsum (a :: l) = a + Qsum l.
Proof. reflexivity. Qed.

Lemma Qlen_cons (a : Q) (l : list Q) : Qlen (a :: l) == Qlen l + 1.
Proof.
  unfold Qlen. cbn [length]. rewrite Nat2Z.inj_succ, <- Z.add_1_r.
  rewrite inject_Z_plus. reflexivity.
Qed.

Lemma Qsum_app_eq (l1 l2 : list Q) : Qsum (l1 ++ l2) == Qsum l1 + Qsum l2.
Proof.
  induction l1 as [|a l1 IH]; [unfold Qsum; simpl; ring|].
  rewrite <- app_comm_cons, !Qsum_cons_eq, IH. ring.
Qed.

Lemma Qlen_app (l1 l2 : list Q) : Qlen (l1 ++ l2) == Qlen l1 + Qlen l2.
Proof.
  unfold Qlen. rewrite length_app, Nat2Z.inj_add, inject_Z_plus. reflexivity.
Qed.

Lemma Qlen_nonneg (l : list Q) : 0 <= Qlen l.
Proof. unfold Qlen. change 0 with (inject_Z 0). rewrite <- Zle_Qle. lia. Qed.

(** Replaces a rational expression by one equal to it as a polynomial. *)
Ltac qreplace a b :=
  let E := fresh "E" in assert (E : a == b) by ring; rewrite E; clear E.
Ltac qreplace_in a b H :=
  let E := fresh "E" in assert (E : a == b) by ring; rewrite E in H; clear E.

Lemma Qsquare_nonneg (x : Q) : 0 <= x * x.
Proof.
  destruct (Qlt_le_dec x 0) as [H|H].
  - qreplace (x * x) ((- x) * (- x)).
    apply Qmult_le_0_compat; qlra.
  - apply Qmult_le_0_compat; qlra.
Qed.

Lemma two_products_le (a : Q) (l : list Q) :
  2 * a * Qsum l <= Qlen l * (a * a) + Qsum (map (fun v => v * v) l).
Proof.
  induction l as [|b l IH].
  { apply Qle_lteq. right. unfold Qsum, Qlen. simpl.
    change (inject_Z (Z.of_nat 0)) with 0. ring. }
  cbn [map]. rewrite !Qsum_cons_eq, Qlen_cons.
  pose proof (Qsquare_nonneg (a - b)) as Hsq.
  qreplace_in ((a - b) * (a - b)) (a * a - 2 * (a * b) + b * b) Hsq.
  qreplace (2 * a * (b + Qsum l)) (2 * (a * b) + 2 * a * Qsum l).
  qreplace ((Qlen l + 1) * (a * a)) (Qlen l * (a * a) + a * a).
  qlra.
Qed.

(** The square of a sum is at most the number of terms times the sum of
    the squares. *)
Lemma square_of_sum_le (l : list Q) :
  Qsum l * Qsum l <= Qlen l * Qsum (map (fun v => v * v) l).
Proof.
  induction l as [|a l IH].
  { apply Qle_lteq. right. unfold Qsum, Qlen. simpl.
    change (inject_Z (Z.of_nat 0)) with 0. ring. }
  cbn [map]. rewrite !Qsum_cons_eq, Qlen_cons.
  pose proof (two_products_le a l) as H2.
  qreplace ((a + Qsum l) * (a + Qsum l))
           (a * a + 2 * a * Qsum l + Qsum l * Qsum l).
  set (S2 := Qsum (map _ l)) in *.
  qreplace ((Qlen l + 1) * (a * a + S2))
           (Qlen l * (a * a) + a * a + Qlen l * S2 + S2).
  qlra.
Qed.

(** In a list that sums to zero, no entry is large against the others. *)
Lemma deviation_bound (l : list Q) (x : Q) :
  In x l -> Qsum l == 0 ->
  Qlen l * (x * x) <= (Qlen l - 1) * Qsum (map (fun v => v * v) l).
Proof.
  intros Hin Hsum. apply in_split in Hin. destruct Hin as (l1 & l2 & ->).
  pose proof (square_of_sum_le (l1 ++ l2)) as Hcs.
  rewrite map_app in *. cbn [map] in *.
  rewrite !Qsum_app_eq, ?Qsum_cons_eq, !Qlen_app, ?Qlen_cons in *.
  set (s1 := Qsum l1) in *. set (s2 := Qsum l2) in *.
  set (q1 := Qsum (map _ l1)) in *. set (q2 := Qsum (map _ l2)) in *.
  set (n1 := Qlen l1) in *. set (n2 := Qlen l2) in *.
  assert (Hx : s1 + s2 == - x) by qlra.
  assert (Hxx : (s1 + s2) * (s1 + s2) == x * x) by (rewrite Hx; ring).
  rewrite Hxx in Hcs.
  qreplace ((n1 + (n2 + 1)) * (x * x)) ((n1 + n2) * (x * x) + x * x).
  qreplace ((n1 + (n2 + 1) - 1) * (q1 + (x * x + q2)))
           ((n1 + n2) * (q1 + q2) + (n1 + n2) * (x * x)).
  qlra.
Qed.

Lemma deviations_sum_zero (fw : list Q) :
  fw <> [] -> Qsum (map (fun v => v - mean fw) fw) == 0.
Proof.
  intros Hne.
  assert (G : forall (m : Q) (l : list Q),
            Qsum (map (fun v => v - m) l) == Qsum l - Qlen l * m).
  { intros m l. induction l as [|a l IH]; [unfold Qsum, Qlen; simpl; ring|].
    cbn [map]. rewrite !Qsum_cons_eq, Qlen_cons, IH. ring. }
  rewrite G. unfold mean.
  assert (Hn : ~ Qlen fw == 0).
  { destruct fw as [|a l]; [contradiction|].
    rewrite Qlen_cons. pose proof (Qlen_nonneg l). qlra. }
  field. exact Hn.
Qed.

Lemma Qlen_of_nat (l : list Q) (n : nat) :
  length l = n -> Qlen l = inject_Z (Z.of_nat n).
Proof. intros <-. reflexivity. Qed.

(** X20.  The z-score criterion of the cleaning pass, [|v - mean| / std >
    3] with the sample standard deviation, cannot flag anything in a
    region of ten rows or fewer: among [n] values no value is further
    than [(n - 1) / sqrt(n)] standard deviations from the mean, and that
    is below 3 up to [n = 10]. With eleven rows it can: ten widths of 10
    and one of 11 flag the last row. *)
Theorem z_score_needs_eleven_rows :
  (forall region_data : dataframe,
     (length region_data <= 10)%nat ->
     z_outliers_indices region_data = []) /\
  z_outliers_indices eleven_table = [10%nat].
Proof.
  split; [|vm_compute; reflexivity].
  intros region_data Hlen.
  unfold z_outliers_indices.
  set (fw := fwhm_values region_data).
  assert (Hfw : length fw = length region_data)
    by (unfold fw, fwhm_values; apply length_map).
  destruct (3 <=? length fw)%nat eqn:E3; [|reflexivity].
  destruct (Qltb 0 (var fw)) eqn:Evar; [|reflexivity].
  cbn [andb]. apply Nat.leb_le in E3. apply Qltb_true in Evar.
  apply nil_of_no_elem. intros l Hl.
  apply elem_of_index_where in Hl. destruct Hl as (row & Hrow & Hp).
  apply Qltb_true in Hp.
  set (x := FWHM_Gauss row - mean fw) in *.
  set (devs := map (fun v => v - mean fw) fw).
  assert (Hin : In x devs).
  { unfold devs, x. apply in_map_iff. exists (FWHM_Gauss row).
    split; [reflexivity|]. unfold fw, fwhm_values. apply in_map_iff.
    exists (l, row). split; [reflexivity|]. now apply list_elem_of_In. }
  assert (Hne : fw <> []) by (intros E; rewrite E in E3; simpl in E3; lia).
  pose proof (deviation_bound devs x Hin (deviations_sum_zero fw Hne)) as Hb.
  assert (Hsq : map (fun v => v * v) devs
                = map (fun v => (v - mean fw) * (v - mean fw)) fw).
  { unfold devs. rewrite map_map. reflexivity. }
  rewrite Hsq in Hb.
  assert (Hld : Qlen devs = Qlen fw).
  { unfold Qlen, devs. now rewrite length_map. }
  rewrite Hld in Hb.
  unfold var in Evar, Hp.
  set (S2 := Qsum (map (fun v => (v - mean fw) * (v - mean fw)) fw)) in *.
  set (X := x * x) in *.
  assert (Hcases : (length fw = 3 \/ length fw = 4 \/ length fw = 5
                    \/ length fw = 6 \/ length fw = 7 \/ length fw = 8
                    \/ length fw = 9 \/ length fw = 10)%nat) by lia.
  repeat match type of Hcases with
         | _ \/ _ => destruct Hcases as [Hn|Hcases]
         end;
    [ | | | | | | | rename Hcases into Hn ];
    rewrite (Qlen_of_nat fw _ Hn) in *;
    cbn [Z.of_nat Pos.of_succ_nat Pos.succ] in *;
    match type of Evar with
    | context [S2 / ?d] =>
        let V := fresh "V" in
        let HV := fresh "HV" in
        assert (HV : S2 == (S2 / d) * d) by (field; discriminate);
        set (V := S2 / d) in *
    end;
    match type of Hn with
    | length fw = ?n =>
        let q := eval vm_compute in (inject_Z (Z.of_nat n)) in
        change (inject_Z (Z.of_nat n)) with q in *
    end;
    clearbody V S2 X; qlra.
Qed.

Lemma z_score_needs_eleven_rows_witness :
  z_outliers_indices spread_table = [].
Proof.
  apply (proj1 z_score_needs_eleven_rows). simpl. lia.
Defined.

End ZScoreFacts.

(** ** The outlier report *)

Section ReportFacts.
Local Set Warnings "-clear-no-such-hyp".
Import Regions Outliers.

Lemma filter_comm_bool {A} (p q : A -> bool) (xs : list A) :
  List.filter p (List.filter q xs) = List.filter q (List.filter p xs).
Proof.
  induction xs as [|x xs IH]; [reflexivity|]. simpl.
  destruct (p x) eqn:Ep; destruct (q x) eqn:Eq; simpl;
    rewrite ?Ep, ?Eq, IH; reflexivity.
Qed.

(** The rows of a region that the pass keeps are the rows of the region
    that the region's own criteria did not flag. *)
Lemma region_data_of_kept (df : dataframe) (e : string * region) :
  NoDup (index df) -> e ∈ get_zircon_spectral_regions ->
  region_data_of (kept (removed_labels df) df) e.2
  = kept (region_outliers (region_data_of df e.2)) (region_data_of df e.2).
Proof.
  intros Hnd He. unfold region_data_of, kept.
  rewrite filter_comm_bool. apply filter_ext_in.
  intros [l row] Hin. apply filter_In in Hin. destruct Hin as [Hin Hreg].
  cbn [fst snd] in *. apply bool_decide_ext.
  apply list_elem_of_In in Hin.
  now rewrite (classified_removed_iff df l row e Hnd Hin He Hreg).
Qed.

(** X21.  The report of the cleaning pass agrees with the table it
    returns. Whenever the pass returns on a table with unique labels (so
    [raises] is false: the first region with rows kept at least one of
    them, and the table is not empty if [verbose] is set), the cleaned
    table is the input with rows left out (order and labels kept), the
    report has one entry per region that has rows, in the order of the
    region dictionary, and for each of them [initial_count] is the number
    of the region's rows in the input, [remaining_count] is the number of
    the region's rows in the cleaned table, and [outliers_removed +
    remaining_count = initial_count]. *)
Theorem report_counts_match_cleaned_table
    (df cleaned : dataframe) (report : list (string * region_report))
    (verbose : bool)
    (Hnd : NoDup (index df))
    (H : detect_and_remove_outliers df verbose = Some (cleaned, report)) :
  raises df verbose = false /\
  cleaned `sublist_of` df /\
  map fst report
  = map fst (List.filter
               (fun e => negb (length (region_data_of df e.2) =? 0)%nat)
               get_zircon_spectral_regions) /\
  forall e, e ∈ get_zircon_spectral_regions ->
    region_data_of df e.2 <> [] ->
    exists rep,
      (e.1, rep) ∈ report /\
      initial_count rep = length (region_data_of df e.2) /\
      remaining_count rep = length (region_data_of cleaned e.2) /\
      (outliers_removed rep + remaining_count rep = initial_count rep)%nat.
Proof.
  destruct (detect_and_remove_outliers_returns verbose df cleaned report
              Hnd H) as (Hr & -> & ->).
  clear H.
  split; [exact Hr|].
  split; [apply filter_sublist_bool|]. split; [apply report_names|].
  - intros e He Hne.
    pose proof (region_data_of_kept df e Hnd He) as Hk.
    pose proof (length_kept (region_data_of df e.2)
                  (NoDup_index_filter _ df Hnd)
                  (region_outliers (region_data_of df e.2))
                  (region_outliers_subseteq _)) as Hlen.
    rewrite <- Hk in Hlen.
    eexists. split; [|split; [|split]].
    + apply list_elem_of_omap. exists e. split; [exact He|].
      unfold report_entry.
      destruct (length (region_data_of df e.2) =? 0)%nat eqn:E;
        [|reflexivity].
      apply Nat.eqb_eq, nil_length_inv in E. contradiction.
    + reflexivity.
    + cbn [remaining_count]. lia.
    + cbn [remaining_count outliers_removed initial_count]. lia.
Qed.

Lemma report_counts_match_cleaned_table_witness :
  exists rep,
    ("ν₃(SiO₄)"%string, rep)
      ∈ [("ν₃(SiO₄)"%string, mkReport 4 1 3 [2%nat])] /\
    initial_count rep = length (region_data_of scenario_table
                                  (mkRegion 990 1020 true)) /\
    remaining_count rep
    = length (region_data_of
                [ (0, nu3_row 9 0.95); (1, nu3_row 9.5 0.93);
                  (3, nu3_row 10 0.9); (5, mkRow 600 12 0.8) ]%nat
                (mkRegion 990 1020 true)) /\
    (outliers_removed rep + remaining_count rep = initial_count rep)%nat.
Proof.
  apply (proj2 (proj2 (proj2 (report_counts_match_cleaned_table
           scenario_table
           [ (0, nu3_row 9 0.95); (1, nu3_row 9.5 0.93);
             (3, nu3_row 10 0.9); (5, mkRow 600 12 0.8) ]%nat
           [("ν₃(SiO₄)"%string, mkReport 4 1 3 [2%nat])] true
           ltac:(apply (bool_decide_unpack _); vm_compute; reflexivity)
           ltac:(vm_compute; reflexivity))))
         ("ν₃(SiO₄)"%string, mkRegion 990 1020 true)).
  - left.
  - discriminate.
Defined.

End ReportFacts.

(** ** Ranking of the combinations *)

Section RankingFacts.
Import Ranking.
Local Open Scope Q_scope.

Lemma idxmax_spec (key : regional_row -> Q) (rows : list regional_row) :
  match idxmax key rows with
  | None => rows = []
  | Some b =>
    exists before after,
      rows = before ++ b :: after /\
      Forall (fun r => key r < key b) before /\
      Forall (fun r => key r <= key b) after
  end.
Proof.
  induction rows as [|r rest IH]; [reflexivity|].
  cbn [idxmax]. destruct (idxmax key rest) as [b|].
  - destruct IH as (before & after & -> & Hb & Ha).
    destruct (Qltb (key r) (key b)) eqn:E; order_facts.
    + exists (r :: before), after. split; [reflexivity|].
      split; [constructor; assumption|exact Ha].
    + exists [], (before ++ b :: after). split; [reflexivity|].
      split; [constructor|].
      apply Forall_app. split.
      * eapply Forall_impl; [exact Hb|]. simpl. intros; qlra.
      * constructor; [exact E|].
        eapply Forall_impl; [exact Ha|]. simpl. intros; qlra.
  - subst rest. exists [], []. repeat split; constructor.
Qed.

Lemma dominates_score (a b : regional_row) :
  dominates a b -> Score_Composto b < Score_Composto a.
Proof.
  unfold dominates, Score_Composto, Score_Precision, Score_Quality,
    Score_Consistency.
  unfold Qdiv. change (/ 100) with (1 # 100). intros (H1 & H2 & H3 & H4).
  destruct H4 as [H4|[H4|H4]]; qlra.
Qed.

(** X22.  The combination reported as best overall for a region. On a
    non-empty table the row chosen by the composite score
    [0.4 * (1 - FWHM_CV / 100) + 0.3 * R2 + 0.3 * (1 - Centro_CV / 100)]
    has the largest score, is the first such row in table order, and is
    not dominated: no other row is at least as good on the three criteria
    (lower FWHM CV, higher R2, lower centre CV) and better on one. On an
    empty table nothing is chosen. *)
Theorem best_overall_not_dominated (rows : list regional_row) :
  (idxmax Score_Composto rows = None <-> rows = []) /\
  (forall best, idxmax Score_Composto rows = Some best ->
     (exists before after,
        rows = before ++ best :: after /\
        Forall (fun r => Score_Composto r < Score_Composto best) before /\
        Forall (fun r => Score_Composto r <= Score_Composto best) after) /\
     forall r, In r rows -> ~ dominates r best).
Proof.
  pose proof (idxmax_spec Score_Composto rows) as H.
  split.
  - destruct (idxmax Score_Composto rows) as [b|].
    + split; [discriminate|]. intros ->.
      destruct H as (before & after & E & _). destruct before; discriminate.
    + split; [intros _; exact H|reflexivity].
  - intros best Hbest. rewrite Hbest in H.
    split; [exact H|].
    destruct H as (before & after & -> & Hb & Ha).
    intros r Hin Hdom. apply dominates_score in Hdom.
    rewrite Forall_forall in Hb, Ha.
    apply in_app_or in Hin. destruct Hin as [Hin|[<-|Hin]].
    + apply list_elem_of_In, Hb in Hin. qlra.
    + qlra.
    + apply list_elem_of_In, Ha in Hin. qlra.
Qed.

Lemma best_overall_not_dominated_witness :
  ~ dominates (mkRegional "Airpls_Area" 5 0.9 1 12)
              (mkRegional "Spline_Peak" 2 0.95 1 12).
Proof.
  apply (proj2 (proj2 (best_overall_not_dominated
                         [mkRegional "Airpls_Area" 5 0.9 1 12;
                          mkRegional "Spline_Peak" 2 0.95 1 12])
                      (mkRegional "Spline_Peak" 2 0.95 1 12)
                      ltac:(vm_compute; reflexivity))).
  left. reflexivity.
Defined.

(** X23.  The interpretation of the spread between the methods never goes
    down when the spread goes up: a larger FWHM range together with a
    larger CV range gives the same or a stronger impact class. The class
    is "MÍNIMO" exactly below 0.01 cm-1 and 1 %, and "ALTO" as soon as the
    FWHM range reaches 0.5 cm-1 or the CV range reaches 10 %. *)
Theorem impact_monotone (f1 c1 f2 c2 : Q) :
  (f1 <= f2 -> c1 <= c2 ->
   (impact_rank (impact_of f1 c1) <= impact_rank (impact_of f2 c2))%nat) /\
  (impact_of f1 c1 = MINIMO <-> f1 < 0.01 /\ c1 < 1) /\
  (impact_of f1 c1 = ALTO <-> 0.5 <= f1 \/ 10 <= c1).
Proof.
  unfold impact_of.
  destruct (Qltb f1 0.01) eqn:A1; destruct (Qltb c1 1.0) eqn:A2;
    destruct (Qltb f1 0.1) eqn:A3; destruct (Qltb c1 5.0) eqn:A4;
    destruct (Qltb f1 0.5) eqn:A5; destruct (Qltb c1 10.0) eqn:A6;
    cbn [andb]; order_facts;
    try (exfalso; qlra);
    (split; [|split; split;
               [try discriminate; intros _; split; qlra
               |try (intros [? ?]; exfalso; qlra); reflexivity
               |try discriminate; intros _; first [left; qlra|right; qlra]
               |try (intros [?|?]; exfalso; qlra); reflexivity]]).
  all: intros Hf Hc;
    destruct (Qltb f2 0.01) eqn:B1; destruct (Qltb c2 1.0) eqn:B2;
    destruct (Qltb f2 0.1) eqn:B3; destruct (Qltb c2 5.0) eqn:B4;
    destruct (Qltb f2 0.5) eqn:B5; destruct (Qltb c2 10.0) eqn:B6;
    cbn [andb impact_rank]; try lia; exfalso; order_facts; qlra.
Qed.

Lemma impact_monotone_witness :
  (impact_rank (impact_of 0.005 0.5) <= impact_rank (impact_of 0.2 7))%nat.
Proof.
  apply (proj1 (impact_monotone 0.005 0.5 0.2 7)); discriminate.
Defined.

End RankingFacts.

(** ** Baseline weights and peak mask *)

Section WeightFacts.
Import Baseline.
Local Open Scope R_scope.

Lemma logistic_decreasing (t u : R) :
  t < u -> 1 / (1 + exp u) < 1 / (1 + exp t).
Proof.
  intros H. pose proof (exp_pos t). pose proof (exp_pos u).
  pose proof (exp_increasing t u H).
  unfold Rdiv. rewrite !Rmult_1_l.
  apply Rinv_lt_contravar; [|rlra].
  apply Rmult_lt_0_compat; rlra.
Qed.

Lemma Rsum_negative (l : list R) :
  l <> [] -> Forall (fun v => v < 0) l -> Rsum l < 0.
Proof.
  intros Hne Hall. induction Hall as [|a l Ha Hl IH]; [contradiction|].
  unfold Rsum in *. simpl. destruct l as [|b l]; [simpl; rlra|].
  specialize (IH ltac:(discriminate)). rlra.
Qed.

Lemma np_std_empty : np_std [] = 0.
Proof.
  unfold np_std, Rsum, Rlen. simpl. unfold Rdiv. rewrite Rmult_0_l.
  apply sqrt_0.
Qed.

(** X24.  The reweighting step of the airPLS loop, when the negative
    residuals are not all equal (their standard deviation [s] is
    positive; [m] is their mean). The weight is a strictly decreasing
    function of the residual: of two samples, the one further above the
    fitted baseline gets the smaller weight. The threshold [2 * s - m] is
    positive, the weight is 1/2 exactly there, and every sample at or
    below the fitted baseline has a weight above 1/2. *)
Theorem update_weights_decreasing (d : list R) :
  let dn := List.filter (fun v => Rltb v 0) d in
  let m := np_mean dn in
  let s := np_std dn in
  0 < s ->
  0 < 2 * s - m /\
  forall i di wi,
    d !! i = Some di -> update_weights d !! i = Some wi ->
    (di <= 0 -> 1 / 2 < wi) /\
    (di = 2 * s - m -> wi = 1 / 2) /\
    forall j dj wj,
      d !! j = Some dj -> update_weights d !! j = Some wj ->
      di < dj -> wj < wi.
Proof.
  intros dn m s Hs.
  assert (Hne : dn <> []).
  { intros E. unfold s in Hs. rewrite E, np_std_empty in Hs. rlra. }
  assert (Hneg : Forall (fun v => v < 0) dn).
  { apply Forall_forall. intros v Hv. unfold dn in Hv.
    apply list_elem_of_In, filter_In in Hv. destruct Hv as [_ Hv].
    now apply Rltb_spec in Hv. }
  assert (Hm : m < 0).
  { unfold m, np_mean. pose proof (Rsum_negative dn Hne Hneg) as Hsum.
    assert (Hlen : 0 < Rlen dn).
    { unfold Rlen. apply lt_0_INR. destruct dn; [contradiction|simpl; lia]. }
    unfold Rdiv. replace (Rsum dn * / Rlen dn)
      with (- ((- Rsum dn) * / Rlen dn)) by rlra.
    apply Ropp_lt_gt_0_contravar. apply Rmult_lt_0_compat; [rlra|].
    now apply Rinv_0_lt_compat. }
  split; [rlra|].
  assert (Hw : forall i di wi,
            d !! i = Some di -> update_weights d !! i = Some wi ->
            wi = 1 / (1 + exp (2 * (di - (2 * s - m)) / s))).
  { intros i di wi Hdi Hwi. unfold update_weights in Hwi. fold dn m s in Hwi.
    change (map ?f d) with (f <$> d) in Hwi.
    rewrite list_lookup_fmap, Hdi in Hwi. now injection Hwi. }
  assert (Hmono : forall a b, a < b ->
            2 * (a - (2 * s - m)) / s < 2 * (b - (2 * s - m)) / s).
  { intros a b Hab. unfold Rdiv. apply Rmult_lt_compat_r;
      [now apply Rinv_0_lt_compat|rlra]. }
  intros i di wi Hdi Hwi. rewrite (Hw i di wi Hdi Hwi).
  split; [|split].
  - intros Hle. apply logistic_above_half.
    pose proof (Hmono di (2 * s - m) ltac:(rlra)) as H.
    replace (2 * (2 * s - m - (2 * s - m)) / s) with 0 in H
      by (unfold Rdiv; rlra).
    exact H.
  - intros ->. replace (2 * (2 * s - m - (2 * s - m)) / s) with 0
      by (unfold Rdiv; rlra).
    rewrite exp_0. rlra.
  - intros j dj wj Hdj Hwj Hlt. rewrite (Hw j dj wj Hdj Hwj).
    apply logistic_decreasing, Hmono, Hlt.
Qed.

Lemma update_weights_decreasing_witness :
  0 < 2 * np_std (List.filter (fun v => Rltb v 0) [1; -3; 3; -1])
      - np_mean (List.filter (fun v => Rltb v 0) [1; -3; 3; -1]).
Proof.
  apply (update_weights_decreasing [1; -3; 3; -1]).
  assert (E : List.filter (fun v => Rltb v 0) [1; -3; 3; -1] = [-3; -1]).
  { cbn [List.filter].
    rewrite (Rltb_false 1 0), (Rltb_true (-3) 0), (Rltb_false 3 0),
      (Rltb_true (-1) 0) by rlra.
    reflexivity. }
  rewrite E. unfold np_std, np_mean, Rsum, Rlen. simpl.
  apply sqrt_lt_R0. rlra.
Defined.

End WeightFacts.

Section MaskFacts.
Import Baseline.

Lemma lookup_repeat_lt {A} (x : A) (n i : nat) :
  (i < n)%nat -> repeat x n !! i = Some x.
Proof.
  revert i. induction n as [|n IH]; intros i Hi; [lia|].
  destruct i as [|i]; [reflexivity|]. simpl. apply IH. lia.
Qed.

Lemma mask_step_length (n peak : nat) (mask : list bool) :
  length
    (imap (fun i b =>
             if (peak - n / 50 <=? i)%nat
                && (i <? Nat.min n (peak + n / 50))%nat
             then false else b) mask)
  = length mask.
Proof. apply length_imap. Qed.

Lemma peak_mask_fold (n : nat) (peaks : list nat) :
  forall mask : list bool,
  let result :=
    fold_left
      (fun mask peak =>
         let window := (n / 50)%nat in
         let left := (peak - window)%nat in
         let right := Nat.min n (peak + window) in
         imap (fun i b => if (left <=? i)%nat && (i <? right)%nat
                          then false else b) mask)
      peaks mask in
  length result = length mask /\
  forall i b, mask !! i = Some b ->
    result !! i
    = Some (b && negb (existsb
                         (fun peak =>
                            (peak - n / 50 <=? i)%nat
                            && (i <? Nat.min n (peak + n / 50))%nat)
                         peaks)).
Proof.
  induction peaks as [|p peaks IH]; intros mask; cbn [fold_left existsb].
  - split; [reflexivity|]. intros i b Hb. now rewrite andb_true_r.
  - cbv zeta in *.
    set (mask' := imap _ mask).
    destruct (IH mask') as [Hlen Hget].
    split; [rewrite Hlen; apply length_imap|].
    intros i b Hb.
    assert (Hb' : mask' !! i
                  = Some (if (p - n / 50 <=? i)%nat
                             && (i <? Nat.min n (p + n / 50))%nat
                          then false else b)).
    { unfold mask'. rewrite list_lookup_imap, Hb. reflexivity. }
    rewrite (Hget i _ Hb').
    destruct ((p - n / 50 <=? i)%nat && (i <? Nat.min n (p + n / 50))%nat);
      cbn [orb negb andb]; [now rewrite andb_false_r|reflexivity].
Qed.

(** X25.  The mask that keeps the peaks out of the polynomial and spline
    baseline fits. It has one entry per sample, and sample [i] is excluded
    exactly when some detected peak [p] has [p - w <= i < p + w], with the
    half-width [w = int(0.02 * len(y))]: the window is not symmetric, it
    leaves out [p + w]. For a spectrum of fewer than 50 samples [w] is 0
    and nothing is excluded, not even the peak samples themselves. *)
Theorem peak_mask_window (n : nat) (peaks : list nat) :
  length (peak_mask n peaks) = n /\
  (forall i, (i < n)%nat ->
     peak_mask n peaks !! i
     = Some (negb (existsb
                     (fun p => (p - n / 50 <=? i)%nat
                               && (i <? p + n / 50)%nat) peaks))) /\
  ((n < 50)%nat ->
   peak_mask n peaks = repeat true n /\ count_true (peak_mask n peaks) = n).
Proof.
  unfold peak_mask.
  destruct (peak_mask_fold n peaks (repeat true n)) as [Hlen Hget].
  cbv zeta in *. rewrite repeat_length in Hlen.
  assert (Hpoint : forall i, (i < n)%nat ->
     fold_left
       (fun mask peak =>
          imap (fun i b =>
                  if (peak - n / 50 <=? i)%nat
                     && (i <? Nat.min n (peak + n / 50))%nat
                  then false else b) mask)
       peaks (repeat true n) !! i
     = Some (negb (existsb
                     (fun p => (p - n / 50 <=? i)%nat
                               && (i <? p + n / 50)%nat) peaks))).
  { intros i Hi.
    rewrite (Hget i true) by (apply lookup_repeat_lt; exact Hi).
    cbn [andb]. do 2 f_equal.
    clear -Hi. induction peaks as [|p ps IHp]; [reflexivity|]. cbn [existsb].
    f_equal; [|exact IHp]. f_equal.
    destruct (Nat.ltb_spec i (Nat.min n (p + n / 50)));
      destruct (Nat.ltb_spec i (p + n / 50)); try reflexivity; lia. }
  split; [exact Hlen|]. split; [exact Hpoint|].
  intros Hn.
  assert (Hw : (n / 50 = 0)%nat) by (apply Nat.div_small; exact Hn).
  assert (Hall : fold_left
       (fun mask peak =>
          imap (fun i b =>
                  if (peak - n / 50 <=? i)%nat
                     && (i <? Nat.min n (peak + n / 50))%nat
                  then false else b) mask)
       peaks (repeat true n) = repeat true n).
  { apply list_eq. intros i.
    destruct (Nat.lt_ge_cases i n) as [Hi|Hi].
    - rewrite (Hpoint i Hi), (lookup_repeat_lt true n i Hi). f_equal.
      apply negb_true_iff. rewrite Hw. clear. induction peaks as [|p ps IH]; [reflexivity|].
      cbn [existsb]. rewrite IH, orb_false_r.
      rewrite Nat.sub_0_r, Nat.add_0_r.
      destruct (Nat.leb_spec p i); destruct (Nat.ltb_spec i p);
        try reflexivity; lia.
    - rewrite !lookup_ge_None_2; [reflexivity| |];
        rewrite ?repeat_length, ?Hlen; lia. }
  rewrite Hall. split; [reflexivity|].
  unfold count_true. clear. induction n as [|n IH]; [reflexivity|].
  simpl. now rewrite IH.
Qed.

Lemma peak_mask_window_witness :
  peak_mask 40 [10; 20]%nat = repeat true 40 /\
  count_true (peak_mask 40 [10; 20]%nat) = 40%nat.
Proof.
  apply (proj2 (proj2 (peak_mask_window 40 [10; 20]%nat))). lia.
Defined.

End MaskFacts.

(** ** Column names *)

Section ColumnFacts.
Import Columns.

Lemma split_nonempty (sep : ascii) (s : string) : split sep s <> [].
Proof.
  destruct s as [|c r]; simpl; [discriminate|].
  destruct (Ascii.eqb c sep); [discriminate|].
  destruct (split sep r); discriminate.
Qed.

(** The first piece of a split and what follows it. *)
Lemma split_head (sep : ascii) (s : string) :
  exists h t,
    split sep s = h :: t /\ contains sep h = false /\
    (contains sep s = false -> t = [] /\ h = s) /\
    (contains sep s = true ->
       exists r, s = (h ++ String.String sep r)%string /\ t = split sep r).
Proof.
  induction s as [|c r IH]; simpl.
  - exists String.EmptyString, []. repeat split; try reflexivity.
    discriminate.
  - destruct (Ascii.eqb_spec c sep) as [->|Hne].
    + exists String.EmptyString, (split sep r).
      split; [reflexivity|]. split; [reflexivity|].
      split; [discriminate|]. intros _. exists r. split; reflexivity.
    + destruct IH as (h & t & E & Hh & Hno & Hyes). rewrite E.
      exists (String.String c h), t. split; [reflexivity|].
      split.
      { simpl. destruct (Ascii.eqb_spec c sep); [contradiction|exact Hh]. }
      cbn [orb]. split.
      * intros Hc. destruct (Hno Hc) as [-> ->]. split; reflexivity.
      * intros Hc. destruct (Hyes Hc) as (r' & -> & ->).
        exists r'. split; reflexivity.
Qed.

Lemma string_app_nil_r (s : string) : (s ++ "")%string = s.
Proof.
  induction s as [|c r IH]; [reflexivity|].
  change (String.String c (r ++ "")%string = String.String c r).
  now rewrite IH.
Qed.

(** X26.  How [process_file] reads the grain and the location off a
    column name. Without an underscore the grain is the whole name and
    the location is the configured default. With one, the name is
    [grain + "_" + location + rest], where neither the grain nor the
    location holds an underscore and [rest] is empty or begins with an
    underscore: everything after a second underscore is dropped, and
    neither lookup can fail. *)
Theorem grain_and_location (column default_location : string) :
  (contains "_" column = false ->
     grain column = Some column /\
     location column default_location = Some default_location) /\
  (contains "_" column = true ->
     exists g l rest,
       grain column = Some g /\
       location column default_location = Some l /\
       column = (g ++ "_" ++ l ++ rest)%string /\
       contains "_" g = false /\ contains "_" l = false /\
       (rest = ""%string \/
        exists r, rest = String.String "_" r)).
Proof.
  unfold grain, location. split; intros Hc; rewrite Hc.
  - split; reflexivity.
  - destruct (split_head "_" column) as (g & t & E & Hg & _ & Hyes).
    destruct (Hyes Hc) as (r & -> & ->).
    destruct (split_head "_" r) as (l & t' & E' & Hl & Hno' & Hyes').
    exists g, l.
    destruct (contains "_" r) eqn:Hr.
    + destruct (Hyes' eq_refl) as (r' & -> & ->).
      exists (String.String "_" r'). rewrite E, E'.
      repeat split; try assumption. right. eauto.
    + destruct (Hno' eq_refl) as [-> ->].
      exists ""%string. rewrite E, E'.
      repeat split; try assumption.
      * now rewrite string_app_nil_r.
      * now left.
Qed.

Lemma grain_and_location_witness :
  exists g l rest,
    grain "G12_core_b" = Some g /\
    location "G12_core_b" "1" = Some l /\
    "G12_core_b"%string = (g ++ "_" ++ l ++ rest)%string /\
    contains "_" g = false /\ contains "_" l = false /\
    (rest = ""%string \/ exists r, rest = String.String "_" r).
Proof.
  apply (proj2 (grain_and_location "G12_core_b" "1")). reflexivity.
Defined.

End ColumnFacts.

(** ** Peaks the fitter cannot start from *)

Section FitFeasibility.
Import Fitter.
Local Open Scope Q_scope.

Variable np_exp : Q -> Q.
Variable sqrt_2pi : Q.
Variable simpson : list Q -> list Q -> Q.
Variable curve_fit :
  list Q -> list Q -> params -> params -> params -> option params.

(** [scipy.optimize.curve_fit] raises [ValueError] when the initial
    amplitude lies outside its bounds. *)
Hypothesis curve_fit_infeasible :
  forall x_fit y_fit p0 lower upper,
    ~ (amplitude lower <= amplitude p0 /\ amplitude p0 <= amplitude upper) ->
    curve_fit x_fit y_fit p0 lower upper = None.

Lemma fit_peak_skips_high_peak
    (x y lefts rights : list Q) (i peak_idx : nat)
    (x_peak y_peak left_pos right_pos : Q) :
  x !! peak_idx = Some x_peak -> y !! peak_idx = Some y_peak ->
  lefts !! i = Some left_pos -> rights !! i = Some right_pos ->
  1 < y_peak \/ y_peak < 0 ->
  fit_peak np_exp sqrt_2pi simpson curve_fit x y lefts rights i peak_idx
  = Some None.
Proof.
  intros Hx Hy Hl Hr Hbad. unfold fit_peak.
  rewrite Hx, Hy, Hl, Hr. cbn [mbind option_bind]. cbv zeta.
  destruct (length _ <? 5)%nat; [reflexivity|].
  rewrite curve_fit_infeasible; [reflexivity|].
  cbn [amplitude]. intros [H0 H1].
  destruct Hbad as [Hhigh|Hneg]; [|qlra].
  pose proof (Q.le_min_l 1 (2 * y_peak)). qlra.
Qed.

(** X27.  Peaks whose height is not in [0, 1] are never fitted. The
    fitter starts [curve_fit] from the amplitude [y[peak]] with the bounds
    [0] and [min(1, 2 * y[peak])]; when [y[peak] > 1] or [y[peak] < 0] the
    start lies outside the bounds, [curve_fit] raises, and the peak is left
    out. If that is so for every detected peak (a spectrum that was not
    scaled to [0, 1]), [fit_gaussian_profiles] returns the empty list. *)
Theorem peaks_above_one_are_skipped
    (x y : list Q) (peaks : list nat) (lefts rights : list Q)
    (Hidx : Forall (fun p => (p < length x)%nat /\ (p < length y)%nat) peaks)
    (Hl : length lefts = length peaks)
    (Hr : length rights = length peaks)
    (Hhigh : forall peak_idx y_peak,
       In peak_idx peaks -> y !! peak_idx = Some y_peak ->
       1 < y_peak \/ y_peak < 0) :
  fit_gaussian_profiles np_exp sqrt_2pi simpson curve_fit
                        x y peaks lefts rights
  = Some [].
Proof.
  unfold fit_gaussian_profiles.
  destruct (fit_loop_outcomes np_exp sqrt_2pi simpson curve_fit
              x y lefts rights peaks 0 [] Hidx
              ltac:(simpl; lia) ltac:(simpl; lia))
    as (outcomes & -> & Hlen & Hall).
  cbn [app]. f_equal.
  assert (Hnone : forall k o, outcomes !! k = Some o -> o = None).
  { intros k o Ho.
    assert (Hk : (k < length peaks)%nat)
      by (rewrite <- Hlen; eapply lookup_lt_Some; exact Ho).
    destruct (lookup_lt_is_Some_2 peaks k Hk) as [p Hp].
    destruct (Hall k p Hp) as (o' & Ho' & Hfit).
    rewrite Ho in Ho'. injection Ho' as <-.
    rewrite Forall_forall in Hidx.
    destruct (Hidx p (list_elem_of_lookup_2 _ _ _ Hp)) as [Hpx Hpy].
    destruct (lookup_lt_is_Some_2 x p Hpx) as [xp Hxp].
    destruct (lookup_lt_is_Some_2 y p Hpy) as [yp Hyp].
    destruct (lookup_lt_is_Some_2 lefts k ltac:(lia)) as [lp Hlp].
    destruct (lookup_lt_is_Some_2 rights k ltac:(lia)) as [rp Hrp].
    change (0 + k)%nat with k in Hfit.
    rewrite (fit_peak_skips_high_peak x y lefts rights k p xp yp lp rp
               Hxp Hyp Hlp Hrp) in Hfit.
    - now injection Hfit.
    - apply (Hhigh p yp); [|exact Hyp].
      apply list_elem_of_In. eapply list_elem_of_lookup_2. exact Hp. }
  clear -Hnone. induction outcomes as [|o os IH]; [reflexivity|].
  rewrite (Hnone 0%nat o eq_refl). cbn. apply IH.
  intros k o' Ho'. apply (Hnone (S k) o' Ho').
Qed.

End FitFeasibility.

Lemma peaks_above_one_are_skipped_witness :
  Fitter.fit_gaussian_profiles (fun _ => 1%Q) 2%Q (fun _ _ => 0%Q)
    (fun _ _ p0 lower upper =>
       if Qleb (Fitter.amplitude lower) (Fitter.amplitude p0)
          && Qleb (Fitter.amplitude p0) (Fitter.amplitude upper)
       then Some p0 else None)
    [1; 2; 3; 4; 5; 6; 7]%Q [0; 10; 20; 50; 20; 10; 0]%Q [3%nat]
    [2]%Q [6]%Q
  = Some [].
Proof.
  apply (peaks_above_one_are_skipped (fun _ => 1%Q) 2%Q (fun _ _ => 0%Q)
    (fun _ _ p0 lower upper =>
       if Qleb (Fitter.amplitude lower) (Fitter.amplitude p0)
          && Qleb (Fitter.amplitude p0) (Fitter.amplitude upper)
       then Some p0 else None)).
  - intros xf yf p0 lo hi Hn.
    destruct (Qleb (Fitter.amplitude lo) (Fitter.amplitude p0)) eqn:E1;
      destruct (Qleb (Fitter.amplitude p0) (Fitter.amplitude hi)) eqn:E2;
      try reflexivity.
    exfalso. apply Hn. split; now apply Qleb_true.
  - repeat constructor; simpl; lia.
  - reflexivity.
  - reflexivity.
  - intros p yp [<-|[]] Hy. injection Hy as <-. left. reflexivity.
Defined.
